(** * Magic Canvas: layer store, history and hierarchy editing

    A shallow embedding of the editing core of the Magic Canvas application
    (src/App.tsx, src/components/LayersPanel.tsx, the CanvasArea component and
    src/types.ts) together with the properties its specification states.

    Conventions of the embedding:
    - a JavaScript array is a [list]; indices are [Z] because the source
      computes with [-1] ([findIndex]) and with pointers that may leave the
      array; [undefined] is [None];
    - a JavaScript [number] is an IEEE 754 binary64 value, [float];
    - an exception is a [Throw] in the [result] type;
    - recursion that the source does not bound takes the depth of the call
      stack as an explicit parameter and throws [RangeError] when it is used up;
    - [Date.now()] and the outcome of the remote calls are parameters. *)

From Stdlib Require Import ZArith List String Ascii Bool Lia Floats.
From Stdlib Require Import Permutation Sorted.
Import ListNotations.
Open Scope string_scope.
Open Scope list_scope.
Open Scope Z_scope.

(** ** Exceptions *)

Inductive Exn := TypeError | RangeError.

Inductive result (A : Type) : Type :=
| Ok (a : A)
| Throw (e : Exn).
Arguments Ok {A} a.
Arguments Throw {A} e.

Definition bind {A B} (r : result A) (k : A -> result B) : result B :=
  match r with
  | Ok a => k a
  | Throw e => Throw e
  end.

Notation "x <- r ;; k" := (bind r (fun x => k))
  (at level 61, r at next level, right associativity).

(** ** JavaScript arrays *)

Module JsArray.
Section Ops.
Context {A : Type}.

Definition len (l : list A) : Z := Z.of_nat (List.length l).

(** [l[i]]: [undefined] outside [0 .. length-1]. *)
Definition get (l : list A) (i : Z) : option A :=
if i <? 0 then None else nth_error l (Z.to_nat i).

(** How [slice] and [splice] read a relative index: a negative one counts
  from the end, and the result is clamped to [0 .. length]. *)
Definition rel (l : list A) (k : Z) : Z :=
if k <? 0 then Z.max (len l + k) 0 else Z.min k (len l).

(** [l.slice(from, to)]. *)
Definition slice (l : list A) (from to : Z) : list A :=
let s := rel l from in
let e := rel l to in
firstn (Z.to_nat (e - s)) (skipn (Z.to_nat s) l).

(** [l.push(x)]. *)
Definition push (l : list A) (x : A) : list A := l ++ [x].

(** [l.splice(start, deleteCount, ...items)], the array afterwards. *)
Definition splice (l : list A) (start deleteCount : Z) (items : list A) : list A :=
let s := rel l start in
let d := Z.min (Z.max deleteCount 0) (len l - s) in
firstn (Z.to_nat s) l ++ items ++ skipn (Z.to_nat (s + d)) l.

(** [l.findIndex(p)]: [-1] when no element satisfies [p]. *)
Fixpoint findIndex (p : A -> bool) (l : list A) : Z :=
match l with
| [] => -1
| x :: r => if p x then 0 else
              let i := findIndex p r in
              if i <? 0 then -1 else i + 1
end.

(** [new Map(l.map(x => [key x, x])).get(k)]: a later entry replaces an
  earlier one with the same key. *)
Definition mapGet (key : A -> string) (l : list A) (k : string) : option A :=
find (fun x => String.eqb (key x) k) (rev l).

End Ops.

(** [ids.includes(x)]. *)
Definition includes (l : list string) (x : string) : bool :=
  existsb (String.eqb x) l.

(** Insertion of one number into a list sorted with [(a, b) => b - a]. *)
Fixpoint insertDesc (x : Z) (l : list Z) : list Z :=
  match l with
  | [] => [x]
  | y :: r => if y <? x then x :: l else y :: insertDesc x r
  end.

(** [l.sort((a, b) => b - a)]: the numbers in descending order. *)
Definition sortDesc (l : list Z) : list Z := fold_right insertDesc [] l.

End JsArray.

(** ** The history hook ([useHistory], src/App.tsx) *)

Record History (T : Type) := mkHistory { history : list T; currentIndex : Z }.
Arguments mkHistory {T} _ _.
Arguments history {T} _.
Arguments currentIndex {T} _.

(** [React.SetStateAction<T>]: a value, or a function of the previous state.
    The function is called with [history[currentIndex]], which is [undefined]
    when the pointer is outside the stack, and it may throw. *)
Inductive SetStateAction (T : Type) :=
| Value (v : T)
| Updater (f : option T -> result T).
Arguments Value {T} v.
Arguments Updater {T} f.

Section Hook.
Context {T : Type}.

(** [JSON.stringify] on values of the state type. *)
Variable stringify : T -> string.

(** [useState([initialState])], [useState(0)]. *)
Definition useHistory (initialState : T) : History T :=
  {| history := [initialState]; currentIndex := 0 |}.

(** [const state = history[currentIndex]]. *)
Definition state (h : History T) : option T :=
  JsArray.get (history h) (currentIndex h).

(** [JSON.stringify(x) === JSON.stringify(y)] where [y] may be [undefined]
    ([JSON.stringify(undefined)] is [undefined], equal to no string). *)
Definition sameJson (x : T) (y : option T) : bool :=
  match y with
  | Some y' => String.eqb (stringify x) (stringify y')
  | None => false
  end.

(** The body of [setState] as the closure of a render with history [h] runs
    it: [None] when it returns before [setHistory] and [setCurrentIndex]
    are called, otherwise the stack and pointer it installs. *)
Definition setStateCalls (h : History T) (action : SetStateAction T)
  : result (option (History T)) :=
  newState <- match action with
              | Updater f => f (state h)
              | Value v => Ok v
              end ;;
  if sameJson newState (state h) then Ok None
  else
    let newHistory :=
      JsArray.push (JsArray.slice (history h) 0 (currentIndex h + 1)) newState in
    Ok (Some {| history := newHistory;
                currentIndex := JsArray.len newHistory - 1 |}).

(** [setState] called in the render whose history is [h]. *)
Definition setState (h : History T) (action : SetStateAction T)
  : result (History T) :=
  r <- setStateCalls h action ;;
  Ok (match r with Some h' => h' | None => h end).

Definition undo (h : History T) : History T :=
  if 0 <? currentIndex h
  then {| history := history h; currentIndex := currentIndex h - 1 |}
  else h.

Definition redo (h : History T) : History T :=
  if currentIndex h <? JsArray.len (history h) - 1
  then {| history := history h; currentIndex := currentIndex h - 1 |}
  else h.

Definition canUndo (h : History T) : bool := 0 <? currentIndex h.
Definition canRedo (h : History T) : bool :=
  currentIndex h <? JsArray.len (history h) - 1.

(** The stack cut after the pointer with [s] appended, and the pointer on [s]. *)
Definition pushed (h : History T) (s : T) : History T :=
  {| history := firstn (Z.to_nat (currentIndex h) + 1) (history h) ++ [s];
     currentIndex := currentIndex h + 1 |}.

(** The pointer designates an entry of the stack. *)
Definition wf (h : History T) : Prop :=
  0 <= currentIndex h < JsArray.len (history h).

(** Histories obtained from the initial one by [setState] calls alone. *)
Inductive committed : History T -> Prop :=
| committed_init s : committed (useHistory s)
| committed_step h a h' :
    committed h -> setState h a = Ok h' -> committed h'.

End Hook.

(** ** The data model (src/types.ts) *)

Definition number := float.

Module Image.
Record t := mk {
  id : string; name : string; src : string;
  x : number; y : number; width : number; height : number; rotation : number;
  mimeType : string; visible : bool; parentId : option string }.
End Image.

Inductive FontWeight := WeightNormal | WeightBold.
Inductive FontStyle := StyleNormal | StyleItalic.
Inductive TextDecoration := DecorationNone | DecorationUnderline.
Inductive Align := AlignLeft | AlignCenter | AlignRight.
Inductive FillType := FillSolid | FillGradient.

Module Text.
Record t := mk {
  id : string; name : string; content : string;
  x : number; y : number; width : number; height : number; rotation : number;
  fontSize : number; color : string;
  fontWeight : FontWeight; fontStyle : FontStyle; textDecoration : TextDecoration;
  align : option Align;
  visible : bool; parentId : option string;
  shadowEnabled : bool; shadowColor : string; shadowBlur : number;
  shadowOffsetX : number; shadowOffsetY : number;
  outlineEnabled : bool; outlineColor : string; outlineWidth : number;
  fillType : FillType; gradientColors : string * string;
  gradientDirection : string }.
End Text.

Module Group.
Record t := mk {
  id : string; name : string; visible : bool; expanded : bool;
  parentId : option string }.
End Group.

(** [type Layer = CanvasElement | CanvasGroup], discriminated by [type]. *)
Inductive Layer :=
| LImage (e : Image.t)
| LText (e : Text.t)
| LGroup (g : Group.t).

Inductive LayerType := image | text | group.

Definition type (l : Layer) : LayerType :=
  match l with LImage _ => image | LText _ => text | LGroup _ => group end.

Definition id (l : Layer) : string :=
  match l with
  | LImage e => Image.id e | LText e => Text.id e | LGroup g => Group.id g
  end.

Definition name (l : Layer) : string :=
  match l with
  | LImage e => Image.name e | LText e => Text.name e | LGroup g => Group.name g
  end.

Definition visible (l : Layer) : bool :=
  match l with
  | LImage e => Image.visible e | LText e => Text.visible e
  | LGroup g => Group.visible g
  end.

Definition parentId (l : Layer) : option string :=
  match l with
  | LImage e => Image.parentId e | LText e => Text.parentId e
  | LGroup g => Group.parentId g
  end.

(** [{ ...l, parentId: p }]; with [None] it is [const { parentId, ...rest } = l]. *)
Definition withParentId (l : Layer) (p : option string) : Layer :=
  match l with
  | LImage e =>
      LImage (Image.mk (Image.id e) (Image.name e) (Image.src e) (Image.x e)
                (Image.y e) (Image.width e) (Image.height e) (Image.rotation e)
                (Image.mimeType e) (Image.visible e) p)
  | LText e =>
      LText (Text.mk (Text.id e) (Text.name e) (Text.content e) (Text.x e)
               (Text.y e) (Text.width e) (Text.height e) (Text.rotation e)
               (Text.fontSize e) (Text.color e) (Text.fontWeight e)
               (Text.fontStyle e) (Text.textDecoration e) (Text.align e)
               (Text.visible e) p
               (Text.shadowEnabled e) (Text.shadowColor e) (Text.shadowBlur e)
               (Text.shadowOffsetX e) (Text.shadowOffsetY e)
               (Text.outlineEnabled e) (Text.outlineColor e) (Text.outlineWidth e)
               (Text.fillType e) (Text.gradientColors e) (Text.gradientDirection e))
  | LGroup g =>
      LGroup (Group.mk (Group.id g) (Group.name g) (Group.visible g)
                (Group.expanded g) p)
  end.

(** [l.id === k] and [l.parentId === k]. *)
Definition idIs (k : string) (l : Layer) : bool := String.eqb (id l) k.
Definition parentIs (k : string) (l : Layer) : bool :=
  match parentId l with Some p => String.eqb p k | None => false end.
Definition isGroup (l : Layer) : bool :=
  match l with LGroup _ => true | _ => false end.
Definition isElement (l : Layer) : bool :=
  match l with LGroup _ => false | _ => true end.
Definition isImage (l : Layer) : bool :=
  match l with LImage _ => true | _ => false end.

Inductive Role := user | assistant | system.

Record ChatMessage := mkChatMessage {
  msg_id : string; role : Role; msg_content : string;
  images : option (list string) }.

Inductive Tool := Select | Draw | TextTool.

(** ** Descendants of a layer *)

Section Traversal.
Context {A B : Type}.

(** [for (const x of l) { out.push(...f(x)) }], stopping at the first throw. *)
Fixpoint collect (f : A -> result (list B)) (l : list A) : result (list B) :=
  match l with
  | [] => Ok []
  | x :: r => ys <- f x ;; zs <- collect f r ;; Ok (ys ++ zs)
  end.

(** [for (const x of l) { acc = f(acc, x) }], stopping at the first throw. *)
Fixpoint forEachM (f : B -> A -> result B) (acc : B) (l : list A) : result B :=
  match l with
  | [] => Ok acc
  | x :: r => acc' <- f acc x ;; forEachM f acc' r
  end.
End Traversal.

(** [getDescendantIds] of src/App.tsx over the rendered [layers]. [depth] is
    the number of nested calls the stack still allows. *)
Fixpoint getDescendantIds (depth : nat) (layers : list Layer) (layerId : string)
  : result (list string) :=
  match depth with
  | O => Throw RangeError
  | S d =>
      let children := filter (parentIs layerId) layers in
      collect (fun child =>
                 sub <- (if isGroup child
                         then getDescendantIds d layers (id child)
                         else Ok []) ;;
                 Ok (id child :: sub))
              children
  end.

(** [findChildren] of src/components/LayersPanel.tsx; [acc] is the array
    [allDescendants] it pushes to. *)
Fixpoint findChildren (depth : nat) (layers : list Layer) (parent : string)
  (acc : list string) : result (list string) :=
  match depth with
  | O => Throw RangeError
  | S d =>
      let children := filter (parentIs parent) layers in
      forEachM (fun acc child =>
                  let acc := JsArray.push acc (id child) in
                  if isGroup child then findChildren d layers (id child) acc
                  else Ok acc)
               acc children
  end.

(** [getDescendantIds] of src/components/LayersPanel.tsx. *)
Definition panelGetDescendantIds (depth : nat) (layers : list Layer)
  (startLayerId : string) : result (list string) :=
  findChildren depth layers startLayerId [].

(** ** Text geometry (CanvasArea) *)

(** [Math.max(a, b)]: [NaN] if an argument is [NaN]; [+0] is larger than [-0]. *)
Definition Math_max (a b : number) : number :=
  if (PrimFloat.is_nan a || PrimFloat.is_nan b)%bool then PrimFloat.nan
  else if PrimFloat.ltb a b then b
  else if PrimFloat.ltb b a then a
  else match PrimFloat.classify a with
       | NZero => b
       | _ => a
       end.

(** [1.2], that is the binary64 value nearest to it. *)
Definition FONT_SIZE_TO_HEIGHT_RATIO : number := 0x1.3333333333333p+0%float.

Definition calculateFontSizeFromHeight (height : number) : number :=
  Math_max 1%float (PrimFloat.div height FONT_SIZE_TO_HEIGHT_RATIO).

(** ** The application state (the [useState] cells of [App]) *)

Record App := mkApp {
  layersHistory : History (list Layer);
  selectedIds : list string;
  activeTool : Tool;
  isLoading : bool;
  isProcessing : bool;
  processingMessage : string;
  messages : list ChatMessage;
  isShiftPressed : bool }.

Definition setLayersHistory (app : App) (h : History (list Layer)) : App :=
  mkApp h (selectedIds app) (activeTool app) (isLoading app) (isProcessing app)
        (processingMessage app) (messages app) (isShiftPressed app).

Definition setSelectedIds (app : App) (ids : list string) : App :=
  mkApp (layersHistory app) ids (activeTool app) (isLoading app)
        (isProcessing app) (processingMessage app) (messages app)
        (isShiftPressed app).

Definition setIsProcessing (app : App) (b : bool) : App :=
  mkApp (layersHistory app) (selectedIds app) (activeTool app) (isLoading app)
        b (processingMessage app) (messages app) (isShiftPressed app).

Definition setProcessingMessage (app : App) (m : string) : App :=
  mkApp (layersHistory app) (selectedIds app) (activeTool app) (isLoading app)
        (isProcessing app) m (messages app) (isShiftPressed app).

(** [setMessages(prev => f(prev))]. *)
Definition setMessages (app : App) (f : list ChatMessage -> list ChatMessage) : App :=
  mkApp (layersHistory app) (selectedIds app) (activeTool app) (isLoading app)
        (isProcessing app) (processingMessage app) (f (messages app))
        (isShiftPressed app).

Definition setIsShiftPressed (app : App) (b : bool) : App :=
  mkApp (layersHistory app) (selectedIds app) (activeTool app) (isLoading app)
        (isProcessing app) (processingMessage app) (messages app) b.

(** A property read of [undefined] ([prev.map], [[...prev]], [layers.filter])
    throws a [TypeError]. *)
Definition defined {A} (v : option A) : result A :=
  match v with Some a => Ok a | None => Throw TypeError end.

(** [Partial<CanvasElement>] as the gesture handlers build it. *)
Record Props := mkProps {
  p_x : option number; p_y : option number;
  p_width : option number; p_height : option number;
  p_rotation : option number; p_fontSize : option number }.

Definition orElse {A} (o : option A) (d : A) : A :=
  match o with Some a => a | None => d end.

(** [{ ...l, ...newProps }] for an image or text layer [l]. An image has no
    [fontSize] field in [CanvasImageElement]; the embedding keeps its fields. *)
Definition spreadProps (l : Layer) (newProps : Props) : Layer :=
  match l with
  | LImage e =>
      LImage (Image.mk (Image.id e) (Image.name e) (Image.src e)
                (orElse (p_x newProps) (Image.x e))
                (orElse (p_y newProps) (Image.y e))
                (orElse (p_width newProps) (Image.width e))
                (orElse (p_height newProps) (Image.height e))
                (orElse (p_rotation newProps) (Image.rotation e))
                (Image.mimeType e) (Image.visible e) (Image.parentId e))
  | LText e =>
      LText (Text.mk (Text.id e) (Text.name e) (Text.content e)
               (orElse (p_x newProps) (Text.x e))
               (orElse (p_y newProps) (Text.y e))
               (orElse (p_width newProps) (Text.width e))
               (orElse (p_height newProps) (Text.height e))
               (orElse (p_rotation newProps) (Text.rotation e))
               (orElse (p_fontSize newProps) (Text.fontSize e))
               (Text.color e) (Text.fontWeight e)
               (Text.fontStyle e) (Text.textDecoration e) (Text.align e)
               (Text.visible e) (Text.parentId e)
               (Text.shadowEnabled e) (Text.shadowColor e) (Text.shadowBlur e)
               (Text.shadowOffsetX e) (Text.shadowOffsetY e)
               (Text.outlineEnabled e) (Text.outlineColor e) (Text.outlineWidth e)
               (Text.fillType e) (Text.gradientColors e) (Text.gradientDirection e))
  | LGroup g => LGroup g
  end.

Inductive Position := before | after | inside.

(** [error instanceof Error ? error.message : ...]: what a rejected call threw. *)
Inductive Thrown := ErrorObject (message : string) | OtherValue.

(** How the promise of the remote call settles. *)
Inductive Settled := Fulfilled (resultImage : string) | Rejected (error : Thrown).

(** The final event of a resize gesture: [e.lastEvent] may be missing, or be
    the [OnResizeStart] event, which carries no size. *)
Inductive LastEvent :=
| OnResizeStart
| OnResize (width height : number) (drag_left drag_top : number).

Record KeyboardEvent := mkKey {
  key : string; repeat : bool; metaKey : bool; ctrlKey : bool; shiftKey : bool }.

(** [document.activeElement], as far as the handler reads it. *)
Record Element := mkElement { tagName : string; isContentEditable : bool }.

(** What [handleKeyDown] calls, in order. *)
Inductive KeyCall :=
| CallSetIsShiftPressed (b : bool)
| CallPreventDefault
| CallUndo
| CallRedo
| CallHandleDeleteSelected.

(** ** The handlers of [App] and of the canvas *)

(** [l.map(f).filter(x => !!x)] for a lookup [f]. *)
Fixpoint compact {A} (l : list (option A)) : list A :=
  match l with
  | [] => []
  | Some a :: r => a :: compact r
  | None :: r => compact r
  end.

(** [l.forEach((x, index) => { acc = f(acc, x, index) })], [index] from [i]. *)
Fixpoint forEachIndexed {A B} (f : B -> A -> Z -> B) (acc : B) (l : list A) (i : Z) : B :=
  match l with
  | [] => acc
  | x :: r => forEachIndexed f (f acc x i) r (i + 1)
  end.

(** [selectedLayers] and [selectedIndices] of [handleGroupSelection]. *)
Definition selectedLayers (selectedIds : list string) (newLayers : list Layer)
  : list Layer :=
  compact (map (fun k => find (idIs k) newLayers) selectedIds).

Definition selectedIndices (selectedIds : list string) (newLayers : list Layer)
  : list Z :=
  JsArray.sortDesc
    (filter (fun i => negb (i =? -1))
            (map (fun k => JsArray.findIndex (idIs k) newLayers) selectedIds)).

(** [selectedIndices.forEach(index => newLayers.splice(index, 1))]. *)
Definition withoutIndices (indices : list Z) (newLayers : list Layer)
  : list Layer :=
  fold_left (fun acc index => JsArray.splice acc index 1 []) indices newLayers.

(** The layer [handleGroupSelection] creates. *)
Definition newGroup (newGroupId : string) : Layer :=
  LGroup (Group.mk newGroupId "New Group" true true None).

(** [{ ...layer, parentId: newGroup.id }]. *)
Definition intoGroup (newGroupId : string) (layer : Layer) : Layer :=
  withParentId layer (Some (id (newGroup newGroupId))).

(** The function [handleGroupSelection] passes to [setLayers]. *)
Definition groupLayers (newGroupId : string) (selectedIds : list string)
  (prevLayers : list Layer) : list Layer :=
  let newLayers := prevLayers in
  let first l := match JsArray.get selectedIds 0 with
                 | Some k => idIs k l
                 | None => false
                 end in
  let topItemIndex := JsArray.findIndex first newLayers in
  let selectedLayers := selectedLayers selectedIds newLayers in
  let selectedIndices := selectedIndices selectedIds newLayers in
  let newLayers := withoutIndices selectedIndices newLayers in
  let finalTopIndex :=
    if JsArray.len newLayers <? topItemIndex then JsArray.len newLayers
    else topItemIndex in
  let newLayers := JsArray.splice newLayers finalTopIndex 0 [newGroup newGroupId] in
  forEachIndexed
    (fun acc layer index =>
       JsArray.splice acc (finalTopIndex + 1 + index) 0
                      [intoGroup newGroupId layer])
    newLayers selectedLayers 0.

(** One round of the [groupsToUngroup.forEach] loop of [handleUngroupSelection]:
    the layers, and the ids pushed to [newSelection]. *)
Definition ungroupOne (acc : list Layer * list string) (groupId : string)
  : list Layer * list string :=
  let (newLayers, newSelection) := acc in
  (filter (fun l => negb (idIs groupId l))
          (map (fun l => if parentIs groupId l then withParentId l None else l)
               newLayers),
   newSelection ++ map id (filter (parentIs groupId) newLayers)).

Definition ungroupLayers (groupsToUngroup : list string) (prevLayers : list Layer)
  : list Layer * list string :=
  fold_left ungroupOne groupsToUngroup (prevLayers, []).

(** The function [handleReorderAndReparentLayers] passes to [setLayers];
    [layers] is the list [getDescendantIds] closes over. *)
Definition reorderLayers (depth : nat) (layers : list Layer)
  (dragId dropId : string) (position : Position) (prev : list Layer)
  : result (list Layer) :=
  match JsArray.mapGet id prev dragId, JsArray.mapGet id prev dropId with
  | Some draggedLayerOriginal, Some dropLayer =>
      rejected <- (if parentIs dragId dropLayer then Ok true
                   else ds <- getDescendantIds depth layers dragId ;;
                        Ok (JsArray.includes ds dropId)) ;;
      if rejected then Ok prev
      else
        let newLayers := filter (fun l => negb (idIs dragId l)) prev in
        let finalDropIndex := JsArray.findIndex (idIs dropId) newLayers in
        if finalDropIndex =? -1 then Ok prev
        else
          match position with
          | inside =>
              let draggedLayer :=
                withParentId draggedLayerOriginal (Some (id dropLayer)) in
              let children := filter (parentIs (id dropLayer)) newLayers in
              (* [children.length > 0], then [children[children.length - 1]] *)
              match JsArray.get children (JsArray.len children - 1) with
              | Some lastChild =>
                  let lastChildIndex :=
                    JsArray.findIndex (idIs (id lastChild)) newLayers in
                  Ok (JsArray.splice newLayers (lastChildIndex + 1) 0 [draggedLayer])
              | None =>
                  Ok (JsArray.splice newLayers (finalDropIndex + 1) 0 [draggedLayer])
              end
          | _ =>
              let draggedLayer :=
                withParentId draggedLayerOriginal (parentId dropLayer) in
              let insertionIndex :=
                match position with
                | before => finalDropIndex
                | _ => finalDropIndex + 1
                end in
              Ok (JsArray.splice newLayers insertionIndex 0 [draggedLayer])
          end
  | _, _ => Ok prev
  end.

(** [isTyping] of [handleKeyDown]. *)
Definition isTyping (activeElement : option Element) : bool :=
  match activeElement with
  | Some a => String.eqb (tagName a) "INPUT"
              || String.eqb (tagName a) "TEXTAREA"
              || isContentEditable a
  | None => false
  end.

(** [handleKeyDown]: the calls it makes for one event, in order. *)
Definition handleKeyDown (e : KeyboardEvent) (activeElement : option Element)
  : list KeyCall :=
  (if String.eqb (key e) "Shift" && negb (repeat e)
   then [CallSetIsShiftPressed true] else [])
  ++ (if (metaKey e || ctrlKey e) && String.eqb (key e) "z" && negb (shiftKey e)
      then [CallPreventDefault; CallUndo] else [])
  ++ (if (metaKey e || ctrlKey e) && String.eqb (key e) "z" && shiftKey e
      then [CallPreventDefault; CallRedo] else [])
  ++ (if String.eqb (key e) "Delete" && negb (isTyping activeElement)
      then [CallPreventDefault; CallHandleDeleteSelected] else []).

Section Handlers.

(** [JSON.stringify] on layer lists. *)
Variable stringify : list Layer -> string.

(** [const { state: layers } = useHistory(initialLayers)]. *)
Definition layersOf (app : App) : option (list Layer) :=
  state (layersHistory app).

(** [setLayers(action)] called in the render of [app]. *)
Definition setLayers (app : App) (action : SetStateAction (list Layer))
  : result App :=
  h <- setState stringify (layersHistory app) action ;;
  Ok (setLayersHistory app h).

Definition handleDeleteSelected (depth : nat) (app : App) : result App :=
  if 0 <? JsArray.len (selectedIds app) then
    layers <- defined (layersOf app) ;;
    descs <- collect (getDescendantIds depth layers) (selectedIds app) ;;
    let idsToDelete := selectedIds app ++ descs in
    app <- setLayers app
             (Updater (fun prev =>
                prev <- defined prev ;;
                Ok (filter (fun l => negb (JsArray.includes idsToDelete (id l)))
                           prev))) ;;
    Ok (setSelectedIds app [])
  else Ok app.

Definition handleGroupSelection (newGroupId : string) (app : App) : result App :=
  if JsArray.len (selectedIds app) <? 1 then Ok app
  else
    app' <- setLayers app
              (Updater (fun prev =>
                 prevLayers <- defined prev ;;
                 Ok (groupLayers newGroupId (selectedIds app) prevLayers))) ;;
    Ok (setSelectedIds app' [newGroupId]).

Definition handleUngroupSelection (app : App) : result App :=
  layers <- defined (layersOf app) ;;
  let groupsToUngroup :=
    filter (fun k => match find (idIs k) layers with
                     | Some l => isGroup l
                     | None => false
                     end)
           (selectedIds app) in
  if JsArray.len groupsToUngroup =? 0 then Ok app
  else
    app' <- setLayers app
              (Updater (fun prev =>
                 prevLayers <- defined prev ;;
                 Ok (fst (ungroupLayers groupsToUngroup prevLayers)))) ;;
    (* [newSelection] was filled by the one call [setState] made of the
       function above, on [history[currentIndex]], which is [layers] *)
    let newSelection := snd (ungroupLayers groupsToUngroup layers) in
    Ok (setSelectedIds app' newSelection).

Definition handleReorderAndReparentLayers (depth : nat) (app : App)
  (dragId dropId : string) (position : Position) : result App :=
  setLayers app
    (Updater (fun prev =>
       prev <- defined prev ;;
       (* [getDescendantIds] reads [layers] of the same render *)
       reorderLayers depth prev dragId dropId position prev)).

Definition handleElementUpdate (app : App) (k : string) (newProps : Props)
  : result App :=
  setLayers app
    (Updater (fun prev =>
       prev <- defined prev ;;
       Ok (map (fun l => if idIs k l && isElement l
                         then spreadProps l newProps else l)
               prev))).

(** [onResizeEnd] of the canvas; [target] is [e.target.id]. *)
Definition onResizeEnd (app : App) (target : string)
  (lastEvent : option LastEvent) : result App :=
  match lastEvent with
  | Some (OnResize width height drag_left drag_top) =>
      layers <- defined (layersOf app) ;;
      let elements := filter isElement layers in
      match find (idIs target) elements with
      | None => Ok app
      | Some el =>
          let newProps :=
            {| p_x := Some drag_left; p_y := Some drag_top;
               p_width := Some width; p_height := Some height;
               p_rotation := None;
               p_fontSize :=
                 match type el with
                 | text => Some (calculateFontSizeFromHeight height)
                 | _ => None
                 end |} in
          handleElementUpdate app target newProps
      end
  | _ => Ok app
  end.

(** [handleRemoveBackground] up to its [await]: [None] when it returns
    before calling the service, otherwise the selected image and the state
    with the busy flag set. *)
Definition removeBackgroundBegin (app : App) : result (option (Image.t * App)) :=
  if negb (JsArray.len (selectedIds app) =? 1) then Ok None
  else
    layers <- defined (layersOf app) ;;
    match find (fun l => match JsArray.get (selectedIds app) 0 with
                         | Some k => idIs k l && isImage l
                         | None => false
                         end)
               layers with
    | Some (LImage selectedElement) =>
        Ok (Some (selectedElement,
                  setProcessingMessage (setIsProcessing app true)
                                       "Removing background..."))
    | _ => Ok None
    end.

(** The [catch] and [finally] blocks of [handleRemoveBackground]. *)
Definition removeBackgroundCatch (now : string) (error : Thrown) (app : App) : App :=
  let errorMessage :=
    {| msg_id := "msg-" ++ now ++ "-err";
       role := system;
       msg_content :=
         match error with
         | ErrorObject message => message
         | OtherValue => "An unknown error occurred during background removal."
         end;
       images := None |} in
  setMessages app (fun prev => prev ++ [errorMessage]).

Definition removeBackgroundFinally (app : App) : App :=
  setProcessingMessage (setIsProcessing app false) "".

(** [engineMessage e] is the [message] of the [Error] object the engine
    creates for [e]. *)
Variable engineMessage : Exn -> string.

(** [handleRemoveBackground] from the moment the promise settles. [render]
    is the state of the render the handler was created in, whose [setLayers]
    it still holds; [app] is the state at the time of settling. *)
Definition removeBackgroundSettle (now : string) (render : App)
  (selectedElement : Image.t) (outcome : Settled) (app : App) : result App :=
  let afterTry :=
    match outcome with
    | Fulfilled resultImage =>
        let updatedElement :=
          Image.mk (Image.id selectedElement) (Image.name selectedElement)
                   resultImage
                   (Image.x selectedElement) (Image.y selectedElement)
                   (Image.width selectedElement) (Image.height selectedElement)
                   (Image.rotation selectedElement) "image/png"
                   (Image.visible selectedElement)
                   (Image.parentId selectedElement) in
        match setStateCalls stringify (layersHistory render)
                (Updater (fun prev =>
                   prev <- defined prev ;;
                   Ok (map (fun l => if idIs (Image.id selectedElement) l
                                     then LImage updatedElement else l)
                           prev))) with
        | Throw e => removeBackgroundCatch now (ErrorObject (engineMessage e)) app
        | Ok calls =>
            let app := match calls with
                       | Some h => setLayersHistory app h
                       | None => app
                       end in
            let successMessage :=
              {| msg_id := "msg-" ++ now ++ "-ai";
                 role := system;
                 msg_content :=
                   "Successfully removed background for "
                     ++ Image.name selectedElement ++ ".";
                 images := None |} in
            setMessages app (fun prev => prev ++ [successMessage])
        end
    | Rejected error => removeBackgroundCatch now error app
    end in
  Ok (removeBackgroundFinally afterTry).

(** [handleRemoveBackground] with nothing else happening while it waits. *)
Definition handleRemoveBackground (now : string) (app : App) (outcome : Settled)
  : result App :=
  started <- removeBackgroundBegin app ;;
  match started with
  | None => Ok app
  | Some (selectedElement, app') =>
      removeBackgroundSettle now app selectedElement outcome app'
  end.

(** One call of [handleKeyDown] carried out on the state. *)
Definition runKeyCall (depth : nat) (app : App) (c : KeyCall) : result App :=
  match c with
  | CallSetIsShiftPressed b => Ok (setIsShiftPressed app b)
  | CallPreventDefault => Ok app
  | CallUndo => Ok (setLayersHistory app (undo (layersHistory app)))
  | CallRedo => Ok (setLayersHistory app (redo (layersHistory app)))
  | CallHandleDeleteSelected => handleDeleteSelected depth app
  end.

(** A [keydown] event delivered to the window. *)
Definition keydown (depth : nat) (app : App) (e : KeyboardEvent)
  (activeElement : option Element) : result App :=
  forEachM (runKeyCall depth) app (handleKeyDown e activeElement).

End Handlers.

(** ** A serialisation that determines the layer list

    The properties of the layer store below need [JSON.stringify] to tell
    apart layer lists that differ. [Wire.stringify] is a serialisation of the
    data model with that property; it is written with an output continuation,
    every value being followed by the text [k]. *)

Module Wire.

Definition encBool (b : bool) (k : string) : string :=
  String (if b then "t"%char else "f"%char) k.

Fixpoint encString (s : string) (k : string) : string :=
  match s with
  | EmptyString => String "."%char k
  | String c r => String ":"%char (String c (encString r k))
  end.

Fixpoint encPositive (p : positive) (k : string) : string :=
  match p with
  | xH => String "."%char k
  | xO q => String "0"%char (encPositive q k)
  | xI q => String "1"%char (encPositive q k)
  end.

Definition encZ (z : Z) (k : string) : string :=
  match z with
  | Z0 => String "0"%char k
  | Zpos p => String "+"%char (encPositive p k)
  | Zneg p => String "-"%char (encPositive p k)
  end.

Definition encSpecFloat (f : SpecFloat.spec_float) (k : string) : string :=
  match f with
  | SpecFloat.S754_zero s => String "z"%char (encBool s k)
  | SpecFloat.S754_infinity s => String "i"%char (encBool s k)
  | SpecFloat.S754_nan => String "n"%char k
  | SpecFloat.S754_finite s m e =>
      String "f"%char (encBool s (encPositive m (encZ e k)))
  end.

Definition encNumber (f : number) (k : string) : string :=
  encSpecFloat (Prim2SF f) k.

Definition encOption {A} (enc : A -> string -> string) (o : option A)
  (k : string) : string :=
  match o with
  | Some a => String "S"%char (enc a k)
  | None => String "N"%char k
  end.

Fixpoint encList {A} (enc : A -> string -> string) (l : list A) (k : string)
  : string :=
  match l with
  | [] => String "."%char k
  | x :: r => String ":"%char (enc x (encList enc r k))
  end.

Definition encFontWeight (w : FontWeight) : string -> string :=
  encBool match w with WeightNormal => false | WeightBold => true end.
Definition encFontStyle (w : FontStyle) : string -> string :=
  encBool match w with StyleNormal => false | StyleItalic => true end.
Definition encTextDecoration (w : TextDecoration) : string -> string :=
  encBool match w with DecorationNone => false | DecorationUnderline => true end.
Definition encFillType (w : FillType) : string -> string :=
  encBool match w with FillSolid => false | FillGradient => true end.
Definition encAlign (a : Align) (k : string) : string :=
  String match a with
         | AlignLeft => "l"%char | AlignCenter => "c"%char | AlignRight => "r"%char
         end k.

Definition encImage (e : Image.t) (k : string) : string :=
  encString (Image.id e) (encString (Image.name e) (encString (Image.src e)
  (encNumber (Image.x e) (encNumber (Image.y e) (encNumber (Image.width e)
  (encNumber (Image.height e) (encNumber (Image.rotation e)
  (encString (Image.mimeType e) (encBool (Image.visible e)
  (encOption encString (Image.parentId e) k)))))))))).

Definition encText (e : Text.t) (k : string) : string :=
  encString (Text.id e) (encString (Text.name e) (encString (Text.content e)
  (encNumber (Text.x e) (encNumber (Text.y e) (encNumber (Text.width e)
  (encNumber (Text.height e) (encNumber (Text.rotation e)
  (encNumber (Text.fontSize e) (encString (Text.color e)
  (encFontWeight (Text.fontWeight e) (encFontStyle (Text.fontStyle e)
  (encTextDecoration (Text.textDecoration e)
  (encOption encAlign (Text.align e)
  (encBool (Text.visible e) (encOption encString (Text.parentId e)
  (encBool (Text.shadowEnabled e) (encString (Text.shadowColor e)
  (encNumber (Text.shadowBlur e) (encNumber (Text.shadowOffsetX e)
  (encNumber (Text.shadowOffsetY e)
  (encBool (Text.outlineEnabled e) (encString (Text.outlineColor e)
  (encNumber (Text.outlineWidth e)
  (encFillType (Text.fillType e)
  (encString (fst (Text.gradientColors e))
  (encString (snd (Text.gradientColors e))
  (encString (Text.gradientDirection e) k))))))))))))))))))))))))))).

Definition encGroup (g : Group.t) (k : string) : string :=
  encString (Group.id g) (encString (Group.name g)
  (encBool (Group.visible g) (encBool (Group.expanded g)
  (encOption encString (Group.parentId g) k)))).

Definition encLayer (l : Layer) (k : string) : string :=
  match l with
  | LImage e => String "I"%char (encImage e k)
  | LText e => String "T"%char (encText e k)
  | LGroup g => String "G"%char (encGroup g k)
  end.

Definition stringify (layers : list Layer) : string :=
  encList encLayer layers "".

(** An encoder determines the value it wrote and the text after it. *)
Definition Decodable {A} (enc : A -> string -> string) : Prop :=
  forall a b k1 k2, enc a k1 = enc b k2 -> a = b /\ k1 = k2.

End Wire.

(** ** Sample data *)

Module Sample.

(** [initialLayers] of src/App.tsx. *)
Definition astronaut : Image.t :=
  Image.mk "initial-element-1" "Astronaut"
    "https://storage.googleapis.com/maker-media-posts/program-output/2024-07-25/119932170/0_1.png"
    100%float 150%float 350%float 350%float 0%float "image/png" true None.

Definition initialLayers : list Layer := [LImage astronaut].

(** The element [handleAddText] creates at [(x, y)]. *)
Definition newText (now : string) (x y : number) : Text.t :=
  Text.mk ("el-" ++ now) "New Text" "Your Text Here" x y 250%float 48%float
    0%float 40%float "#000000" WeightNormal StyleNormal DecorationNone None
    true None
    false "#000000" 5%float 5%float 5%float
    false "#ffffff" 2%float
    FillSolid ("#ff0000", "#0000ff") "to right".

Definition imageA : Image.t :=
  Image.mk "a" "ImageA" "data:a" 0%float 0%float 10%float 10%float 0%float
           "image/png" true None.
Definition imageB : Image.t :=
  Image.mk "b" "ImageB" "data:b" 5%float 5%float 20%float 20%float 0%float
           "image/png" true None.

Definition welcome : ChatMessage :=
  {| msg_id := "welcome-message"; role := system;
     msg_content :=
       "Welcome! Draw on the canvas and tell me what you'd like me to generate or edit.";
     images := None |}.

(** The state of [App] at its first render, over a given layer list. *)
Definition appWith (layers : list Layer) (selection : list string) : App :=
  {| layersHistory := useHistory layers;
     selectedIds := selection;
     activeTool := Select;
     isLoading := false;
     isProcessing := false;
     processingMessage := "";
     messages := [welcome];
     isShiftPressed := false |}.

End Sample.

(** ** Parent links without a cycle *)

(** [rank] decreases from a parent to its children: no layer of the list is
    its own ancestor. *)
Definition ranked (rank : string -> nat) (layers : list Layer) : Prop :=
forall l p, In l layers -> parentId l = Some p -> (rank (id l) < rank p)%nat.

Module Cyclic.

(** Two groups, each the parent of the other. *)
Definition g1 : Layer := LGroup (Group.mk "g1" "Group 1" true true (Some "g2")).
Definition g2 : Layer := LGroup (Group.mk "g2" "Group 2" true true (Some "g1")).
Definition layers : list Layer := [g1; g2].

End Cyclic.

Module Tree.

(** A group holding an image and a second group, which holds an image. *)
Definition layers : list Layer :=
[ LGroup (Group.mk "g1" "Group 1" true true None);
  LImage (Image.mk "a" "ImageA" "data:a" 0%float 0%float 10%float 10%float
                   0%float "image/png" true (Some "g1"));
  LGroup (Group.mk "g2" "Group 2" true true (Some "g1"));
  LImage (Image.mk "b" "ImageB" "data:b" 5%float 5%float 20%float 20%float
                   0%float "image/png" true (Some "g2")) ].

Definition rank (k : string) : nat :=
if String.eqb k "g1" then 2%nat else if String.eqb k "g2" then 1%nat else 0%nat.

End Tree.


Module Keys.

(** Ctrl+Z, Ctrl+Shift+Z as the handler tests them, and Delete. *)
Definition ctrlZ : KeyboardEvent := mkKey "z" false false true false.
Definition ctrlShiftZ : KeyboardEvent := mkKey "z" false false true true.
Definition delete : KeyboardEvent := mkKey "Delete" false false false false.

(** Focus in an [<input>], in a [<textarea>], in an editable [<div>]. *)
Definition input : option Element := Some (mkElement "INPUT" false).
Definition textarea : option Element := Some (mkElement "TEXTAREA" false).
Definition editable : option Element := Some (mkElement "DIV" true).

(** The layer store after one commit: a text layer added above the initial
    image, selected. *)
Definition edited : App :=
{| layersHistory :=
     mkHistory [Sample.initialLayers;
                LText (Sample.newText "1" 10%float 20%float) :: Sample.initialLayers]
               1;
   selectedIds := ["el-1"];
   activeTool := Select;
   isLoading := false;
   isProcessing := false;
   processingMessage := "";
   messages := [Sample.welcome];
   isShiftPressed := false |}.

End Keys.


Module Resize.

(** A text layer above the initial image, as [handleAddText] leaves them. *)
Definition label : Text.t := Sample.newText "1" 10%float 20%float.
Definition layers : list Layer := LText label :: Sample.initialLayers.

(** The final event of a resize that ends at 250 by 60 pixels. *)
Definition to60 : LastEvent := OnResize 250%float 60%float 10%float 20%float.

End Resize.

(** [newProps] of [onResizeEnd] for a text element. *)
Definition textResizeProps (width height drag_left drag_top : number) : Props :=
{| p_x := Some drag_left; p_y := Some drag_top;
   p_width := Some width; p_height := Some height;
   p_rotation := None;
   p_fontSize := Some (calculateFontSizeFromHeight height) |}.


(** Numbers in strictly descending order. *)
Definition Desc (l : list Z) : Prop := StronglySorted (fun a b => b < a) l.



Module Trio.

(** Three top-level images, the last and the first selected in that order. *)
Definition layers : list Layer :=
[LImage Sample.imageA; LImage Sample.astronaut; LImage Sample.imageB].

Definition app : App := Sample.appWith layers ["b"; "a"].

End Trio.


Module SelfParent.

(** An image whose [parentId] is its own id. *)
Definition layers : list Layer :=
[LImage (Image.mk "x" "Image" "data:x" 0%float 0%float 10%float 10%float
                  0%float "image/png" true (Some "x"))].

End SelfParent.


(** ** Histories reached without [redo] *)

Section Reach.
Context {T : Type}.
Variable stringify : T -> string.

(** Histories obtained from the initial one by [setState] and [undo]. *)
Inductive withoutRedo : History T -> Prop :=
| withoutRedo_init s : withoutRedo (useHistory s)
| withoutRedo_setState h a h' :
    withoutRedo h -> setState stringify h a = Ok h' -> withoutRedo h'
| withoutRedo_undo h : withoutRedo h -> withoutRedo (undo h).

End Reach.


(** ** Descendants as a relation *)

(** [Descendant layers k l]: the layer [l] hangs below the id [k], directly,
    or below a group that is a child of [k]. *)
Inductive Descendant (layers : list Layer) : string -> Layer -> Prop :=
| Descendant_child k l :
    In l layers -> parentId l = Some k -> Descendant layers k l
| Descendant_deeper k c l :
    In c layers -> parentId c = Some k -> isGroup c = true ->
    Descendant layers (id c) l -> Descendant layers k l.


(** ** Edits of single fields (src/App.tsx) *)


(** [{ ...l, name: newName }]. *)
Definition withName (l : Layer) (newName : string) : Layer :=
  match l with
  | LImage e =>
      LImage (Image.mk (Image.id e) newName (Image.src e) (Image.x e)
                (Image.y e) (Image.width e) (Image.height e) (Image.rotation e)
                (Image.mimeType e) (Image.visible e) (Image.parentId e))
  | LText e =>
      LText (Text.mk (Text.id e) newName (Text.content e) (Text.x e)
               (Text.y e) (Text.width e) (Text.height e) (Text.rotation e)
               (Text.fontSize e) (Text.color e) (Text.fontWeight e)
               (Text.fontStyle e) (Text.textDecoration e) (Text.align e)
               (Text.visible e) (Text.parentId e)
               (Text.shadowEnabled e) (Text.shadowColor e) (Text.shadowBlur e)
               (Text.shadowOffsetX e) (Text.shadowOffsetY e)
               (Text.outlineEnabled e) (Text.outlineColor e) (Text.outlineWidth e)
               (Text.fillType e) (Text.gradientColors e) (Text.gradientDirection e))
  | LGroup g =>
      LGroup (Group.mk (Group.id g) newName (Group.visible g) (Group.expanded g)
                (Group.parentId g))
  end.

(** [l.id === id && l.type === 'group' ? { ...l, expanded: !l.expanded } : l]. *)
Definition toggleExpanded (k : string) (l : Layer) : Layer :=
  match l with
  | LGroup g =>
      if String.eqb (Group.id g) k
      then LGroup (Group.mk (Group.id g) (Group.name g) (Group.visible g)
                     (negb (Group.expanded g)) (Group.parentId g))
      else l
  | _ => l
  end.

(** [Partial<CanvasTextElement>] as the text toolbar and the canvas build it. *)
Record TextPatch := mkTextPatch {
  t_content : option string;
  t_height : option number; t_fontSize : option number;
  t_color : option string;
  t_fontWeight : option FontWeight; t_fontStyle : option FontStyle;
  t_textDecoration : option TextDecoration;
  t_shadowEnabled : option bool; t_shadowColor : option string;
  t_shadowBlur : option number;
  t_shadowOffsetX : option number; t_shadowOffsetY : option number;
  t_outlineEnabled : option bool; t_outlineColor : option string;
  t_outlineWidth : option number;
  t_fillType : option FillType; t_gradientColors : option (string * string);
  t_gradientDirection : option string }.

(** The patch with no field. *)
Definition noPatch : TextPatch :=
  mkTextPatch None None None None None None None None None None None None None
              None None None None None.

(** [{ ...l, ...newProps }] for a text layer. *)
Definition spreadText (e : Text.t) (newProps : TextPatch) : Text.t :=
  Text.mk (Text.id e) (Text.name e)
    (orElse (t_content newProps) (Text.content e))
    (Text.x e) (Text.y e) (Text.width e)
    (orElse (t_height newProps) (Text.height e))
    (Text.rotation e)
    (orElse (t_fontSize newProps) (Text.fontSize e))
    (orElse (t_color newProps) (Text.color e))
    (orElse (t_fontWeight newProps) (Text.fontWeight e))
    (orElse (t_fontStyle newProps) (Text.fontStyle e))
    (orElse (t_textDecoration newProps) (Text.textDecoration e))
    (Text.align e) (Text.visible e) (Text.parentId e)
    (orElse (t_shadowEnabled newProps) (Text.shadowEnabled e))
    (orElse (t_shadowColor newProps) (Text.shadowColor e))
    (orElse (t_shadowBlur newProps) (Text.shadowBlur e))
    (orElse (t_shadowOffsetX newProps) (Text.shadowOffsetX e))
    (orElse (t_shadowOffsetY newProps) (Text.shadowOffsetY e))
    (orElse (t_outlineEnabled newProps) (Text.outlineEnabled e))
    (orElse (t_outlineColor newProps) (Text.outlineColor e))
    (orElse (t_outlineWidth newProps) (Text.outlineWidth e))
    (orElse (t_fillType newProps) (Text.fillType e))
    (orElse (t_gradientColors newProps) (Text.gradientColors e))
    (orElse (t_gradientDirection newProps) (Text.gradientDirection e)).

(** [l.id === id && l.type === 'text' ? { ...l, ...newProps } : l]. *)
Definition updateText (k : string) (newProps : TextPatch) (l : Layer) : Layer :=
  match l with
  | LText e => if String.eqb (Text.id e) k then LText (spreadText e newProps) else l
  | _ => l
  end.


(** Id, type and parent of every layer, in order. *)
Definition skeleton (layers : list Layer)
  : list (string * LayerType * option string) :=
  map (fun l => (id l, type l, parentId l)) layers.

Section FieldHandlers.
Variable stringify : list Layer -> string.


Definition handleRenameLayer (app : App) (k newName : string) : result App :=
  setLayers stringify app
    (Updater (fun prev =>
       prev <- defined prev ;;
       Ok (map (fun l => if idIs k l then withName l newName else l) prev))).

Definition handleToggleGroupExpanded (app : App) (k : string) : result App :=
  setLayers stringify app
    (Updater (fun prev => prev <- defined prev ;; Ok (map (toggleExpanded k) prev))).

Definition handleUpdateTextProps (app : App) (k : string) (newProps : TextPatch)
  : result App :=
  setLayers stringify app
    (Updater (fun prev => prev <- defined prev ;;
                          Ok (map (updateText k newProps) prev))).

End FieldHandlers.

(** [handleSelectLayer]. *)
Definition handleSelectLayer (app : App) (k : string) (isShift : bool) : App :=
  if isShift
  then setSelectedIds app
         (if JsArray.includes (selectedIds app) k
          then filter (fun pid => negb (String.eqb pid k)) (selectedIds app)
          else selectedIds app ++ [k])
  else setSelectedIds app [k].


(** ** Adding layers and talking to the image service *)

Definition setActiveTool (app : App) (tool : Tool) : App :=
  mkApp (layersHistory app) (selectedIds app) tool (isLoading app)
        (isProcessing app) (processingMessage app) (messages app)
        (isShiftPressed app).

Definition setIsLoading (app : App) (b : bool) : App :=
  mkApp (layersHistory app) (selectedIds app) (activeTool app) b
        (isProcessing app) (processingMessage app) (messages app)
        (isShiftPressed app).

(** The double quote of the template strings. *)
Definition quote : string := String (Ascii.ascii_of_nat 34) EmptyString.

(** One part of a response of the model: [part.inlineData], as
    [(data, mimeType)], when it is there. *)
Record Part := mkPart { inlineData : option (string * string) }.

(** What [ai.models.generateContent] does: it rejects, or it resolves to a
    response whose [candidates?.[0]?.content?.parts ?? []] is the given list. *)
Inductive ApiOutcome := ApiRejects | ApiResolves (parts : list Part).

(** The first part with [inlineData]: where the [for] loop returns. *)
Fixpoint firstInline (parts : list Part) : option (string * string) :=
  match parts with
  | [] => None
  | p :: r => match inlineData p with
              | Some d => Some d
              | None => firstInline r
              end
  end.

(** The image of the model's answer, when it has one. *)
Definition answered (api : ApiOutcome) : option (string * string) :=
  match api with
  | ApiResolves parts => firstInline parts
  | ApiRejects => None
  end.

(** [generateImage] of the service module. The request it sends is left out:
    the answer of the model is the parameter [api]. Whatever is thrown inside
    its [try], the error of the model or its own "No image was generated",
    is caught and replaced. *)
Definition generateImage (referenceElements : list Image.t) (api : ApiOutcome)
  : Settled :=
  if JsArray.len referenceElements =? 0
  then Rejected (ErrorObject
                   "Please select at least one reference image for generation.")
  else
    match api with
    | ApiResolves parts =>
        match firstInline parts with
        | Some (base64ImageBytes, mimeType) =>
            Fulfilled ("data:" ++ mimeType ++ ";base64," ++ base64ImageBytes)
        | None =>
            Rejected (ErrorObject
              "Failed to generate image. Please check the console for details.")
        end
    | ApiRejects =>
        Rejected (ErrorObject
          "Failed to generate image. Please check the console for details.")
    end.

(** [removeBackground] of the service module. *)
Definition removeBackground (api : ApiOutcome) : Settled :=
  match api with
  | ApiResolves parts =>
      match firstInline parts with
      | Some (base64ImageBytes, _) =>
          Fulfilled ("data:" ++ "image/png" ++ ";base64," ++ base64ImageBytes)
      | None =>
          Rejected (ErrorObject
            "Failed to remove background. Please check the console for details.")
      end
  | ApiRejects =>
      Rejected (ErrorObject
        "Failed to remove background. Please check the console for details.")
  end.

(** [l !== undefined && l.type === 'image' && l.visible], keeping the images. *)
Fixpoint visibleImages (found : list (option Layer)) : list Image.t :=
  match found with
  | [] => []
  | Some (LImage e) :: r =>
      if Image.visible e then e :: visibleImages r else visibleImages r
  | _ :: r => visibleImages r
  end.

(** [selectedElements] of [handleSendMessage]. *)
Definition selectedElements (selectedIds : list string) (layers : list Layer)
  : list Image.t :=
  visibleImages (map (fun k => find (idIs k) layers) selectedIds).

(** The high surrogate of the character that the four bytes encode, as the
    three bytes that stand for a lone surrogate. *)
Definition highSurrogate (c1 c2 c3 c4 : ascii) : string :=
  let cp := N.lor (N.shiftl (N.land (N_of_ascii c1) 7) 18)
            (N.lor (N.shiftl (N.land (N_of_ascii c2) 63) 12)
            (N.lor (N.shiftl (N.land (N_of_ascii c3) 63) 6)
                   (N.land (N_of_ascii c4) 63))) in
  let hi := (55296 + N.shiftr (cp - 65536) 10)%N in
  String (ascii_of_N 237)
    (String (ascii_of_N (N.lor 128 (N.land (N.shiftr hi 6) 63)))
       (String (ascii_of_N (N.lor 128 (N.land hi 63))) EmptyString)).

(** [s.substring(0, n)]. A string of the model holds the bytes of the UTF-8
    text of the JS string; [substring] counts UTF-16 units: one for a
    character of one, two or three bytes, two for a character of four. *)
Fixpoint substringUnits (n : nat) (s : string) {struct s} : string :=
  match n, s with
  | O, _ => EmptyString
  | _, EmptyString => EmptyString
  | S m, String c r =>
      let b := N_of_ascii c in
      if (b <? 192)%N then String c (substringUnits m r)
      else if (b <? 224)%N then
        match r with
        | String c2 r2 => String c (String c2 (substringUnits m r2))
        | _ => s
        end
      else if (b <? 240)%N then
        match r with
        | String c2 (String c3 r3) =>
            String c (String c2 (String c3 (substringUnits m r3)))
        | _ => s
        end
      else
        match r with
        | String c2 (String c3 (String c4 r4)) =>
            match m with
            | O => highSurrogate c c2 c3 c4
            | S m' =>
                String c (String c2 (String c3 (String c4
                  (substringUnits m' r4))))
            end
        | _ => s
        end
  end.

(** The element [handleSendMessage] creates for a generated image; its name
    is [prompt.substring(0, 20)]. *)
Definition generatedImage (now prompt generatedImageUrl : string) : Image.t :=
  Image.mk ("el-" ++ now) (substringUnits 20 prompt) generatedImageUrl
           100%float 100%float 350%float 350%float 0%float "image/png" true None.

Section Adding.
Variable stringify : list Layer -> string.
Variable engineMessage : Exn -> string.

Definition handleAddText (now : string) (app : App) (x y : number) : result App :=
  let newTextElement := Sample.newText now x y in
  app <- setLayers stringify app
           (Updater (fun prev => prev <- defined prev ;;
                                 Ok (LText newTextElement :: prev))) ;;
  Ok (setActiveTool (setSelectedIds app [Text.id newTextElement]) Select).

(** [undo] and [redo] as the toolbar and the keyboard call them. *)
Definition undoLayers (app : App) : App :=
  setLayersHistory app (undo (layersHistory app)).
Definition redoLayers (app : App) : App :=
  setLayersHistory app (redo (layersHistory app)).

(** [handleSendMessage] up to its [await]: [None] when it returns at once,
    otherwise the reference images and the state with the user's message. *)
Definition sendMessageBegin (now : string) (app : App) (prompt : string)
  : result (option (list Image.t * App)) :=
  found <- match selectedIds app with
           | [] => Ok []
           | _ => layers <- defined (layersOf app) ;;
                  Ok (selectedElements (selectedIds app) layers)
           end ;;
  if isLoading app || (JsArray.len found =? 0) then Ok None
  else
    let userMessage :=
      {| msg_id := "msg-" ++ now; role := user; msg_content := prompt;
         images := None |} in
    Ok (Some (found,
              setMessages (setIsLoading app true)
                          (fun prev => prev ++ [userMessage]))).

(** [handleSendMessage] from the moment the promise settles; [render] is the
    state of the render whose [setLayers] the handler holds. *)
Definition sendMessageSettle (nowElement nowMessage : string) (render : App)
  (prompt : string) (outcome : Settled) (app : App) : result App :=
  let failed (error : Thrown) (app : App) : App :=
    let errorMessage :=
      {| msg_id := "msg-" ++ nowMessage ++ "-err";
         role := system;
         msg_content := match error with
                        | ErrorObject message => message
                        | OtherValue => "An unknown error occurred."
                        end;
         images := None |} in
    setMessages app (fun prev => prev ++ [errorMessage]) in
  let afterTry :=
    match outcome with
    | Fulfilled generatedImageUrl =>
        let newElement := generatedImage nowElement prompt generatedImageUrl in
        match setStateCalls stringify (layersHistory render)
                (Updater (fun prev => prev <- defined prev ;;
                                      Ok (LImage newElement :: prev))) with
        | Throw e => failed (ErrorObject (engineMessage e)) app
        | Ok calls =>
            let app := match calls with
                       | Some h => setLayersHistory app h
                       | None => app
                       end in
            let app := setSelectedIds app [Image.id newElement] in
            let assistantMessage :=
              {| msg_id := "msg-" ++ nowMessage ++ "-ai";
                 role := assistant;
                 msg_content :=
                   "Generated an image for: " ++ quote ++ prompt ++ quote;
                 images := Some [generatedImageUrl] |} in
            setMessages app (fun prev => prev ++ [assistantMessage])
        end
    | Rejected error => failed error app
    end in
  Ok (setIsLoading afterTry false).

(** [handleSendMessage] with the service answering [api] and nothing else
    happening while it waits. *)
Definition handleSendMessage (now nowElement nowMessage : string) (app : App)
  (prompt : string) (api : ApiOutcome) : result App :=
  started <- sendMessageBegin now app prompt ;;
  match started with
  | None => Ok app
  | Some (references, app') =>
      sendMessageSettle nowElement nowMessage app prompt
                        (generateImage references api) app'
  end.


End Adding.


(** ** Rows of the layers panel (src/components/LayersPanel.tsx) *)

Module Hierarchical.
(** [Layer & { depth: number }]. *)
Record t := mk { layer : Layer; depth : Z }.
End Hierarchical.

(** [layer.expanded], a field of groups only. *)
Definition expanded (l : Layer) : bool :=
  match l with LGroup g => Group.expanded g | _ => false end.

(** [!layer.parentId]: the field is missing or the empty string. *)
Definition noParent (l : Layer) : bool :=
  match parentId l with None => true | Some p => String.eqb p "" end.

(** [s.add(k)] on a [Set], kept in insertion order. *)
Definition setAdd (s : list string) (k : string) : list string :=
  if JsArray.includes s k then s else JsArray.push s k.

(** [addLayerAndChildren] of [hierarchicalLayers]; the state is the array
    [hierarchical] with the set [processedIds], [stack] the number of nested
    calls still allowed. *)
Fixpoint addLayerAndChildren (stack : nat) (layers : list Layer)
  (st : list Hierarchical.t * list string) (layerId : string) (depth : Z)
  : result (list Hierarchical.t * list string) :=
  match stack with
  | O => Throw RangeError
  | S d =>
      if JsArray.includes (snd st) layerId then Ok st
      else
        match JsArray.mapGet id layers layerId with
        | None => Ok st
        | Some layer =>
            let st := (JsArray.push (fst st) (Hierarchical.mk layer depth),
                       setAdd (snd st) (id layer)) in
            if isGroup layer && expanded layer then
              forEachM (fun st child =>
                          if parentIs (id layer) child
                          then addLayerAndChildren d layers st (id child) (depth + 1)
                          else Ok st)
                       st layers
            else Ok st
        end
  end.

(** [hierarchicalLayers] of the panel. *)
Definition hierarchicalLayers (stack : nat) (layers : list Layer)
  : result (list Hierarchical.t) :=
  st <- forEachM (fun st layer =>
                    if noParent layer
                    then addLayerAndChildren stack layers st (id layer) 0
                    else Ok st)
                 ([], []) (rev layers) ;;
  Ok (rev (fst st)).

(** The rows in the order the panel renders them,
    [[...hierarchicalLayers].reverse()]. *)
Definition panelRows (stack : nat) (layers : list Layer)
  : result (list Hierarchical.t) :=
  rows <- hierarchicalLayers stack layers ;; Ok (rev rows).

(** A row is in place after the rows [above] it: it is a root at depth 0, or
    the row of its parent, an expanded group, is above it, one level up. *)
Definition inPlace (above : list Hierarchical.t) (r : Hierarchical.t) : Prop :=
  (noParent (Hierarchical.layer r) = true /\ Hierarchical.depth r = 0)
  \/ exists g, In g above
       /\ isGroup (Hierarchical.layer g) = true
       /\ expanded (Hierarchical.layer g) = true
       /\ parentId (Hierarchical.layer r) = Some (id (Hierarchical.layer g))
       /\ Hierarchical.depth r = Hierarchical.depth g + 1.


Definition rowId (r : Hierarchical.t) : string := id (Hierarchical.layer r).

(** What [addLayerAndChildren] maintains on [hierarchical] and
    [processedIds]: the set holds the ids of the rows, once each, the rows
    are layers of the list, and with distinct layer ids each row is in place
    after the rows pushed before it. *)
Definition listed (layers : list Layer)
  (st : list Hierarchical.t * list string) : Prop :=
  NoDup (snd st)
  /\ map rowId (fst st) = snd st
  /\ (forall r, In r (fst st) -> In (Hierarchical.layer r) layers)
  /\ (NoDup (map id layers) ->
      forall pre r post, fst st = pre ++ r :: post -> inPlace pre r).


Module Looped.

(** Two layers share the id [g]; the later one is a child of [c], which is
    a child of [g]. *)
Definition layers : list Layer :=
[ LGroup (Group.mk "g" "Group" true true None);
  LGroup (Group.mk "c" "Child" true true (Some "g"));
  LGroup (Group.mk "g" "Again" true true (Some "c")) ].

End Looped.

Module Collapsed.

(** The layers of [Tree] with the inner group collapsed. *)
Definition layers : list Layer :=
[ LGroup (Group.mk "g1" "Group 1" true true None);
  LImage (Image.mk "a" "ImageA" "data:a" 0%float 0%float 10%float 10%float
                   0%float "image/png" true (Some "g1"));
  LGroup (Group.mk "g2" "Group 2" true false (Some "g1"));
  LImage (Image.mk "b" "ImageB" "data:b" 5%float 5%float 20%float 20%float
                   0%float "image/png" true (Some "g2")) ].

End Collapsed.


(** [Shown layers l]: the layer [l] is reached from a layer without parent
    through expanded groups only. *)
Inductive Shown (layers : list Layer) : Layer -> Prop :=
| Shown_root l :
    In l layers -> noParent l = true -> Shown layers l
| Shown_child g c :
    Shown layers g -> isGroup g = true -> expanded g = true ->
    In c layers -> parentId c = Some (id g) -> Shown layers c.

(** The rows of expanded groups whose loop over the children is over (their
    id is not [pending]) have all their children among the processed ids. *)
Definition closed (layers : list Layer) (pending : list string)
  (st : list Hierarchical.t * list string) : Prop :=
  forall g, In g (fst st) ->
    isGroup (Hierarchical.layer g) = true ->
    expanded (Hierarchical.layer g) = true ->
    ~ In (rowId g) pending ->
    forall c, In c layers -> parentId c = Some (rowId g) -> In (id c) (snd st).


(** ** The elements Moveable controls (src/App.tsx) *)

(** [addElementsFrom] of [selectedElementIds]; [elementIds] is the [Set] it
    adds to, [stack] the number of nested calls still allowed. *)
Fixpoint addElementsFrom (stack : nat) (layers : list Layer)
  (elementIds : list string) (layerId : string) : result (list string) :=
  match stack with
  | O => Throw RangeError
  | S d =>
      match JsArray.mapGet id layers layerId with
      | None => Ok elementIds
      | Some layer =>
          if isElement layer then Ok (setAdd elementIds (id layer))
          else
            forEachM (fun elementIds l =>
                        if parentIs (id layer) l
                        then addElementsFrom d layers elementIds (id l)
                        else Ok elementIds)
                     elementIds layers
      end
  end.

(** [selectedElementIds], as [Array.from(elementIds)]. *)
Definition selectedElementIds (stack : nat) (layers : list Layer)
  (selectedIds : list string) : result (list string) :=
  forEachM (addElementsFrom stack layers) [] selectedIds.

(** The layer [l] is the layer with id [s], or hangs below the group with
    id [s]. *)
Definition selects (layers : list Layer) (s : string) (l : Layer) : Prop :=
  id l = s
  \/ exists g, In g layers /\ id g = s /\ isGroup g = true
               /\ Descendant layers s l.

(** ** Clicks on the canvas (CanvasArea) *)

(** What [handleCanvasMouseDown] reads of [e.target]: whether it is the
    canvas area or its background and, if not, the id of
    [target.closest('.canvas-element')], when there is such a node. *)
Inductive Target := CanvasBackground | Node (closest : option string).

Module Mouse.
Record t := mk {
  target : Target; shiftKey : bool; clientX : number; clientY : number }.
End Mouse.

Section Canvas.
Variable stringify : list Layer -> string.

(** [handleCanvasMouseDown] in the render of [app]. [selectedElementIds] is
    the value of App's memo in that render, [containerRect] the [left] and
    [top] of [canvasContainerRef.current], when it is set, and [now] the
    clock [handleAddText] reads. *)
Definition handleCanvasMouseDown (now : string) (app : App)
  (selectedElementIds : list string) (containerRect : option (number * number))
  (e : Mouse.t) : result App :=
  layers <- defined (layersOf app) ;;
  let elements := filter isElement layers in
  match activeTool app with
  | Select =>
      match Mouse.target e with
      | CanvasBackground => Ok (setSelectedIds app [])
      | Node None => Ok app
      | Node (Some elementId) =>
          if String.eqb elementId "" then Ok app
          else
            match find (idIs elementId) elements with
            | None => Ok app
            | Some element =>
                if visible element then
                  if Mouse.shiftKey e then
                    Ok (setSelectedIds app
                          (if JsArray.includes (selectedIds app) elementId
                           then filter (fun k => negb (String.eqb k elementId))
                                       (selectedIds app)
                           else selectedIds app ++ [elementId]))
                  else if JsArray.includes selectedElementIds elementId
                       then Ok app
                       else Ok (setSelectedIds app [elementId])
                else Ok app
            end
      end
  | TextTool =>
      match containerRect with
      | Some (rectLeft, rectTop) =>
          handleAddText stringify now app
            (Mouse.clientX e - rectLeft)%float (Mouse.clientY e - rectTop)%float
      | None => Ok app
      end
  | Draw => Ok app
  end.

End Canvas.


(** ** Gestures on several elements (src/App.tsx, CanvasArea) *)

(** [targets.forEach((t, i) => ...)] with a body that may throw. *)
Fixpoint forEachIndexedM {A B} (f : B -> A -> Z -> result B) (acc : B)
  (l : list A) (i : Z) : result B :=
  match l with
  | [] => Ok acc
  | x :: r => acc' <- f acc x i ;; forEachIndexedM f acc' r (i + 1)
  end.

(** [l[i] = v] for an index [i] that [findIndex] returned on [l]. *)
Definition assign {A} (l : list A) (i : Z) (v : A) : list A :=
  firstn (Z.to_nat i) l ++ v :: skipn (S (Z.to_nat i)) l.

(** The function [handleGroupUpdate] passes to [setLayers]. A target is the
    DOM node [getTarget] found by its id and is given by that id; [updateFn]
    reads the node and its position among the targets. *)
Definition groupUpdate (targets : list string)
  (updateFn : string -> Z -> Props) (prevLayers : list Layer)
  : result (list Layer) :=
  st <- forEachIndexedM
          (fun st t i =>
             let newLayers := fst st in
             let updatedIds := snd st in
             let index := JsArray.findIndex (idIs t) newLayers in
             if (-1 <? index) && negb (JsArray.includes updatedIds t) then
               layer <- defined (JsArray.get newLayers index) ;;
               Ok (if isElement layer
                   then assign newLayers index
                          (spreadProps layer (updateFn t i))
                   else newLayers,
                   setAdd updatedIds t)
             else Ok st)
          (prevLayers, []) targets 0 ;;
  Ok (fst st).

(** What [handleElementUpdate] does to one layer. *)
Definition updateElement (k : string) (newProps : Props) (l : Layer) : Layer :=
  if idIs k l && isElement l then spreadProps l newProps else l.

(** A layer after a gesture on [targets]: an element that is a target has
    the properties [updateFn] gives for its first position among the
    targets, every other layer is as before. *)
Definition updatedBy (targets : list string) (updateFn : string -> Z -> Props)
  (l : Layer) : Layer :=
  let i := JsArray.findIndex (String.eqb (id l)) targets in
  if i =? -1 then l
  else if isElement l then spreadProps l (updateFn (id l) i) else l.

(** [{}]. *)
Definition noProps : Props := mkProps None None None None None None.

(** The [updateFn] of [onResizeGroupEnd]; [events[i]] without [drag] is the
    start event. *)
Definition resizeGroupProps (elements : list Layer) (events : list LastEvent)
  (t : string) (i : Z) : Props :=
  let el := find (idIs t) elements in
  match JsArray.get events i with
  | Some (OnResize width height drag_left drag_top) =>
      {| p_x := Some drag_left; p_y := Some drag_top;
         p_width := Some width; p_height := Some height;
         p_rotation := None;
         p_fontSize :=
           match el with
           | Some (LText _) => Some (calculateFontSizeFromHeight height)
           | _ => None
           end |}
  | _ => noProps
  end.

Section Gestures.
Variable stringify : list Layer -> string.

Definition handleGroupUpdate (app : App) (targets : list string)
  (updateFn : string -> Z -> Props) : result App :=
  setLayers stringify app
    (Updater (fun prev =>
       prevLayers <- defined prev ;;
       groupUpdate targets updateFn prevLayers)).

(** [onResizeGroupEnd] of the canvas. *)
Definition onResizeGroupEnd (app : App) (targets : list string)
  (events : list LastEvent) : result App :=
  layers <- defined (layersOf app) ;;
  let elements := filter isElement layers in
  handleGroupUpdate app targets (resizeGroupProps elements events).

End Gestures.


(** ** Dragging rows of the layers panel (src/components/LayersPanel.tsx) *)

(** [dragId.current] and [dropIndicator]. *)
Record Panel := mkPanel {
  dragId : option string;
  dropIndicator : option (string * Position) }.

Definition setDropIndicator (p : Panel) (v : option (string * Position))
  : Panel :=
  mkPanel (dragId p) v.

Definition handleDragStart (p : Panel) (k : string) : Panel :=
  mkPanel (Some k) (dropIndicator p).

(** The position [handleDragOver] reads off the pointer: [dropY] is
    [e.clientY - rect.top], [height] is [rect.height]. *)
Definition dropPosition (dropTargetLayer : Layer) (dropY height : number)
  : Position :=
  if isGroup dropTargetLayer then
    let threshold := (height * 0.25)%float in
    if (dropY <? threshold)%float then before
    else if (height - threshold <? dropY)%float then after
    else inside
  else
    if (dropY <? height / 2)%float then before else after.

(** [handleDragOver] on the row of [dropTargetId]. *)
Definition handleDragOver (depth : nat) (layers : list Layer) (p : Panel)
  (dropTargetId : string) (dropY height : number) : result Panel :=
  match dragId p with
  | None => Ok (setDropIndicator p None)
  | Some draggedId =>
      if String.eqb draggedId "" || String.eqb draggedId dropTargetId
      then Ok (setDropIndicator p None)
      else
        match find (idIs dropTargetId) layers with
        | None => Ok p
        | Some dropTargetLayer =>
            let position := dropPosition dropTargetLayer dropY height in
            rejected <- match position with
                        | inside =>
                            ds <- panelGetDescendantIds depth layers draggedId ;;
                            Ok (JsArray.includes ds dropTargetId)
                        | _ => Ok false
                        end ;;
            if rejected then Ok (setDropIndicator p None)
            else Ok (setDropIndicator p (Some (dropTargetId, position)))
        end
  end.

(** [handleDrop]: the call of [onReorderAndReparentLayers] it makes, if any,
    and the panel state it leaves. *)
Definition handleDrop (p : Panel)
  : Panel * option (string * string * Position) :=
  (mkPanel None None,
   match dropIndicator p, dragId p with
   | Some (dropId, position), Some draggedId =>
       if String.eqb draggedId "" then None
       else Some (draggedId, dropId, position)
   | _, _ => None
   end).

Definition handleDragEnd (p : Panel) : Panel := mkPanel None None.

Section PanelDrop.
Variable stringify : list Layer -> string.

(** A drop on the panel rendered for [app]. *)
Definition dropOnPanel (depth : nat) (app : App) (p : Panel)
  : result (App * Panel) :=
  match handleDrop p with
  | (p', Some (draggedId, dropId, position)) =>
      app' <- handleReorderAndReparentLayers stringify depth app
                draggedId dropId position ;;
      Ok (app', p')
  | (p', None) => Ok (app, p')
  end.

End PanelDrop.


(** ** Freehand drawing (CanvasArea) *)

Definition Point : Type := number * number.

(** [isDrawingRef.current], [currentPathRef.current.points] and
    [drawingState.paths]. *)
Record Drawing := mkDrawing {
  isDrawing : bool;
  currentPath : list Point;
  paths : list (list Point) }.

Definition noDrawing : Drawing := mkDrawing false [] [].

(** [x] and [y] are [e.clientX - rect.left] and [e.clientY - rect.top]. *)
Definition handleDrawStart (s : Drawing) (x y : number) : Drawing :=
  mkDrawing true [(x, y)] (paths s).

(** [hasContext]: the drawing canvas is mounted and gives a 2d context. *)
Definition handleDrawMove (s : Drawing) (hasContext : bool) (x y : number)
  : Drawing :=
  if negb (isDrawing s) then s
  else if negb hasContext then s
  else if JsArray.len (currentPath s) =? 0 then s
  else mkDrawing (isDrawing s) (JsArray.push (currentPath s) (x, y)) (paths s).

Definition handleDrawEnd (s : Drawing) : Drawing :=
  if isDrawing s then
    mkDrawing false []
      (if 1 <? JsArray.len (currentPath s)
       then paths s ++ [currentPath s]
       else paths s)
  else s.

(** The listener of the [clearDrawing] event. *)
Definition handleClear (s : Drawing) : Drawing :=
  mkDrawing (isDrawing s) (currentPath s) [].

(** The events the drawing canvas listens to. *)
Inductive DrawEvent :=
| MouseDown (x y : number)
| MouseMove (hasContext : bool) (x y : number)
| MouseUp
| MouseLeave
| ClearDrawing.

Definition drawStep (s : Drawing) (e : DrawEvent) : Drawing :=
  match e with
  | MouseDown x y => handleDrawStart s x y
  | MouseMove c x y => handleDrawMove s c x y
  | MouseUp | MouseLeave => handleDrawEnd s
  | ClearDrawing => handleClear s
  end.

Definition draw (s : Drawing) (events : list DrawEvent) : Drawing :=
  fold_left drawStep events s.

(** ** Stacking of the elements (CanvasArea, [handleSaveImage]) *)

(** [l.map((x, index) => [x, index])] from index [i]. *)
Fixpoint indexed {A} (l : list A) (i : Z) : list (A * Z) :=
  match l with
  | [] => []
  | x :: r => (x, i) :: indexed r (i + 1)
  end.

(** The elements the canvas renders, each with the [zIndex] of its style. *)
Definition rendered (elements : list Layer) : list (Layer * Z) :=
  map (fun '(el, index) => (el, index + 1))
      (indexed (filter visible elements) 0).

(** [visibleElements] of [handleSaveImage], in the order it paints them on
    the export canvas. *)
Definition visibleElements (layers : list Layer) : list Layer :=
  rev (filter (fun l => isElement l && visible l) layers).


(** ** What the side panels show (src/App.tsx, AIAssistant) *)

(** [imageElements] of [App], passed to the assistant as [canvasElements]. *)
Definition imageElements (layers : list Layer) : list Layer :=
  filter isImage layers.

(** [referenceElements] of [AIAssistant]. *)
Definition referenceElements (canvasElements : list Layer)
  (selectedIds : list string) : list Image.t :=
  visibleImages (map (fun k => find (idIs k) canvasElements) selectedIds).

(** The [isSingleImageSelected] prop of the toolbar, which enables the
    background button. *)
Definition isSingleImageSelected (layers : list Layer)
  (selectedIds : list string) : bool :=
  (JsArray.len selectedIds =? 1)
  && match JsArray.get selectedIds 0 with
     | Some k => match find (idIs k) layers with
                 | Some l => isImage l
                 | None => false
                 end
     | None => false
     end.


(** ** Data URLs on their way back to the service (geminiService) *)

(** [s.split(sep)] for a separator of one character. *)
Fixpoint split (sep : ascii) (s : string) : list string :=
  match s with
  | EmptyString => [EmptyString]
  | String c r =>
      if Ascii.eqb c sep then EmptyString :: split sep r
      else match split sep r with
           | h :: t => String c h :: t
           | [] => [String c EmptyString]
           end
  end.

(** [s.includes(c)] for one character. *)
Fixpoint contains (c : ascii) (s : string) : bool :=
  match s with
  | EmptyString => false
  | String d r => Ascii.eqb d c || contains c r
  end.

Definition comma : ascii := Ascii.ascii_of_nat 44.

(** [fileToGenerativePart]: the [inlineData] it builds, [data] being
    [undefined] when the string holds no comma. *)
Module InlineData.
Record t := mk { data : option string; mimeType : string }.
End InlineData.

Definition fileToGenerativePart (base64 mimeType : string) : InlineData.t :=
  InlineData.mk (JsArray.get (split comma base64) 1) mimeType.


(** ** What a JSON text tells apart *)

(** [JSON.stringify] prints [NaN], [Infinity] and [-Infinity] as [null]. *)
Definition printsNull (x : number) : bool :=
  PrimFloat.is_nan x || PrimFloat.is_infinity x.

(** Two numbers whose JSON texts can be equal: the same number, two numbers
    printed as [null], or the two zeros, both printed as [0]. *)
Definition numberAlike (x y : number) : Prop :=
  x = y
  \/ (printsNull x = true /\ printsNull y = true)
  \/ (PrimFloat.is_zero x = true /\ PrimFloat.is_zero y = true).

(** Two layers whose JSON texts can be equal: the same kind of layer, with
    the same strings and flags and with numbers alike. *)
Definition jsonAlike (a b : Layer) : Prop :=
  match a, b with
  | LImage e, LImage e' =>
      Image.id e = Image.id e' /\ Image.name e = Image.name e'
      /\ Image.src e = Image.src e'
      /\ numberAlike (Image.x e) (Image.x e')
      /\ numberAlike (Image.y e) (Image.y e')
      /\ numberAlike (Image.width e) (Image.width e')
      /\ numberAlike (Image.height e) (Image.height e')
      /\ numberAlike (Image.rotation e) (Image.rotation e')
      /\ Image.mimeType e = Image.mimeType e'
      /\ Image.visible e = Image.visible e'
      /\ Image.parentId e = Image.parentId e'
  | LText e, LText e' =>
      Text.id e = Text.id e' /\ Text.name e = Text.name e'
      /\ Text.content e = Text.content e'
      /\ numberAlike (Text.x e) (Text.x e')
      /\ numberAlike (Text.y e) (Text.y e')
      /\ numberAlike (Text.width e) (Text.width e')
      /\ numberAlike (Text.height e) (Text.height e')
      /\ numberAlike (Text.rotation e) (Text.rotation e')
      /\ numberAlike (Text.fontSize e) (Text.fontSize e')
      /\ Text.color e = Text.color e'
      /\ Text.fontWeight e = Text.fontWeight e'
      /\ Text.fontStyle e = Text.fontStyle e'
      /\ Text.textDecoration e = Text.textDecoration e'
      /\ Text.align e = Text.align e'
      /\ Text.visible e = Text.visible e'
      /\ Text.parentId e = Text.parentId e'
      /\ Text.shadowEnabled e = Text.shadowEnabled e'
      /\ Text.shadowColor e = Text.shadowColor e'
      /\ numberAlike (Text.shadowBlur e) (Text.shadowBlur e')
      /\ numberAlike (Text.shadowOffsetX e) (Text.shadowOffsetX e')
      /\ numberAlike (Text.shadowOffsetY e) (Text.shadowOffsetY e')
      /\ Text.outlineEnabled e = Text.outlineEnabled e'
      /\ Text.outlineColor e = Text.outlineColor e'
      /\ numberAlike (Text.outlineWidth e) (Text.outlineWidth e')
      /\ Text.fillType e = Text.fillType e'
      /\ Text.gradientColors e = Text.gradientColors e'
      /\ Text.gradientDirection e = Text.gradientDirection e'
  | LGroup g, LGroup g' => g = g'
  | _, _ => False
  end.

(** A stand-in for [JSON.stringify] on layer lists that gives two lists the
    same text exactly when [JSON.stringify] can: [setState] only compares two
    texts. It writes [NaN] and the infinities as one mark, the two zeros as
    another, and every other number, string and flag so that it can be read
    back; the digits and the punctuation of JSON are not modelled. *)
Module Json.

Definition encNumber (f : number) (k : string) : string :=
  if printsNull f then String "n"%char k
  else if PrimFloat.is_zero f then String "0"%char k
  else String "d"%char (Wire.encNumber f k).

Definition encImage (e : Image.t) (k : string) : string :=
  Wire.encString (Image.id e) (Wire.encString (Image.name e)
  (Wire.encString (Image.src e)
  (encNumber (Image.x e) (encNumber (Image.y e) (encNumber (Image.width e)
  (encNumber (Image.height e) (encNumber (Image.rotation e)
  (Wire.encString (Image.mimeType e) (Wire.encBool (Image.visible e)
  (Wire.encOption Wire.encString (Image.parentId e) k)))))))))).

Definition encText (e : Text.t) (k : string) : string :=
  Wire.encString (Text.id e) (Wire.encString (Text.name e)
  (Wire.encString (Text.content e)
  (encNumber (Text.x e) (encNumber (Text.y e) (encNumber (Text.width e)
  (encNumber (Text.height e) (encNumber (Text.rotation e)
  (encNumber (Text.fontSize e) (Wire.encString (Text.color e)
  (Wire.encFontWeight (Text.fontWeight e) (Wire.encFontStyle (Text.fontStyle e)
  (Wire.encTextDecoration (Text.textDecoration e)
  (Wire.encOption Wire.encAlign (Text.align e)
  (Wire.encBool (Text.visible e)
  (Wire.encOption Wire.encString (Text.parentId e)
  (Wire.encBool (Text.shadowEnabled e) (Wire.encString (Text.shadowColor e)
  (encNumber (Text.shadowBlur e) (encNumber (Text.shadowOffsetX e)
  (encNumber (Text.shadowOffsetY e)
  (Wire.encBool (Text.outlineEnabled e) (Wire.encString (Text.outlineColor e)
  (encNumber (Text.outlineWidth e)
  (Wire.encFillType (Text.fillType e)
  (Wire.encString (fst (Text.gradientColors e))
  (Wire.encString (snd (Text.gradientColors e))
  (Wire.encString (Text.gradientDirection e) k))))))))))))))))))))))))))).

Definition encLayer (l : Layer) (k : string) : string :=
  match l with
  | LImage e => String "I"%char (encImage e k)
  | LText e => String "T"%char (encText e k)
  | LGroup g => String "G"%char (Wire.encGroup g k)
  end.

Definition stringify (layers : list Layer) : string :=
  Wire.encList encLayer layers "".

(** An encoder whose text determines the value up to [R]. *)
Definition Readable {A} (R : A -> A -> Prop) (enc : A -> string -> string)
  : Prop :=
  forall a b k1 k2, enc a k1 = enc b k2 -> R a b /\ k1 = k2.

End Json.

Module Unprintable.

(** The astronaut placed at [x = Infinity], and at [x = NaN]. *)
Definition atInfinity : list Layer :=
[ LImage (Image.mk "initial-element-1" "Astronaut" "data:" PrimFloat.infinity
            150%float 350%float 350%float 0%float "image/png" true None) ].
Definition atNaN : list Layer :=
[ LImage (Image.mk "initial-element-1" "Astronaut" "data:" PrimFloat.nan
            150%float 350%float 350%float 0%float "image/png" true None) ].

End Unprintable.

(** ** Layers and fields, for the statements *)

(** The same layer but for [parentId]. *)
Definition sameButParent (a b : Layer) : Prop :=
  match a, b with
  | LImage e, LImage e' =>
      Image.id e = Image.id e' /\ Image.name e = Image.name e'
      /\ Image.src e = Image.src e'
      /\ Image.x e = Image.x e' /\ Image.y e = Image.y e'
      /\ Image.width e = Image.width e' /\ Image.height e = Image.height e'
      /\ Image.rotation e = Image.rotation e'
      /\ Image.mimeType e = Image.mimeType e'
      /\ Image.visible e = Image.visible e'
  | LText e, LText e' =>
      Text.id e = Text.id e' /\ Text.name e = Text.name e'
      /\ Text.content e = Text.content e'
      /\ Text.x e = Text.x e' /\ Text.y e = Text.y e'
      /\ Text.width e = Text.width e' /\ Text.height e = Text.height e'
      /\ Text.rotation e = Text.rotation e'
      /\ Text.fontSize e = Text.fontSize e' /\ Text.color e = Text.color e'
      /\ Text.fontWeight e = Text.fontWeight e'
      /\ Text.fontStyle e = Text.fontStyle e'
      /\ Text.textDecoration e = Text.textDecoration e'
      /\ Text.align e = Text.align e' /\ Text.visible e = Text.visible e'
      /\ Text.shadowEnabled e = Text.shadowEnabled e'
      /\ Text.shadowColor e = Text.shadowColor e'
      /\ Text.shadowBlur e = Text.shadowBlur e'
      /\ Text.shadowOffsetX e = Text.shadowOffsetX e'
      /\ Text.shadowOffsetY e = Text.shadowOffsetY e'
      /\ Text.outlineEnabled e = Text.outlineEnabled e'
      /\ Text.outlineColor e = Text.outlineColor e'
      /\ Text.outlineWidth e = Text.outlineWidth e'
      /\ Text.fillType e = Text.fillType e'
      /\ Text.gradientColors e = Text.gradientColors e'
      /\ Text.gradientDirection e = Text.gradientDirection e'
  | LGroup g, LGroup g' =>
      Group.id g = Group.id g' /\ Group.name g = Group.name g'
      /\ Group.visible g = Group.visible g'
      /\ Group.expanded g = Group.expanded g'
  | _, _ => False
  end.

(** A field after [{ ...l, ...newProps }]: the property given, or else the
    field as it was. *)
Definition fieldOf (given : option number) (was now : number) : Prop :=
  match given with Some v => now = v | None => now = was end.

(** [l'] is the layer [l] with the properties [newProps] written over its
    fields: an image or a text with the geometry (and, for a text, the font
    size) that [newProps] gives and every other field as in [l]; a group is
    left as it is. *)
Definition propsApplied (newProps : Props) (l l' : Layer) : Prop :=
  match l, l' with
  | LImage e, LImage e' =>
      Image.id e' = Image.id e /\ Image.name e' = Image.name e
      /\ Image.src e' = Image.src e
      /\ fieldOf (p_x newProps) (Image.x e) (Image.x e')
      /\ fieldOf (p_y newProps) (Image.y e) (Image.y e')
      /\ fieldOf (p_width newProps) (Image.width e) (Image.width e')
      /\ fieldOf (p_height newProps) (Image.height e) (Image.height e')
      /\ fieldOf (p_rotation newProps) (Image.rotation e) (Image.rotation e')
      /\ Image.mimeType e' = Image.mimeType e
      /\ Image.visible e' = Image.visible e
      /\ Image.parentId e' = Image.parentId e
  | LText e, LText e' =>
      Text.id e' = Text.id e /\ Text.name e' = Text.name e
      /\ Text.content e' = Text.content e
      /\ fieldOf (p_x newProps) (Text.x e) (Text.x e')
      /\ fieldOf (p_y newProps) (Text.y e) (Text.y e')
      /\ fieldOf (p_width newProps) (Text.width e) (Text.width e')
      /\ fieldOf (p_height newProps) (Text.height e) (Text.height e')
      /\ fieldOf (p_rotation newProps) (Text.rotation e) (Text.rotation e')
      /\ fieldOf (p_fontSize newProps) (Text.fontSize e) (Text.fontSize e')
      /\ Text.color e' = Text.color e
      /\ Text.fontWeight e' = Text.fontWeight e
      /\ Text.fontStyle e' = Text.fontStyle e
      /\ Text.textDecoration e' = Text.textDecoration e
      /\ Text.align e' = Text.align e /\ Text.visible e' = Text.visible e
      /\ Text.parentId e' = Text.parentId e
      /\ Text.shadowEnabled e' = Text.shadowEnabled e
      /\ Text.shadowColor e' = Text.shadowColor e
      /\ Text.shadowBlur e' = Text.shadowBlur e
      /\ Text.shadowOffsetX e' = Text.shadowOffsetX e
      /\ Text.shadowOffsetY e' = Text.shadowOffsetY e
      /\ Text.outlineEnabled e' = Text.outlineEnabled e
      /\ Text.outlineColor e' = Text.outlineColor e
      /\ Text.outlineWidth e' = Text.outlineWidth e
      /\ Text.fillType e' = Text.fillType e
      /\ Text.gradientColors e' = Text.gradientColors e
      /\ Text.gradientDirection e' = Text.gradientDirection e
  | LGroup g, LGroup g' => g' = g
  | _, _ => False
  end.

(** The font size of a text of height [height]: [height / 1.2], and 1 when
    that is below 1; not a number when the height is not one. *)
Definition fontSizeAt (height : number) : number :=
  let q := (height / 0x1.3333333333333p+0)%float in
  if PrimFloat.is_nan q then PrimFloat.nan
  else if (1 <? q)%float then q else 1%float.

(** The focus is in a text-editing field: an [INPUT], a [TEXTAREA] or an
    element with [isContentEditable]. *)
Definition textField (activeElement : option Element) : Prop :=
  exists a, activeElement = Some a
            /\ (tagName a = "INPUT" \/ tagName a = "TEXTAREA"
                \/ isContentEditable a = true).

(** Every character of the string is below 128: there a byte of the model
    is a UTF-16 unit of the code. *)
Fixpoint isAscii (s : string) : bool :=
  match s with
  | EmptyString => true
  | String c r => (N_of_ascii c <? 128)%N && isAscii r
  end.

(** * Properties *)

(** ** The serialisation [Wire.stringify] is injective *)

Module WireFacts.
Import Wire.

Lemma String_tail c a b : String c a = String c b -> a = b.
Proof. intros H; injection H; auto. Qed.

Lemma encBool_inj : Decodable encBool.
Proof.
  intros [] [] k1 k2 H; simpl in H; try discriminate;
    injection H as ->; auto.
Qed.

Lemma encString_inj : Decodable encString.
Proof.
  intros a; induction a as [|c a IH]; intros [|d b] k1 k2 H;
    simpl in H; try discriminate.
  - injection H as ->; auto.
  - injection H as -> H. destruct (IH _ _ _ H) as [-> ->]; auto.
Qed.

Lemma encPositive_inj : Decodable encPositive.
Proof.
  intros a; induction a as [a IH|a IH|]; intros [b|b|] k1 k2 H;
    simpl in H; try discriminate; injection H as H;
    try (destruct (IH _ _ _ H) as [-> ->]); subst; auto.
Qed.

Lemma encZ_inj : Decodable encZ.
Proof.
  intros [|a|a] [|b|b] k1 k2 H; simpl in H; try discriminate;
    apply String_tail in H;
    try (destruct (encPositive_inj _ _ _ _ H) as [-> ->]); subst; auto.
Qed.

Lemma encSpecFloat_inj : Decodable encSpecFloat.
Proof.
  intros [s|s| |s m e] [s'|s'| |s' m' e'] k1 k2 H;
    unfold encSpecFloat in H; try discriminate;
    apply String_tail in H; rename H into H1; subst; auto.
  - destruct (encBool_inj _ _ _ _ H1) as [-> ->]; auto.
  - destruct (encBool_inj _ _ _ _ H1) as [-> ->]; auto.
  - destruct (encBool_inj _ _ _ _ H1) as [-> H2].
    destruct (encPositive_inj _ _ _ _ H2) as [-> H3].
    destruct (encZ_inj _ _ _ _ H3) as [-> ->]; auto.
Qed.

Lemma encNumber_inj : Decodable encNumber.
Proof.
  intros a b k1 k2 H.
  destruct (encSpecFloat_inj _ _ _ _ H) as [E ->].
  split; [apply Prim2SF_inj, E | reflexivity].
Qed.

Lemma encOption_inj {A} (enc : A -> string -> string) :
  Decodable enc -> Decodable (encOption enc).
Proof.
  intros D [a|] [b|] k1 k2 H; simpl in H; try discriminate;
    apply String_tail in H; rename H into H1; subst; auto.
  destruct (D _ _ _ _ H1) as [-> ->]; auto.
Qed.

Lemma encList_inj {A} (enc : A -> string -> string) :
  Decodable enc -> Decodable (encList enc).
Proof.
  intros D a; induction a as [|x a IH]; intros [|y b] k1 k2 H;
    simpl in H; try discriminate; apply String_tail in H; rename H into H1;
    subst; auto.
  destruct (D _ _ _ _ H1) as [-> H2].
  destruct (IH _ _ _ H2) as [-> ->]; auto.
Qed.

Lemma encFontWeight_inj : Decodable encFontWeight.
Proof.
  intros [] [] k1 k2 H; unfold encFontWeight in H;
    destruct (encBool_inj _ _ _ _ H); auto; discriminate.
Qed.

Lemma encFontStyle_inj : Decodable encFontStyle.
Proof.
  intros [] [] k1 k2 H; unfold encFontStyle in H;
    destruct (encBool_inj _ _ _ _ H); auto; discriminate.
Qed.

Lemma encTextDecoration_inj : Decodable encTextDecoration.
Proof.
  intros [] [] k1 k2 H; unfold encTextDecoration in H;
    destruct (encBool_inj _ _ _ _ H); auto; discriminate.
Qed.

Lemma encFillType_inj : Decodable encFillType.
Proof.
  intros [] [] k1 k2 H; unfold encFillType in H;
    destruct (encBool_inj _ _ _ _ H); auto; discriminate.
Qed.

Lemma encAlign_inj : Decodable encAlign.
Proof.
  intros [] [] k1 k2 H; simpl in H; try discriminate;
    injection H as ->; auto.
Qed.

#[local] Arguments encBool : simpl never.
#[local] Arguments encNumber : simpl never.
#[local] Arguments encOption : simpl never.
#[local] Arguments encFontWeight : simpl never.
#[local] Arguments encFontStyle : simpl never.
#[local] Arguments encTextDecoration : simpl never.
#[local] Arguments encFillType : simpl never.

(** Reads one field off an equation between two encodings. *)
Ltac field H :=
  let E := fresh "E" in
  first
    [ apply encString_inj in H
    | apply encNumber_inj in H
    | apply encFontWeight_inj in H
    | apply encFontStyle_inj in H
    | apply encTextDecoration_inj in H
    | apply encFillType_inj in H
    | apply encBool_inj in H
    | apply (encOption_inj _ encString_inj) in H
    | apply (encOption_inj _ encAlign_inj) in H ];
  destruct H as [E H]; simpl in E; subst.

Lemma encImage_inj : Decodable encImage.
Proof.
  intros [] [] k1 k2 H. unfold encImage in H; simpl in H.
  do 11 field H. auto.
Qed.

Lemma encGroup_inj : Decodable encGroup.
Proof.
  intros [] [] k1 k2 H. unfold encGroup in H; simpl in H.
  do 5 field H. auto.
Qed.

Lemma encText_inj : Decodable encText.
Proof.
  intros [? ? ? ? ? ? ? ? ? ? ? ? ? ? ? ? ? ? ? ? ? ? ? ? ? [g1 g2] ?]
         [? ? ? ? ? ? ? ? ? ? ? ? ? ? ? ? ? ? ? ? ? ? ? ? ? [h1 h2] ?] k1 k2 H.
  unfold encText in H; simpl in H.
  do 28 field H. auto.
Qed.

Lemma encLayer_inj : Decodable encLayer.
Proof.
  intros [a|a|a] [b|b|b] k1 k2 H; unfold encLayer in H; try discriminate;
    apply String_tail in H; rename H into H1.
  - destruct (encImage_inj _ _ _ _ H1) as [-> ->]; auto.
  - destruct (encText_inj _ _ _ _ H1) as [-> ->]; auto.
  - destruct (encGroup_inj _ _ _ _ H1) as [-> ->]; auto.
Qed.

Lemma stringify_injective : forall a b, stringify a = stringify b -> a = b.
Proof.
  intros a b H. apply (encList_inj _ encLayer_inj) in H. tauto.
Qed.

End WireFacts.

(** ** Texts that are equal come from lists that are alike *)

Module JsonFacts.
Import Wire WireFacts Json.

Lemma encNumber_reads : Readable numberAlike Json.encNumber.
Proof.
  intros a b k1 k2 H. unfold Json.encNumber in H.
  destruct (printsNull a) eqn:Pa; destruct (printsNull b) eqn:Pb.
  - apply String_tail in H. split; [right; left; auto | exact H].
  - destruct (PrimFloat.is_zero b); discriminate.
  - destruct (PrimFloat.is_zero a); discriminate.
  - destruct (PrimFloat.is_zero a) eqn:Za; destruct (PrimFloat.is_zero b) eqn:Zb;
      try discriminate.
    + apply String_tail in H. split; [right; right; auto | exact H].
    + apply String_tail in H. destruct (encNumber_inj _ _ _ _ H) as [-> ->].
      split; [now left | reflexivity].
Qed.

#[local] Arguments Wire.encBool : simpl never.
#[local] Arguments Wire.encNumber : simpl never.
#[local] Arguments Json.encNumber : simpl never.
#[local] Arguments Wire.encOption : simpl never.
#[local] Arguments Wire.encFontWeight : simpl never.
#[local] Arguments Wire.encFontStyle : simpl never.
#[local] Arguments Wire.encTextDecoration : simpl never.
#[local] Arguments Wire.encFillType : simpl never.

(** Reads one field off an equation between two texts. *)
Ltac read H :=
  let E := fresh "E" in
  first
    [ apply encNumber_reads in H
    | apply encString_inj in H
    | apply encFontWeight_inj in H
    | apply encFontStyle_inj in H
    | apply encTextDecoration_inj in H
    | apply encFillType_inj in H
    | apply encBool_inj in H
    | apply (encOption_inj _ encString_inj) in H
    | apply (encOption_inj _ encAlign_inj) in H ];
  destruct H as [E H]; simpl in E.

Lemma encImage_reads :
  Readable (fun e e' => jsonAlike (LImage e) (LImage e')) Json.encImage.
Proof.
  intros [] [] k1 k2 H. unfold Json.encImage in H; simpl in H.
  do 11 read H. simpl. repeat split; auto.
Qed.

Lemma encText_reads :
  Readable (fun e e' => jsonAlike (LText e) (LText e')) Json.encText.
Proof.
  intros [? ? ? ? ? ? ? ? ? ? ? ? ? ? ? ? ? ? ? ? ? ? ? ? ? [g1 g2] ?]
         [? ? ? ? ? ? ? ? ? ? ? ? ? ? ? ? ? ? ? ? ? ? ? ? ? [h1 h2] ?] k1 k2 H.
  unfold Json.encText in H; simpl in H.
  do 28 read H. simpl. repeat split; auto. congruence.
Qed.

Lemma encLayer_reads : Readable jsonAlike Json.encLayer.
Proof.
  intros [a|a|a] [b|b|b] k1 k2 H; unfold Json.encLayer in H;
    try discriminate; apply String_tail in H.
  - now apply encImage_reads.
  - now apply encText_reads.
  - destruct (encGroup_inj _ _ _ _ H) as [-> ->]. simpl. auto.
Qed.

Lemma encList_reads {A} (R : A -> A -> Prop) (enc : A -> string -> string) :
  Readable R enc -> Readable (Forall2 R) (encList enc).
Proof.
  intros D a; induction a as [|x a IH]; intros [|y b] k1 k2 H;
    simpl in H; try discriminate; apply String_tail in H.
  - split; [constructor | exact H].
  - destruct (D _ _ _ _ H) as [Rxy H2].
    destruct (IH _ _ _ H2) as [Rab ->]. split; [now constructor | reflexivity].
Qed.

(** The stand-in gives equal texts only to lists that are alike, as
    [JSON.stringify] does. *)
Lemma stringify_reads :
  forall a b, Json.stringify a = Json.stringify b -> Forall2 jsonAlike a b.
Proof.
  intros a b H. apply (encList_reads _ _ encLayer_reads) in H. tauto.
Qed.

End JsonFacts.

(** ** Arrays *)

Module JsArrayFacts.
Import JsArray.

Section Lists.
Context {A : Type}.
Implicit Types (l : list A) (i : Z).

Lemma len_nonneg l : 0 <= len l.
Proof. unfold len; lia. Qed.

Lemma len_app l l' : len (l ++ l') = len l + len l'.
Proof. unfold len; rewrite length_app; lia. Qed.

Lemma len_cons (x : A) l : len (x :: l) = len l + 1.
Proof. unfold len; simpl; lia. Qed.

Lemma get_Some_range l i x : get l i = Some x -> 0 <= i < len l.
Proof.
  unfold get, len. destruct (Z.ltb_spec i 0) as [L|L]; [discriminate|].
  intros H. assert (Hn : nth_error l (Z.to_nat i) <> None) by congruence.
  apply nth_error_Some in Hn. lia.
Qed.

Lemma get_of_nat l (n : nat) : get l (Z.of_nat n) = nth_error l n.
Proof.
  unfold get. destruct (Z.ltb_spec (Z.of_nat n) 0); [lia|].
  now rewrite Nat2Z.id.
Qed.

Lemma rel_in_range l i : 0 <= i <= len l -> rel l i = i.
Proof. unfold rel. intros H. destruct (Z.ltb_spec i 0); lia. Qed.

(** [l.slice(0, i)] keeps the first [i] elements. *)
Lemma slice_prefix l i :
  0 <= i <= len l -> slice l 0 i = firstn (Z.to_nat i) l.
Proof.
  intros H. unfold slice.
  rewrite (rel_in_range l 0) by (pose proof (len_nonneg l); lia).
  rewrite (rel_in_range l i) by lia.
  simpl. now rewrite Z.sub_0_r.
Qed.

(** [l.splice(i, 0, x)] inside the array inserts [x] at position [i]. *)
Lemma splice_insert l i (x : A) :
  0 <= i <= len l ->
  splice l i 0 [x] = firstn (Z.to_nat i) l ++ x :: skipn (Z.to_nat i) l.
Proof.
  intros H. unfold splice. rewrite rel_in_range by lia.
  replace (i + Z.min (Z.max 0 0) (len l - i)) with i by lia.
  reflexivity.
Qed.

(** [l.splice(i, 1)] inside the array removes the element at [i]. *)
Lemma splice_remove l i :
  0 <= i < len l ->
  splice l i 1 [] = firstn (Z.to_nat i) l ++ skipn (S (Z.to_nat i)) l.
Proof.
  intros H. unfold splice. rewrite rel_in_range by lia.
  replace (i + Z.min (Z.max 1 0) (len l - i)) with (i + 1) by lia.
  simpl. now replace (Z.to_nat (i + 1)) with (S (Z.to_nat i)) by lia.
Qed.

Lemma findIndex_range (p : A -> bool) l :
  findIndex p l = -1 \/ 0 <= findIndex p l < len l.
Proof.
  induction l as [|x l IH]; simpl; [now left|].
  rewrite len_cons. destruct (p x); [right; pose proof (len_nonneg l); lia|].
  destruct (Z.ltb_spec (findIndex p l) 0); [now left | right; lia].
Qed.

Lemma findIndex_none (p : A -> bool) l :
  findIndex p l = -1 <-> forallb (fun x => negb (p x)) l = true.
Proof.
  induction l as [|x l IH]; simpl; [tauto|].
  destruct (p x); simpl; [split; [lia | discriminate]|].
  destruct (findIndex_range p l) as [E|R].
  - rewrite E; simpl. tauto.
  - destruct (Z.ltb_spec (findIndex p l) 0); [lia|].
    split; [lia|]. intros F. apply IH in F. lia.
Qed.

End Lists.
End JsArrayFacts.

(** ** The history hook *)

Section HistoryFacts.
Context {T : Type}.
Variable stringify : T -> string.
Implicit Types (h : History T) (s : T).

Lemma state_wf h s : state h = Some s -> wf h.
Proof. apply JsArrayFacts.get_Some_range. Qed.

Lemma wf_state h : wf h -> exists s, state h = Some s.
Proof.
  unfold wf, state, JsArray.get, JsArray.len. intros H.
  destruct (Z.ltb_spec (currentIndex h) 0); [lia|].
  destruct (nth_error (history h) (Z.to_nat (currentIndex h))) eqn:E; eauto.
  apply nth_error_None in E. lia.
Qed.

Lemma setState_value h s cur :
  state h = Some cur ->
  setState stringify h (Value s)
  = Ok (if String.eqb (stringify s) (stringify cur) then h else pushed h s).
Proof.
  intros Hs. pose proof (state_wf _ _ Hs) as W. unfold wf in W.
  unfold setState, setStateCalls, bind. rewrite Hs. simpl.
  destruct (String.eqb (stringify s) (stringify cur)); [reflexivity|].
  unfold pushed, JsArray.push. f_equal.
  rewrite JsArrayFacts.slice_prefix by lia.
  replace (Z.to_nat (currentIndex h + 1)) with (Z.to_nat (currentIndex h) + 1)%nat by lia.
  f_equal. rewrite JsArrayFacts.len_app. unfold JsArray.len at 1.
  rewrite length_firstn. change (JsArray.len [s]) with 1.
  unfold JsArray.len in W. lia.
Qed.

Lemma setState_updater h f s cur :
  state h = Some cur -> f (Some cur) = Ok s ->
  setState stringify h (Updater f) = setState stringify h (Value s).
Proof.
  intros Hs Hf. unfold setState, setStateCalls. rewrite Hs, Hf. reflexivity.
Qed.

Lemma state_pushed h s : wf h -> state (pushed h s) = Some s.
Proof.
  unfold wf, JsArray.len. intros W. unfold state, pushed; simpl.
  replace (currentIndex h + 1) with (Z.of_nat (Z.to_nat (currentIndex h) + 1)) by lia.
  rewrite JsArrayFacts.get_of_nat.
  rewrite nth_error_app2; rewrite length_firstn; [|lia].
  now replace (_ - _)%nat with 0%nat by lia.
Qed.

Lemma wf_pushed h s : wf h -> wf (pushed h s).
Proof.
  unfold wf, pushed; simpl. rewrite JsArrayFacts.len_app. unfold JsArray.len.
  rewrite length_firstn. simpl. lia.
Qed.

Lemma wf_useHistory s : wf (useHistory s).
Proof. unfold wf; simpl. unfold JsArray.len; simpl. lia. Qed.

(** [setState] keeps the pointer inside the stack. *)
Lemma setState_wf h a h' : wf h -> setState stringify h a = Ok h' -> wf h'.
Proof.
  intros W H. destruct (wf_state _ W) as [cur Hs].
  assert (V : forall s, setState stringify h (Value s) = Ok h' -> wf h').
  { intros s. rewrite (setState_value _ _ _ Hs).
    intros E; injection E as <-.
    destruct (String.eqb _ _); auto using wf_pushed. }
  destruct a as [v|f]; [eauto|].
  destruct (f (Some cur)) as [s|e] eqn:Hf.
  - rewrite (setState_updater _ _ _ _ Hs Hf) in H. eauto.
  - unfold setState, setStateCalls in H. rewrite Hs, Hf in H. discriminate.
Qed.

Lemma committed_wf h : committed stringify h -> wf h.
Proof.
  induction 1; eauto using wf_useHistory, setState_wf.
Qed.

(** After [undo] the test of [redo] succeeds, and [redo] moves the pointer
    one further step back. *)
Lemma redo_undo_pointer h :
  wf h -> canUndo h = true ->
  currentIndex (redo (undo h)) = currentIndex h - 2.
Proof.
  unfold wf, canUndo, redo, undo. intros W C. rewrite C. simpl.
  destruct (Z.ltb_spec (currentIndex h - 1) (JsArray.len (history h) - 1));
    simpl; lia.
Qed.

End HistoryFacts.

Section HistoryClaims.
Context {T : Type}.
Variable stringify : T -> string.

(** C1. The round trip of [undo] and [redo] fails in the source: on the
    history [[s0, s1]] with the pointer on [s1] (one commit after the initial
    state) [canUndo] holds, [undo] moves the pointer to [0], and [redo]
    then moves it to [-1] instead of back to [1], so that the current state
    is [undefined] and not [s1]. *)
Theorem redo_after_undo_leaves_stack (s0 s1 : T) :
  canUndo (mkHistory [s0; s1] 1) = true
  /\ state (mkHistory [s0; s1] 1) = Some s1
  /\ undo (mkHistory [s0; s1] 1) = mkHistory [s0; s1] 0
  /\ redo (undo (mkHistory [s0; s1] 1)) = mkHistory [s0; s1] (-1)
  /\ state (redo (undo (mkHistory [s0; s1] 1))) = None.
Proof. repeat split. Qed.

(** C2, as the source has it. In a history whose current state is [cur],
    [setState] with an action that yields [newState] compares the JSON texts
    of the two: when the texts are equal, and so whenever [newState] equals
    [cur], it leaves stack and pointer as they are; when the texts differ it
    cuts the stack after the pointer, appends [newState] and moves the
    pointer to it. *)
Theorem setState_commit (h : History T) (action : SetStateAction T)
  (cur newState : T) :
  state h = Some cur ->
  match action with Value v => Ok v | Updater f => f (Some cur) end
    = Ok newState ->
  (stringify newState = stringify cur -> setState stringify h action = Ok h)
  /\ (newState = cur -> setState stringify h action = Ok h)
  /\ (stringify newState <> stringify cur ->
      setState stringify h action
      = Ok {| history :=
                firstn (Z.to_nat (currentIndex h) + 1) (history h) ++ [newState];
              currentIndex := currentIndex h + 1 |}
      /\ state (pushed h newState) = Some newState
      /\ JsArray.len (history (pushed h newState)) = currentIndex h + 2).
Proof.
  intros Hs Ha.
  assert (E : setState stringify h action
              = setState stringify h (Value newState)).
  { destruct action as [v|f].
    - now injection Ha as ->.
    - now apply setState_updater with (cur := cur). }
  rewrite E, (setState_value _ _ _ _ Hs).
  pose proof (state_wf _ _ Hs) as W.
  split; [|split].
  - intros ->. now rewrite String.eqb_refl.
  - intros ->. now rewrite String.eqb_refl.
  - intros J. apply String.eqb_neq in J. rewrite J.
    split; [reflexivity|]. split; [now apply state_pushed|].
    unfold pushed; simpl. rewrite JsArrayFacts.len_app.
    unfold JsArray.len. rewrite length_firstn. simpl.
    unfold wf, JsArray.len in W. lia.
Qed.

End HistoryClaims.

(** C2 at the first render of the application: committing the initial layers
    again changes nothing, and committing the list [handleAddText] builds
    appends it. *)
Lemma setState_commit_witness :
  setState Json.stringify (useHistory Sample.initialLayers)
           (Value Sample.initialLayers)
  = Ok (useHistory Sample.initialLayers)
  /\ setState Json.stringify (useHistory Sample.initialLayers)
       (Updater (fun prev =>
                   prev <- defined prev ;;
                   Ok (LText (Sample.newText "1" 10%float 20%float) :: prev)))
     = Ok (mkHistory
             [Sample.initialLayers;
              LText (Sample.newText "1" 10%float 20%float) :: Sample.initialLayers]
             1).
Proof.
  split.
  - apply (setState_commit Json.stringify
             (useHistory Sample.initialLayers) (Value Sample.initialLayers)
             Sample.initialLayers Sample.initialLayers);
      reflexivity.
  - apply (setState_commit Json.stringify
             (useHistory Sample.initialLayers)
             (Updater (fun prev =>
                         prev <- defined prev ;;
                         Ok (LText (Sample.newText "1" 10%float 20%float) :: prev)))
             Sample.initialLayers
             (LText (Sample.newText "1" 10%float 20%float) :: Sample.initialLayers));
      [reflexivity | reflexivity | vm_compute; discriminate].
Defined.

(** C2 as stated fails: a value that is not equal to the current state is
    dropped when its JSON text is the same. With the astronaut at
    [x = Infinity] on the stack, committing it at [x = NaN] leaves stack and
    pointer as they are: both numbers print as [null]. *)
Lemma setState_drops_differing_value :
  Unprintable.atNaN <> Unprintable.atInfinity
  /\ setState Json.stringify (useHistory Unprintable.atInfinity)
       (Value Unprintable.atNaN)
     = Ok (useHistory Unprintable.atInfinity).
Proof.
  split; [|reflexivity].
  intros E.
  apply (f_equal (fun l => match l with
                           | LImage e :: _ => PrimFloat.is_nan (Image.x e)
                           | _ => false
                           end)) in E.
  vm_compute in E. discriminate.
Qed.

(** ** Descendants *)

Section Descendants.
Variable layers : list Layer.

(** The two copies of the traversal compute the same list: the one of the
    layers panel appends to its accumulator what the one of [App] returns. *)
Lemma findChildren_getDescendantIds depth :
  forall parent acc,
    findChildren depth layers parent acc
    = (ids <- getDescendantIds depth layers parent ;; Ok (acc ++ ids)).
Proof.
  induction depth as [|d IH]; intros parent acc; [reflexivity|].
  simpl. generalize (filter (parentIs parent) layers) as children.
  intros children; revert acc.
  induction children as [|c cs IHcs]; intros acc; simpl.
  - now rewrite app_nil_r.
  - unfold JsArray.push. destruct (isGroup c).
    + rewrite IH. destruct (getDescendantIds d layers (id c)) as [ids|e]; simpl;
        [|reflexivity].
      rewrite IHcs.
      destruct (collect _ cs) as [zs|e]; simpl; [|reflexivity].
      now rewrite <- !app_assoc.
    + simpl. rewrite IHcs.
      destruct (collect _ cs) as [zs|e]; simpl; [|reflexivity].
      now rewrite <- !app_assoc.
Qed.

Lemma panelGetDescendantIds_eq depth layerId :
  panelGetDescendantIds depth layers layerId
  = getDescendantIds depth layers layerId.
Proof.
  unfold panelGetDescendantIds. rewrite findChildren_getDescendantIds.
  now destruct (getDescendantIds depth layers layerId).
Qed.


Lemma collect_Ok {A B} (f : A -> result (list B)) (P : B -> Prop) l :
  (forall x, In x l -> exists ys, f x = Ok ys /\ Forall P ys) ->
  exists zs, collect f l = Ok zs /\ Forall P zs.
Proof.
  induction l as [|x l IH]; intros H; simpl; [eauto|].
  destruct (H x (or_introl eq_refl)) as (ys & -> & Hys).
  destruct IH as (zs & -> & Hzs); [intros y Hy; apply H; now right|].
  simpl. eexists; split; [reflexivity|]. now apply Forall_app.
Qed.

Variable rank : string -> nat.
Hypothesis acyclic : ranked rank layers.

(** With a stack deeper than the rank of [layerId] the traversal returns, and
    every id it returns has a smaller rank. *)
Lemma getDescendantIds_ranked depth :
  forall layerId, (rank layerId < depth)%nat ->
    exists ids, getDescendantIds depth layers layerId = Ok ids
                /\ Forall (fun k => (rank k < rank layerId)%nat) ids.
Proof.
  induction depth as [|d IH]; intros layerId Hd; [lia|].
  simpl. apply collect_Ok. intros c Hc.
  apply filter_In in Hc as [Hin Hp].
  unfold parentIs in Hp. destruct (parentId c) as [p|] eqn:Ep; [|discriminate].
  apply String.eqb_eq in Hp; subst p.
  pose proof (acyclic c layerId Hin Ep) as Hr.
  destruct (isGroup c).
  - destruct (IH (id c)) as (ids & -> & Hids); [lia|].
    simpl. eexists; split; [reflexivity|]. constructor; [exact Hr|].
    eapply Forall_impl; [|exact Hids]. simpl; intros; lia.
  - simpl. eexists; split; [reflexivity|]. constructor; [exact Hr|constructor].
Qed.

(** A result does not depend on the depth of stack left. *)
Lemma getDescendantIds_mono depth :
  forall layerId ids,
    getDescendantIds depth layers layerId = Ok ids ->
    getDescendantIds (S depth) layers layerId = Ok ids.
Proof.
  induction depth as [|d IH]; intros layerId ids H; [discriminate|].
  change (getDescendantIds (S (S d)) layers layerId)
    with (collect (fun child =>
                     sub <- (if isGroup child
                             then getDescendantIds (S d) layers (id child)
                             else Ok []) ;;
                     Ok (id child :: sub))
                  (filter (parentIs layerId) layers)).
  simpl in H. revert ids H.
  generalize (filter (parentIs layerId) layers) as children.
  induction children as [|c cs IHcs]; intros ids H; [exact H|].
  cbn [collect] in *.
  destruct (isGroup c).
  - destruct (getDescendantIds d layers (id c)) as [sub|e] eqn:E; [|discriminate].
    rewrite (IH _ _ E). cbn [bind] in *.
    destruct (collect _ cs) as [zs|e] eqn:Ez; [|discriminate].
    now rewrite (IHcs _ eq_refl).
  - cbn [bind] in *.
    destruct (collect _ cs) as [zs|e] eqn:Ez; [|discriminate].
    now rewrite (IHcs _ eq_refl).
Qed.

Lemma getDescendantIds_deeper d d' layerId ids :
  (d <= d')%nat ->
  getDescendantIds d layers layerId = Ok ids ->
  getDescendantIds d' layers layerId = Ok ids.
Proof.
  induction 1; auto using getDescendantIds_mono.
Qed.

End Descendants.

(** C3, as the source has it. On a layer list whose parent links have no
    cycle (a rank decreases from every parent to its children)
    [getDescendantIds], in [App] and in the layers panel, returns once the stack
    is deeper than the rank of [layerId], with the same list at every such
    depth, and the list does not contain [layerId]. *)
Theorem getDescendantIds_acyclic (layers : list Layer) (rank : string -> nat)
  (layerId : string) :
  ranked rank layers ->
  exists ids,
    (forall depth, (rank layerId < depth)%nat ->
       getDescendantIds depth layers layerId = Ok ids
       /\ panelGetDescendantIds depth layers layerId = Ok ids)
    /\ ~ In layerId ids.
Proof.
  intros Hr.
  destruct (getDescendantIds_ranked layers rank Hr (S (rank layerId)) layerId)
    as (ids & E & F); [lia|].
  exists ids. split.
  - intros depth Hd. rewrite panelGetDescendantIds_eq.
    assert (getDescendantIds depth layers layerId = Ok ids); [|tauto].
    apply getDescendantIds_deeper with (d := S (rank layerId)); [lia | exact E].
  - intros Hin. rewrite Forall_forall in F. specialize (F _ Hin). lia.
Qed.

Lemma getDescendantIds_acyclic_witness :
  exists ids,
    (forall depth, (Tree.rank "g1" < depth)%nat ->
       getDescendantIds depth Tree.layers "g1" = Ok ids
       /\ panelGetDescendantIds depth Tree.layers "g1" = Ok ids)
    /\ ~ In "g1" ids.
Proof.
  apply (getDescendantIds_acyclic Tree.layers Tree.rank "g1").
  intros l p [<-|[<-|[<-|[<-|[]]]]] E; simpl in E;
    try discriminate; injection E as <-; vm_compute; lia.
Defined.

Example getDescendantIds_tree :
  getDescendantIds 3 Tree.layers "g1" = Ok ["a"; "g2"; "b"]
  /\ panelGetDescendantIds 3 Tree.layers "g1" = Ok ["a"; "g2"; "b"]
  /\ getDescendantIds 1 Tree.layers "g1" = Throw RangeError.
Proof. repeat split. Qed.

Lemma getDescendantIds_cyclic depth :
  forall k, k = "g1" \/ k = "g2" ->
    getDescendantIds depth Cyclic.layers k = Throw RangeError.
Proof.
  induction depth as [|d IH]; intros k Hk; [reflexivity|].
  destruct Hk as [-> | ->]; simpl.
  - now rewrite (IH "g2") by auto.
  - now rewrite (IH "g1") by auto.
Qed.

(** C3 as stated fails: on two groups that are each other's parent the
    traversal returns at no depth of stack, in [App] or in the layers panel;
    and for an image that is its own parent it returns the image's own id. *)
Lemma getDescendantIds_cycle_never_returns :
  (~ exists depth ids,
       getDescendantIds depth Cyclic.layers "g1" = Ok ids
       \/ panelGetDescendantIds depth Cyclic.layers "g1" = Ok ids)
  /\ getDescendantIds 1 SelfParent.layers "x" = Ok ["x"]
  /\ panelGetDescendantIds 1 SelfParent.layers "x" = Ok ["x"].
Proof.
  split; [|split; reflexivity].
  intros (depth & ids & H).
  rewrite panelGetDescendantIds_eq in H.
  rewrite getDescendantIds_cyclic in H by auto.
  destruct H; discriminate.
Qed.

(** ** The keyboard handler *)

Lemma textField_isTyping (activeElement : option Element) :
  textField activeElement <-> isTyping activeElement = true.
Proof.
  unfold textField, isTyping. split.
  - intros (a & -> & [E|[E|E]]); rewrite E; simpl;
      rewrite ?orb_true_r; reflexivity.
  - destruct activeElement as [a|]; [|discriminate].
    intros H. exists a. split; [reflexivity|].
    apply orb_true_iff in H as [H|H]; [|auto].
    apply orb_true_iff in H as [H|H]; apply String.eqb_eq in H; auto.
Qed.

(** C4, as the source has it. While the focus is in an [INPUT], a [TEXTAREA]
    or a content-editable element, [handleKeyDown] does not call
    [handleDeleteSelected], and a Delete key leaves the whole state as it is.
    [undo] and [redo] are not gated on the focus: wherever the focus [other]
    is, in a text field or not, they are called exactly when Ctrl or Cmd is
    held with the key [z], without and with Shift; and
    [handleDeleteSelected] is called exactly for the Delete key with the
    focus outside a text field. *)
Theorem handleKeyDown_while_typing (stringify : list Layer -> string)
  (depth : nat) (app : App) (e : KeyboardEvent)
  (activeElement other : option Element) :
  textField activeElement ->
  ~ In CallHandleDeleteSelected (handleKeyDown e activeElement)
  /\ (key e = "Delete" -> keydown stringify depth app e activeElement = Ok app)
  /\ (In CallUndo (handleKeyDown e other)
      <-> ((metaKey e = true \/ ctrlKey e = true) /\ key e = "z"
           /\ shiftKey e = false))
  /\ (In CallRedo (handleKeyDown e other)
      <-> ((metaKey e = true \/ ctrlKey e = true) /\ key e = "z"
           /\ shiftKey e = true))
  /\ (In CallHandleDeleteSelected (handleKeyDown e other)
      <-> (key e = "Delete" /\ ~ textField other)).
Proof.
  intros Ht. apply textField_isTyping in Ht.
  assert (U : (metaKey e || ctrlKey e) && String.eqb (key e) "z"
              && negb (shiftKey e) = true
              <-> ((metaKey e = true \/ ctrlKey e = true) /\ key e = "z"
                   /\ shiftKey e = false)).
  { rewrite !andb_true_iff, orb_true_iff, String.eqb_eq, negb_true_iff. tauto. }
  assert (R : (metaKey e || ctrlKey e) && String.eqb (key e) "z"
              && shiftKey e = true
              <-> ((metaKey e = true \/ ctrlKey e = true) /\ key e = "z"
                   /\ shiftKey e = true)).
  { rewrite !andb_true_iff, orb_true_iff, String.eqb_eq. tauto. }
  assert (D : String.eqb (key e) "Delete" && negb (isTyping other) = true
              <-> (key e = "Delete" /\ ~ textField other)).
  { rewrite andb_true_iff, String.eqb_eq, negb_true_iff, textField_isTyping.
    destruct (isTyping other); intuition congruence. }
  rewrite <- U, <- R, <- D. clear U R D.
  split; [|split].
  - unfold handleKeyDown. rewrite Ht, andb_false_r.
    destruct (String.eqb (key e) "Shift" && negb (repeat e));
      destruct ((metaKey e || ctrlKey e) && String.eqb (key e) "z"
                && negb (shiftKey e));
      destruct ((metaKey e || ctrlKey e) && String.eqb (key e) "z"
                && shiftKey e);
      simpl; intuition discriminate.
  - intros E. unfold keydown, handleKeyDown. rewrite Ht, E.
    rewrite !andb_false_r. reflexivity.
  - unfold handleKeyDown.
    destruct (String.eqb (key e) "Shift" && negb (repeat e));
      destruct ((metaKey e || ctrlKey e) && String.eqb (key e) "z"
                && negb (shiftKey e));
      destruct ((metaKey e || ctrlKey e) && String.eqb (key e) "z"
                && shiftKey e);
      destruct (String.eqb (key e) "Delete" && negb (isTyping other));
      simpl; intuition (try discriminate; auto).
Qed.

Lemma handleKeyDown_while_typing_witness :
  ~ In CallHandleDeleteSelected (handleKeyDown Keys.delete Keys.input)
  /\ keydown Wire.stringify 8 Keys.edited Keys.delete Keys.input
     = Ok Keys.edited
  /\ In CallUndo (handleKeyDown Keys.ctrlZ Keys.textarea).
Proof.
  assert (Ht : textField Keys.input).
  { exists (mkElement "INPUT" false). split; [reflexivity | now left]. }
  split; [|split].
  - apply (handleKeyDown_while_typing Wire.stringify 8 Keys.edited
             Keys.delete Keys.input None Ht).
  - apply (handleKeyDown_while_typing Wire.stringify 8 Keys.edited
             Keys.delete Keys.input None Ht). reflexivity.
  - apply (handleKeyDown_while_typing Wire.stringify 8 Keys.edited
             Keys.ctrlZ Keys.input Keys.textarea Ht).
    split; [right; reflexivity|]. split; reflexivity.
Defined.

(** C4 as stated fails: with the focus in an [<input>], Ctrl+Z calls [undo]
    and Ctrl+Shift+Z calls [redo], and the pointer of the layer history moves. *)
Lemma undo_called_while_typing :
  isTyping Keys.input = true
  /\ In CallUndo (handleKeyDown Keys.ctrlZ Keys.input)
  /\ In CallRedo (handleKeyDown Keys.ctrlShiftZ Keys.input)
  /\ (app <- keydown Wire.stringify 8 Keys.edited Keys.ctrlZ Keys.input ;;
      Ok (currentIndex (layersHistory app), layersOf app))
     = Ok (0, Some Sample.initialLayers).
Proof.
  repeat split; simpl; auto.
Qed.

(** ** Commits of the layer store *)

Section Store.
Variable stringify : list Layer -> string.
Hypothesis stringify_inj : forall a b, stringify a = stringify b -> a = b.

(** [setLayers] with a function of the previous layers: afterwards the current
    layers are the function's result, and only the history has changed. *)
Lemma setLayers_updater (app : App) f (cur new : list Layer) :
  layersOf app = Some cur -> f (Some cur) = Ok new ->
  exists h', setLayers stringify app (Updater f) = Ok (setLayersHistory app h')
             /\ state h' = Some new.
Proof.
  intros Hs Hf. unfold setLayers, layersOf in *.
  rewrite (setState_updater stringify _ _ _ _ Hs Hf).
  rewrite (setState_value stringify _ _ _ Hs). simpl.
  destruct (String.eqb_spec (stringify new) (stringify cur)) as [J|J].
  - apply stringify_inj in J. subst. eauto.
  - eexists; split; [reflexivity|].
    apply state_pushed. eapply state_wf; eauto.
Qed.

(** A function that throws leaves no trace. *)
Lemma setLayers_throw (app : App) f (cur : list Layer) e :
  layersOf app = Some cur -> f (Some cur) = Throw e ->
  setLayers stringify app (Updater f) = Throw e.
Proof.
  intros Hs Hf. unfold setLayers, layersOf, setState, setStateCalls in *.
  now rewrite Hs, Hf.
Qed.

(** A function that returns its argument changes nothing at all. *)
Lemma setLayers_same (app : App) f (cur : list Layer) :
  layersOf app = Some cur -> f (Some cur) = Ok cur ->
  setLayers stringify app (Updater f) = Ok app.
Proof.
  intros Hs Hf. unfold setLayers, layersOf in *.
  rewrite (setState_updater stringify _ _ _ _ Hs Hf).
  rewrite (setState_value stringify _ _ _ Hs), String.eqb_refl. simpl.
  now destruct app.
Qed.

End Store.

(** ** Grouping *)

Lemma groupLayers_two_images (a b : Image.t) (g : string) :
  Image.id a <> Image.id b ->
  groupLayers g [Image.id a; Image.id b] [LImage a; LImage b]
  = [ LGroup (Group.mk g "New Group" true true None);
      withParentId (LImage a) (Some g);
      withParentId (LImage b) (Some g) ].
Proof.
  intros N. destruct a as [ia na sa xa ya wa ha ra ma va pa].
  destruct b as [ib nb sb xb yb wb hb rb mb vb pb]. simpl in N.
  assert (Eab : String.eqb ia ib = false) by now apply String.eqb_neq.
  assert (Eba : String.eqb ib ia = false)
    by (apply String.eqb_neq; congruence).
  unfold groupLayers, selectedLayers, selectedIndices, withoutIndices,
    intoGroup, newGroup, idIs. simpl.
  rewrite !String.eqb_refl, ?Eab, ?Eba. simpl.
  rewrite ?String.eqb_refl, ?Eab, ?Eba. simpl.
  reflexivity.
Qed.

Section Grouping.
Variable stringify : list Layer -> string.
Hypothesis stringify_inj : forall a b, stringify a = stringify b -> a = b.

(** C5. With the layers [[ImageA, ImageB]] and both selected in that order,
    [handleGroupSelection] leaves exactly three layers: the new group,
    visible, expanded and without parent, followed by the two images, each
    with its own fields and with the id of the group as [parentId]; and it
    selects the group. *)
Theorem group_two_images (app : App) (a b : Image.t) (newGroupId : string) :
  layersOf app = Some [LImage a; LImage b] ->
  Image.parentId a = None -> Image.parentId b = None ->
  Image.id a <> Image.id b ->
  selectedIds app = [Image.id a; Image.id b] ->
  exists app',
    handleGroupSelection stringify newGroupId app = Ok app'
    /\ layersOf app'
       = Some [ LGroup (Group.mk newGroupId "New Group" true true None);
                LImage (Image.mk (Image.id a) (Image.name a) (Image.src a)
                          (Image.x a) (Image.y a) (Image.width a)
                          (Image.height a) (Image.rotation a)
                          (Image.mimeType a) (Image.visible a)
                          (Some newGroupId));
                LImage (Image.mk (Image.id b) (Image.name b) (Image.src b)
                          (Image.x b) (Image.y b) (Image.width b)
                          (Image.height b) (Image.rotation b)
                          (Image.mimeType b) (Image.visible b)
                          (Some newGroupId)) ]
    /\ selectedIds app' = [newGroupId].
Proof.
  intros Hl _ _ N Hsel. unfold handleGroupSelection. rewrite Hsel. simpl.
  destruct (setLayers_updater stringify stringify_inj app
              (fun prev => prevLayers <- defined prev ;;
                           Ok (groupLayers newGroupId [Image.id a; Image.id b]
                                           prevLayers))
              [LImage a; LImage b] _ Hl eq_refl) as (h' & -> & Hh).
  simpl. eexists; split; [reflexivity|]. split; [|reflexivity].
  unfold layersOf; simpl. rewrite Hh. now rewrite groupLayers_two_images.
Qed.

End Grouping.

Lemma group_two_images_witness :
  exists app',
    handleGroupSelection Wire.stringify "group-1"
      (Sample.appWith [LImage Sample.imageA; LImage Sample.imageB] ["a"; "b"])
    = Ok app'
    /\ layersOf app'
       = Some [ LGroup (Group.mk "group-1" "New Group" true true None);
                LImage (Image.mk "a" (Image.name Sample.imageA)
                          (Image.src Sample.imageA)
                          (Image.x Sample.imageA) (Image.y Sample.imageA)
                          (Image.width Sample.imageA)
                          (Image.height Sample.imageA)
                          (Image.rotation Sample.imageA)
                          (Image.mimeType Sample.imageA)
                          (Image.visible Sample.imageA) (Some "group-1"));
                LImage (Image.mk "b" (Image.name Sample.imageB)
                          (Image.src Sample.imageB)
                          (Image.x Sample.imageB) (Image.y Sample.imageB)
                          (Image.width Sample.imageB)
                          (Image.height Sample.imageB)
                          (Image.rotation Sample.imageB)
                          (Image.mimeType Sample.imageB)
                          (Image.visible Sample.imageB) (Some "group-1")) ]
    /\ selectedIds app' = ["group-1"].
Proof.
  apply (group_two_images Wire.stringify WireFacts.stringify_injective
           (Sample.appWith [LImage Sample.imageA; LImage Sample.imageB] ["a"; "b"])
           Sample.imageA Sample.imageB "group-1");
    try reflexivity.
  discriminate.
Defined.

(** ** Rejected moves *)

Lemma includes_In (l : list string) (x : string) :
  JsArray.includes l x = true <-> In x l.
Proof.
  unfold JsArray.includes. rewrite existsb_exists. split.
  - intros (y & Hy & E). apply String.eqb_eq in E. now subst.
  - intros H. exists x. split; [exact H | apply String.eqb_refl].
Qed.

(** C7. When the drop target's parent is the dragged layer, or the drop
    target is among the descendants of the dragged layer,
    [handleReorderAndReparentLayers] leaves the whole state as it is, for
    every position. *)
Theorem reorder_rejected (stringify : list Layer -> string) (depth : nat)
  (app : App) (layers : list Layer) (dragId dropId : string)
  (position : Position) :
  layersOf app = Some layers ->
  (exists dropLayer, JsArray.mapGet id layers dropId = Some dropLayer
                     /\ parentId dropLayer = Some dragId)
  \/ (exists ds, getDescendantIds depth layers dragId = Ok ds /\ In dropId ds) ->
  handleReorderAndReparentLayers stringify depth app dragId dropId position
  = Ok app.
Proof.
  intros Hl Hrej. unfold handleReorderAndReparentLayers.
  apply setLayers_same with (cur := layers); [exact Hl|].
  simpl. unfold reorderLayers.
  destruct (JsArray.mapGet id layers dragId) as [dragged|]; [|reflexivity].
  destruct (JsArray.mapGet id layers dropId) as [dropLayer|] eqn:Ed;
    [|reflexivity].
  destruct (parentIs dragId dropLayer) eqn:Ep; [reflexivity|].
  destruct Hrej as [(d & Hd & Hp) | (ds & Hds & Hin)].
  - injection Hd as <-. unfold parentIs in Ep. rewrite Hp in Ep.
    now rewrite String.eqb_refl in Ep.
  - rewrite Hds. simpl.
    apply includes_In in Hin. now rewrite Hin.
Qed.

Lemma reorder_rejected_witness :
  handleReorderAndReparentLayers Wire.stringify 3
    (Sample.appWith Tree.layers []) "g1" "b" inside
  = Ok (Sample.appWith Tree.layers [])
  /\ handleReorderAndReparentLayers Wire.stringify 3
       (Sample.appWith Tree.layers []) "g1" "g2" after
     = Ok (Sample.appWith Tree.layers []).
Proof.
  split.
  - apply (reorder_rejected Wire.stringify 3 (Sample.appWith Tree.layers [])
             Tree.layers "g1" "b" inside); [reflexivity|].
    right. exists ["a"; "g2"; "b"]. split; [reflexivity | simpl; auto].
  - apply (reorder_rejected Wire.stringify 3 (Sample.appWith Tree.layers [])
             Tree.layers "g1" "g2" after); [reflexivity|].
    left. eexists. split; reflexivity.
Defined.

(** ** Background removal *)

Section RemoveBackground.
Variable stringify : list Layer -> string.
Variable engineMessage : Exn -> string.

(** Whatever happened while the call was pending, a rejection appends one
    system message and clears the busy flag, and nothing else. *)
Lemma removeBackgroundSettle_rejected now render el error (app : App) :
  removeBackgroundSettle stringify engineMessage now render el (Rejected error) app
  = Ok (mkApp (layersHistory app) (selectedIds app) (activeTool app)
              (isLoading app) false ""
              (messages app
                 ++ [mkChatMessage
                       ("msg-" ++ now ++ "-err") system
                       match error with
                       | ErrorObject message => message
                       | OtherValue =>
                           "An unknown error occurred during background removal."
                       end
                       None])
              (isShiftPressed app)).
Proof. reflexivity. Qed.

Lemma removeBackgroundSettle_flag now render el outcome (app : App) :
  exists app',
    removeBackgroundSettle stringify engineMessage now render el outcome app
    = Ok app'
    /\ isProcessing app' = false.
Proof.
  unfold removeBackgroundSettle. eexists; split; reflexivity.
Qed.

(** C9. When [handleRemoveBackground] reaches the remote call and the call
    is rejected, the handler returns normally; the layer history and the
    selection are those from before the call, the transcript has exactly one
    more message, of role [system], and the busy flag is off. The flag is off
    after a fulfilled call as well. *)
Theorem removeBackground_failure (now : string) (app : App) (error : Thrown)
  (selectedElement : Image.t) (busy : App) :
  removeBackgroundBegin app = Ok (Some (selectedElement, busy)) ->
  isProcessing busy = true
  /\ (exists app' m,
        handleRemoveBackground stringify engineMessage now app (Rejected error)
        = Ok app'
        /\ layersHistory app' = layersHistory app
        /\ selectedIds app' = selectedIds app
        /\ messages app' = messages app ++ [m]
        /\ role m = system
        /\ isProcessing app' = false)
  /\ (forall resultImage, exists app',
        handleRemoveBackground stringify engineMessage now app
          (Fulfilled resultImage) = Ok app'
        /\ isProcessing app' = false).
Proof.
  intros Hb. unfold handleRemoveBackground. rewrite Hb. simpl.
  assert (busy = setProcessingMessage (setIsProcessing app true)
                                      "Removing background...") as ->.
  { unfold removeBackgroundBegin in Hb.
    destruct (negb _); [discriminate|].
    destruct (defined (layersOf app)); [|discriminate]. simpl in Hb.
    destruct (find _ _) as [[e|e|e]|]; try discriminate.
    now injection Hb as _ <-. }
  split; [reflexivity|]. split.
  - do 2 eexists. repeat split.
  - intros resultImage. apply removeBackgroundSettle_flag.
Qed.

End RemoveBackground.

Lemma removeBackground_failure_witness :
  exists app' m,
    handleRemoveBackground Wire.stringify (fun _ => "")
      "1" (Sample.appWith Sample.initialLayers ["initial-element-1"])
      (Rejected (ErrorObject
         "Failed to remove background. Please check the console for details."))
    = Ok app'
    /\ layersHistory app' = useHistory Sample.initialLayers
    /\ selectedIds app' = ["initial-element-1"]
    /\ messages app' = [Sample.welcome] ++ [m]
    /\ role m = system
    /\ isProcessing app' = false.
Proof.
  apply (removeBackground_failure Wire.stringify (fun _ => "") "1"
           (Sample.appWith Sample.initialLayers ["initial-element-1"])
           (ErrorObject
              "Failed to remove background. Please check the console for details.")
           Sample.astronaut
           (setProcessingMessage
              (setIsProcessing
                 (Sample.appWith Sample.initialLayers ["initial-element-1"]) true)
              "Removing background...")).
  reflexivity.
Defined.

(** ** Resizing text *)

Example calculateFontSizeFromHeight_values :
  calculateFontSizeFromHeight 60%float = 50%float
  /\ calculateFontSizeFromHeight 48%float = 40%float
  /\ calculateFontSizeFromHeight 0.5%float = 1%float
  /\ calculateFontSizeFromHeight (-5)%float = 1%float.
Proof. repeat split. Qed.

(** A number above 1 is not a zero. *)
Lemma above_one_not_zero (q : number) :
  (1 <? q)%float = true -> PrimFloat.is_zero q = false.
Proof.
  unfold PrimFloat.is_zero. rewrite FloatAxioms.ltb_spec, FloatAxioms.eqb_spec.
  destruct (Prim2SF q) as [s|s| |s m e]; vm_compute; try discriminate; auto.
  all: destruct s; auto.
Qed.

(** The larger of 1 and a number that prints as a number prints as itself. *)
Lemma larger_prints (q : number) :
  printsNull q = false ->
  printsNull (if (1 <? q)%float then q else 1%float) = false
  /\ PrimFloat.is_zero (if (1 <? q)%float then q else 1%float) = false.
Proof.
  intros P. destruct (1 <? q)%float eqn:L.
  - split; [exact P | now apply above_one_not_zero].
  - split; reflexivity.
Qed.

Lemma numberAlike_eq (x y : number) :
  printsNull x = false -> PrimFloat.is_zero x = false ->
  numberAlike x y -> y = x.
Proof.
  intros P Z [E|[[E _]|[E _]]]; congruence.
Qed.

Lemma fontSizeAt_prints (height : number) :
  printsNull (height / 0x1.3333333333333p+0)%float = false ->
  fontSizeAt height
  = (if (1 <? height / 0x1.3333333333333p+0)%float
     then (height / 0x1.3333333333333p+0)%float else 1%float).
Proof.
  intros P. unfold fontSizeAt. apply orb_false_iff in P as [N _].
  now rewrite N.
Qed.

Section Pairs.
Context {A : Type}.

Lemma Forall2_map_self (R : A -> A -> Prop) (f : A -> A) (l : list A) :
  (forall x, In x l -> R x (f x)) -> Forall2 R l (map f l).
Proof.
  induction l as [|x l IH]; intros H; simpl; constructor.
  - apply H. now left.
  - apply IH. intros y Hy. apply H. now right.
Qed.

Lemma Forall2_both (R S : A -> A -> Prop) (l1 l2 : list A) :
  Forall2 R l1 l2 -> Forall2 S l2 l1 ->
  forall x, In x l1 -> exists y, In y l2 /\ R x y /\ S y x.
Proof.
  induction 1 as [|a b l1 l2 Rab _ IH]; intros HS x Hx; [destruct Hx|].
  inversion HS as [|? ? ? ? Sba HS']; subst.
  destruct Hx as [<-|Hx].
  - exists b. split; [now left | auto].
  - destruct (IH HS' x Hx) as (y & Hy & H). exists y. split; [now right | exact H].
Qed.

Lemma Forall2_right (R : A -> A -> Prop) (l1 l2 : list A) :
  Forall2 R l1 l2 -> forall y, In y l2 -> exists x, In x l1 /\ R x y.
Proof.
  induction 1 as [|a b l1 l2 Rab _ IH]; intros y Hy; [destruct Hy|].
  destruct Hy as [<-|Hy].
  - exists a. split; [now left | exact Rab].
  - destruct (IH y Hy) as (x & Hx & H). exists x. split; [now right | exact H].
Qed.
End Pairs.

Section StoreCases.
Variable stringify : list Layer -> string.

(** [setLayers] with a function of the previous layers, as the hook decides:
    nothing at all changes when the JSON text of the result is the text of
    the current layers; otherwise the result becomes the current layers. *)
Lemma setLayers_cases (app : App) f (cur new : list Layer) :
  layersOf app = Some cur -> f (Some cur) = Ok new ->
  exists app',
    setLayers stringify app (Updater f) = Ok app'
    /\ (stringify new <> stringify cur -> layersOf app' = Some new)
    /\ (stringify new = stringify cur -> app' = app).
Proof.
  intros Hs Hf. unfold setLayers, layersOf in *.
  rewrite (setState_updater stringify _ _ _ _ Hs Hf).
  rewrite (setState_value stringify _ _ _ Hs). simpl.
  destruct (String.eqb_spec (stringify new) (stringify cur)) as [J|J].
  - exists app. split; [now destruct app|]. split; [contradiction | auto].
  - eexists. split; [reflexivity|]. split; [|contradiction].
    intros _. cbn [layersHistory setLayersHistory].
    apply state_pushed. eapply state_wf; eauto.
Qed.

End StoreCases.

Section Resizing.
Variable stringify : list Layer -> string.

(** Lists with the same JSON text are alike: what [JSON.stringify] gives. *)
Hypothesis stringify_reads :
  forall a b, stringify a = stringify b -> Forall2 jsonAlike a b.

(** C8. When a resize gesture on a text element ends with a resize event of
    height [height], [onResizeEnd] passes on the layers [new] in which every
    element with the target's id has the event's geometry and a text has the
    font size [height / 1.2], or 1 when that is below 1, all other fields and
    all other layers being as before. [new] becomes the current list unless
    its JSON text is that of the current list, where nothing changes. Either
    way, when [height / 1.2] is a number that JSON prints, every text with
    the target's id has that font size afterwards; at height 60 it is 50,
    at height 0.5 it is 1. *)
Theorem resize_text_fontSize (app : App) (layers : list Layer) (target : string)
  (t : Text.t) (width height drag_left drag_top : number) :
  layersOf app = Some layers ->
  find (idIs target) (filter isElement layers) = Some (LText t) ->
  exists app' new,
    onResizeEnd stringify app target
      (Some (OnResize width height drag_left drag_top)) = Ok app'
    /\ Forall2 (fun l l' =>
                  if idIs target l && isElement l
                  then propsApplied
                         (mkProps (Some drag_left) (Some drag_top) (Some width)
                            (Some height) None (Some (fontSizeAt height)))
                         l l'
                  else l' = l)
               layers new
    /\ (stringify new <> stringify layers -> layersOf app' = Some new)
    /\ (stringify new = stringify layers -> app' = app)
    /\ (printsNull (height / 0x1.3333333333333p+0)%float = false ->
        exists ls,
          layersOf app' = Some ls
          /\ forall t', In (LText t') ls -> Text.id t' = target ->
               Text.fontSize t'
               = (if (1 <? height / 0x1.3333333333333p+0)%float
                  then (height / 0x1.3333333333333p+0)%float else 1%float))
    /\ (height = 60%float ->
        exists ls,
          layersOf app' = Some ls
          /\ forall t', In (LText t') ls -> Text.id t' = target ->
               Text.fontSize t' = 50%float)
    /\ (height = 0.5%float ->
        exists ls,
          layersOf app' = Some ls
          /\ forall t', In (LText t') ls -> Text.id t' = target ->
               Text.fontSize t' = 1%float).
Proof.
  intros Hl Hf. unfold onResizeEnd. rewrite Hl. simpl. rewrite Hf. simpl.
  assert (M : calculateFontSizeFromHeight height = fontSizeAt height).
  { unfold calculateFontSizeFromHeight, fontSizeAt, Math_max.
    change (PrimFloat.is_nan 1) with false. simpl.
    destruct (PrimFloat.is_nan _); auto. destruct (1 <? _)%float; auto.
    destruct (_ <? 1)%float; reflexivity. }
  rewrite M. clear M.
  set (props := mkProps (Some drag_left) (Some drag_top) (Some width)
                  (Some height) None (Some (fontSizeAt height))).
  set (f := fun l => if idIs target l && isElement l
                     then spreadProps l props else l).
  unfold handleElementUpdate.
  destruct (setLayers_cases stringify app
              (fun prev => prev <- defined prev ;; Ok (map f prev))
              layers (map f layers) Hl eq_refl) as (app' & E & Hnew & Hsame).
  exists app', (map f layers). split; [exact E|].
  assert (Rel : Forall2 (fun l l' =>
                           if idIs target l && isElement l
                           then propsApplied props l l' else l' = l)
                  layers (map f layers)).
  { apply Forall2_map_self. intros l _. unfold f.
    destruct (idIs target l && isElement l); [|reflexivity].
    destruct l as [e|e|g]; simpl; repeat split; reflexivity. }
  split; [exact Rel|]. split; [exact Hnew|]. split; [exact Hsame|].
  assert (Font : printsNull (height / 0x1.3333333333333p+0)%float = false ->
            exists ls,
              layersOf app' = Some ls
              /\ forall t', In (LText t') ls -> Text.id t' = target ->
                   Text.fontSize t'
                   = (if (1 <? height / 0x1.3333333333333p+0)%float
                      then (height / 0x1.3333333333333p+0)%float else 1%float)).
  { intros P.
    destruct (String.eqb_spec (stringify (map f layers)) (stringify layers))
      as [J|J].
    - (* nothing was committed: the texts on the stack print alike *)
      rewrite (Hsame J). exists layers. split; [exact Hl|].
      intros t' Hin Hid.
      destruct (Forall2_both _ _ _ _ Rel (stringify_reads _ _ J) _ Hin)
        as (l' & _ & Hr & Ha).
      unfold idIs in Hr. cbn [id isElement] in Hr.
      apply String.eqb_eq in Hid. rewrite Hid in Hr. cbn [andb] in Hr.
      destruct l' as [e'|e'|g']; simpl in Hr; try contradiction.
      simpl in Ha.
      assert (F : Text.fontSize e' = fontSizeAt height) by tauto.
      assert (A : numberAlike (Text.fontSize e') (Text.fontSize t')) by tauto.
      rewrite F, (fontSizeAt_prints height P) in A.
      destruct (larger_prints _ P) as [P1 Z1].
      exact (numberAlike_eq _ _ P1 Z1 A).
    - exists (map f layers). split; [now apply Hnew|].
      intros t' Hin Hid.
      destruct (Forall2_right _ _ _ Rel _ Hin) as (l & _ & Hr).
      destruct (idIs target l && isElement l) eqn:C.
      + destruct l as [e|e|g]; simpl in Hr; try contradiction.
        assert (F : Text.fontSize t' = fontSizeAt height) by tauto.
        now rewrite (fontSizeAt_prints height P) in F.
      + subst l. unfold idIs in C. cbn [id isElement] in C.
        apply String.eqb_eq in Hid. rewrite Hid in C. discriminate. }
  split; [exact Font|]. split.
  - intros ->. apply Font. reflexivity.
  - intros ->. apply Font. reflexivity.
Qed.

End Resizing.

Lemma resize_text_fontSize_witness :
  exists app' ls,
    onResizeEnd Json.stringify (Sample.appWith Resize.layers ["el-1"]) "el-1"
      (Some Resize.to60) = Ok app'
    /\ layersOf app' = Some ls
    /\ forall t', In (LText t') ls -> Text.id t' = "el-1" ->
         Text.fontSize t' = 50%float.
Proof.
  destruct (resize_text_fontSize Json.stringify JsonFacts.stringify_reads
              (Sample.appWith Resize.layers ["el-1"]) Resize.layers "el-1"
              Resize.label 250%float 60%float 10%float 20%float
              eq_refl eq_refl)
    as (app' & new & E & _ & _ & _ & _ & S & _).
  destruct (S eq_refl) as (ls & Hls & F).
  exists app', ls. split; [exact E|]. split; [exact Hls | exact F].
Defined.

Example resize_text_to_60 :
  (app <- onResizeEnd Wire.stringify (Sample.appWith Resize.layers ["el-1"])
            "el-1" (Some Resize.to60) ;;
   Ok (option_map (map (fun l => match l with
                                 | LText t => Some (Text.height t, Text.fontSize t)
                                 | _ => None
                                 end))
                  (layersOf app),
       JsArray.len (history (layersHistory app))))
  = Ok (Some [Some (60%float, 50%float); None], 2).
Proof. vm_compute. reflexivity. Qed.

(** ** Layers and their parent field *)

Lemma id_withParentId l p : id (withParentId l p) = id l.
Proof. now destruct l. Qed.

Lemma parentId_withParentId l p : parentId (withParentId l p) = p.
Proof. now destruct l. Qed.

Lemma withParentId_same l : withParentId l (parentId l) = l.
Proof. now destruct l as [[]|[]|[]]. Qed.

Lemma withParentId_twice l p q :
  withParentId (withParentId l p) q = withParentId l q.
Proof. now destruct l. Qed.

Lemma isGroup_withParentId l p : isGroup (withParentId l p) = isGroup l.
Proof. now destruct l. Qed.

Lemma idIs_withParentId k l p : idIs k (withParentId l p) = idIs k l.
Proof. unfold idIs. now rewrite id_withParentId. Qed.

Lemma idIs_true k l : idIs k l = true <-> id l = k.
Proof. apply String.eqb_eq. Qed.

Lemma idIs_false k l : idIs k l = false <-> id l <> k.
Proof. apply String.eqb_neq. Qed.

Lemma parentIs_true k l : parentIs k l = true <-> parentId l = Some k.
Proof.
  unfold parentIs. destruct (parentId l) as [p|]; [|split; discriminate].
  rewrite String.eqb_eq. split; congruence.
Qed.

(** ** Lookups by id *)

Section Lookup.
Implicit Types (layers : list Layer) (k : string).

Lemma mapGet_Some layers k x :
  JsArray.mapGet id layers k = Some x -> In x layers /\ id x = k.
Proof.
  unfold JsArray.mapGet. intros H. apply find_some in H as [Hin E].
  apply in_rev in Hin. now apply String.eqb_eq in E.
Qed.

Lemma mapGet_In layers k :
  In k (map id layers) -> exists x, JsArray.mapGet id layers k = Some x.
Proof.
  intros H. apply in_map_iff in H as (x & E & Hin).
  unfold JsArray.mapGet.
  destruct (find (fun x => String.eqb (id x) k) (rev layers)) eqn:F; eauto.
  exfalso. eapply find_none in F; [|apply in_rev; rewrite rev_involutive; eauto].
  simpl in F. rewrite E, String.eqb_refl in F. discriminate.
Qed.

(** With distinct ids, taking a layer out removes exactly its id. *)
Lemma ids_without layers d :
  NoDup (map id layers) -> In d layers ->
  Permutation (map id layers)
    (id d :: map id (filter (fun l => negb (idIs (id d) l)) layers)).
Proof.
  induction layers as [|x layers IH]; intros ND Hin; [destruct Hin|].
  simpl in ND. inversion ND as [|? ? Hx ND']; subst.
  destruct Hin as [->|Hin].
  - simpl. unfold idIs at 1. rewrite String.eqb_refl. simpl.
    apply perm_skip.
    rewrite forallb_filter_id; [reflexivity|].
    apply forallb_forall. intros y Hy.
    apply negb_true_iff, idIs_false. intros E. apply Hx.
    rewrite <- E. now apply in_map.
  - simpl. destruct (idIs (id d) x) eqn:E.
    + apply idIs_true in E. exfalso. apply Hx. rewrite E. now apply in_map.
    + simpl. rewrite perm_swap. apply perm_skip. now apply IH.
Qed.

End Lookup.

(** ** Moving a layer *)

(** [l.splice(k, 0, x)] inserts [x] somewhere in [l], whatever [k] is. *)
Lemma splice_inserts {A} (l : list A) (k : Z) (x : A) :
  exists l1 l2, l = l1 ++ l2 /\ JsArray.splice l k 0 [x] = l1 ++ x :: l2.
Proof.
  unfold JsArray.splice.
  set (s := JsArray.rel l k).
  assert (Hs : 0 <= s <= JsArray.len l).
  { unfold s, JsArray.rel. pose proof (JsArrayFacts.len_nonneg l).
    destruct (Z.ltb_spec k 0); lia. }
  replace (s + Z.min (Z.max 0 0) (JsArray.len l - s)) with s by lia.
  exists (firstn (Z.to_nat s) l), (skipn (Z.to_nat s) l).
  split; [now rewrite firstn_skipn | reflexivity].
Qed.

Section Reorder.
Variables (depth : nat) (layers : list Layer) (dragId dropId : string).
Variable position : Position.

Hypothesis distinct : NoDup (map id layers).
Hypothesis drag_exists : In dragId (map id layers).
Hypothesis drop_exists : In dropId (map id layers).

(** Not rejected: the drop target is not a child of the dragged layer, and
    the traversal returns a list without the drop target. *)
Variable ds : list string.
Hypothesis not_child :
  forall l, In l layers -> id l = dropId -> parentId l <> Some dragId.
Hypothesis descendants : getDescendantIds depth layers dragId = Ok ds.
Hypothesis not_descendant : ~ In dropId ds.

(** The result is the list itself, or the list without the dragged layer with
    a copy of it, under some parent, put back in. *)
Lemma reorderLayers_shape :
  exists dragged p,
    In dragged layers /\ id dragged = dragId
    /\ (reorderLayers depth layers dragId dropId position layers = Ok layers
        \/ exists l1 l2,
             filter (fun l => negb (idIs dragId l)) layers = l1 ++ l2
             /\ reorderLayers depth layers dragId dropId position layers
                = Ok (l1 ++ withParentId dragged p :: l2)).
Proof.
  destruct (mapGet_In _ _ drag_exists) as (dragged & Hg).
  destruct (mapGet_In _ _ drop_exists) as (dropLayer & Hd).
  destruct (mapGet_Some _ _ _ Hg) as [Gin Gid].
  destruct (mapGet_Some _ _ _ Hd) as [Din Did].
  unfold reorderLayers. rewrite Hg, Hd.
  assert (Ep : parentIs dragId dropLayer = false).
  { destruct (parentIs dragId dropLayer) eqn:E; [|reflexivity].
    apply parentIs_true in E. now apply not_child in E. }
  rewrite Ep, descendants. simpl.
  assert (Ei : JsArray.includes ds dropId = false).
  { destruct (JsArray.includes ds dropId) eqn:E; [|reflexivity].
    now apply includes_In in E. }
  rewrite Ei.
  set (newLayers := filter (fun l => negb (idIs dragId l)) layers).
  destruct (JsArray.findIndex (idIs dropId) newLayers =? -1).
  { exists dragged, None. auto. }
  destruct position.
  - destruct (splice_inserts newLayers
                (JsArray.findIndex (idIs dropId) newLayers)
                (withParentId dragged (parentId dropLayer)))
      as (l1 & l2 & E1 & E2).
    exists dragged, (parentId dropLayer). rewrite E2. eauto 8.
  - destruct (splice_inserts newLayers
                (JsArray.findIndex (idIs dropId) newLayers + 1)
                (withParentId dragged (parentId dropLayer)))
      as (l1 & l2 & E1 & E2).
    exists dragged, (parentId dropLayer). rewrite E2. eauto 8.
  - exists dragged, (Some (id dropLayer)).
    destruct (JsArray.get _ _) as [lastChild|].
    + destruct (splice_inserts newLayers
                  (JsArray.findIndex (idIs (id lastChild)) newLayers + 1)
                  (withParentId dragged (Some (id dropLayer))))
        as (l1 & l2 & E1 & E2).
      rewrite E2. eauto 8.
    + destruct (splice_inserts newLayers
                  (JsArray.findIndex (idIs dropId) newLayers + 1)
                  (withParentId dragged (Some (id dropLayer))))
        as (l1 & l2 & E1 & E2).
      rewrite E2. eauto 8.
Qed.

Lemma filter_twice {A} (f : A -> bool) (l : list A) :
  filter f (filter f l) = filter f l.
Proof.
  induction l as [|x l IH]; simpl; [reflexivity|].
  destruct (f x) eqn:E; simpl; rewrite ?E, IH; reflexivity.
Qed.

(** What a move keeps: the ids, the layers other than the dragged one and
    their order, and the dragged layer up to its parent. *)
Lemma reorderLayers_keeps :
  exists layers' dragged p,
    reorderLayers depth layers dragId dropId position layers = Ok layers'
    /\ Permutation (map id layers') (map id layers)
    /\ NoDup (map id layers')
    /\ filter (fun l => negb (idIs dragId l)) layers'
       = filter (fun l => negb (idIs dragId l)) layers
    /\ In dragged layers /\ id dragged = dragId
    /\ In (withParentId dragged p) layers'.
Proof.
  destruct reorderLayers_shape
    as (dragged & p & Gin & Gid & [E | (l1 & l2 & Ef & E)]).
  - exists layers, dragged, (parentId dragged).
    rewrite withParentId_same. auto 8.
  - exists (l1 ++ withParentId dragged p :: l2), dragged, p.
    assert (P : Permutation (map id (l1 ++ withParentId dragged p :: l2))
                            (map id layers)).
    { rewrite (ids_without layers dragged distinct Gin), Gid, Ef.
      rewrite !map_app. simpl. rewrite id_withParentId, Gid.
      symmetry. apply Permutation_middle. }
    split; [exact E|]. split; [exact P|]. split.
    { eapply Permutation_NoDup; [symmetry; exact P | exact distinct]. }
    split.
    { rewrite filter_app. simpl.
      rewrite idIs_withParentId. unfold idIs at 2.
      rewrite Gid, String.eqb_refl. simpl.
      rewrite <- filter_app, <- Ef. apply filter_twice. }
    split; [exact Gin|]. split; [exact Gid|].
    apply in_or_app. right. now left.
Qed.

End Reorder.

Section ReorderClaim.
Variable stringify : list Layer -> string.
Hypothesis stringify_inj : forall a b, stringify a = stringify b -> a = b.

(** C10. On a layer list with distinct ids, a move that is not rejected, of
    an existing layer relative to an existing layer, commits a list with the
    same ids, each once; the layers other than the dragged one are the same
    and in the same order; the dragged layer is there with all its fields
    except possibly [parentId]. *)
Theorem reorder_preserves (depth : nat) (app : App) (layers : list Layer)
  (dragId dropId : string) (position : Position) (ds : list string) :
  layersOf app = Some layers ->
  NoDup (map id layers) ->
  In dragId (map id layers) -> In dropId (map id layers) ->
  (forall l, In l layers -> id l = dropId -> parentId l <> Some dragId) ->
  getDescendantIds depth layers dragId = Ok ds -> ~ In dropId ds ->
  exists app' layers' dragged p,
    handleReorderAndReparentLayers stringify depth app dragId dropId position
    = Ok app'
    /\ layersOf app' = Some layers'
    /\ Permutation (map id layers') (map id layers)
    /\ NoDup (map id layers')
    /\ filter (fun l => negb (idIs dragId l)) layers'
       = filter (fun l => negb (idIs dragId l)) layers
    /\ In dragged layers /\ id dragged = dragId
    /\ In (withParentId dragged p) layers'.
Proof.
  intros Hl ND Hg Hd Hc Hds Hnd.
  destruct (reorderLayers_keeps depth layers dragId dropId position
              ND Hg Hd ds Hc Hds Hnd)
    as (layers' & dragged & p & E & K).
  unfold handleReorderAndReparentLayers.
  destruct (setLayers_updater stringify stringify_inj app
              (fun prev => prev <- defined prev ;;
                           reorderLayers depth prev dragId dropId position prev)
              layers layers' Hl E) as (h' & -> & Hh).
  exists (setLayersHistory app h'), layers', dragged, p.
  split; [reflexivity|]. split; [exact Hh | exact K].
Qed.

End ReorderClaim.

Lemma reorder_preserves_witness :
  exists app' layers' dragged p,
    handleReorderAndReparentLayers Wire.stringify 3
      (Sample.appWith Tree.layers []) "b" "a" before = Ok app'
    /\ layersOf app' = Some layers'
    /\ Permutation (map id layers') (map id Tree.layers)
    /\ NoDup (map id layers')
    /\ filter (fun l => negb (idIs "b" l)) layers'
       = filter (fun l => negb (idIs "b" l)) Tree.layers
    /\ In dragged Tree.layers /\ id dragged = "b"
    /\ In (withParentId dragged p) layers'.
Proof.
  apply (reorder_preserves Wire.stringify WireFacts.stringify_injective 3
           (Sample.appWith Tree.layers []) Tree.layers "b" "a" before []).
  - reflexivity.
  - repeat constructor; simpl; intuition discriminate.
  - simpl; auto.
  - simpl; auto.
  - intros l [<-|[<-|[<-|[<-|[]]]]]; simpl; intros; discriminate.
  - reflexivity.
  - simpl; tauto.
Defined.

Example reorder_tree :
  (app <- handleReorderAndReparentLayers Wire.stringify 3
            (Sample.appWith Tree.layers []) "b" "a" before ;;
   Ok (option_map (map (fun l => (id l, parentId l))) (layersOf app)))
  = Ok (Some [("g1", None); ("b", Some "g1"); ("a", Some "g1");
              ("g2", Some "g1")])
  /\ (app <- handleReorderAndReparentLayers Wire.stringify 3
               (Sample.appWith Tree.layers []) "a" "g2" inside ;;
      Ok (option_map (map (fun l => (id l, parentId l))) (layersOf app)))
     = Ok (Some [("g1", None); ("g2", Some "g1"); ("b", Some "g2");
                 ("a", Some "g2")]).
Proof. split; vm_compute; reflexivity. Qed.

(** ** Sorting and removing indices *)

Section Indices.
Import JsArray.

Lemma insertDesc_perm x l : Permutation (insertDesc x l) (x :: l).
Proof.
  induction l as [|y l IH]; simpl; [reflexivity|].
  destruct (y <? x); [reflexivity|].
  rewrite IH. apply perm_swap.
Qed.

Lemma sortDesc_perm l : Permutation (sortDesc l) l.
Proof.
  induction l as [|x l IH]; simpl; [reflexivity|].
  rewrite insertDesc_perm. now apply perm_skip.
Qed.

Lemma insertDesc_Desc x l : Desc l -> ~ In x l -> Desc (insertDesc x l).
Proof.
  unfold Desc. induction l as [|y l IH]; intros S N; simpl.
  - constructor; constructor.
  - inversion S as [|? ? S' F]; subst.
    destruct (Z.ltb_spec y x) as [L|L].
    + constructor; [exact S|]. constructor; [exact L|].
      eapply Forall_impl; [|exact F]. simpl; intros; lia.
    + constructor.
      * apply IH; [exact S'|]. intros Hin; apply N; now right.
      * eapply Permutation_Forall; [symmetry; apply insertDesc_perm|].
        constructor; [|exact F].
        assert (x <> y) by (intros ->; apply N; now left). lia.
Qed.

Lemma sortDesc_Desc l : NoDup l -> Desc (sortDesc l).
Proof.
  induction 1 as [|x l N ND IH]; simpl; [constructor|].
  apply insertDesc_Desc; [exact IH|].
  intros Hin. apply N. eapply Permutation_in; [apply sortDesc_perm | exact Hin].
Qed.

Context {A : Type}.
Implicit Types (l : list A).

Lemma compact_app (a b : list (option A)) :
  compact (a ++ b) = compact a ++ compact b.
Proof.
  induction a as [|[x|] a IH]; simpl; rewrite ?IH; reflexivity.
Qed.

Lemma compact_perm (a b : list (option A)) :
  Permutation a b -> Permutation (compact a) (compact b).
Proof.
  induction 1 as [|[x|] a b P IH|[x|] [y|] a|a b c P1 IH1 P2 IH2]; simpl;
    try reflexivity; try (now apply perm_skip); try (apply perm_swap); auto.
  now rewrite IH1.
Qed.

(** The element [findIndex] points to is the one [find] returns. *)
Lemma get_findIndex (p : A -> bool) l : get l (findIndex p l) = find p l.
Proof.
  induction l as [|x l IH]; simpl; [reflexivity|].
  destruct (p x); [reflexivity|].
  destruct (Z.ltb_spec (findIndex p l) 0) as [L|L].
  - rewrite <- IH. unfold get. simpl.
    destruct (Z.ltb_spec (findIndex p l) 0); [reflexivity | lia].
  - rewrite <- IH. unfold get.
    destruct (Z.ltb_spec (findIndex p l + 1) 0); [lia|].
    destruct (Z.ltb_spec (findIndex p l) 0); [lia|].
    replace (Z.to_nat (findIndex p l + 1)) with (S (Z.to_nat (findIndex p l)))
      by lia.
    reflexivity.
Qed.

Lemma get_split l i x :
  get l i = Some x ->
  l = firstn (Z.to_nat i) l ++ x :: skipn (S (Z.to_nat i)) l.
Proof.
  unfold get. destruct (Z.ltb_spec i 0); [discriminate|].
  generalize (Z.to_nat i) as n. clear.
  intros n; revert l. induction n as [|n IH]; intros [|y l] H; simpl in *;
    try discriminate.
  - now injection H as ->.
  - f_equal. now apply IH.
Qed.

Lemma get_firstn_app l l' i j :
  0 <= j < i -> i <= len l -> get (firstn (Z.to_nat i) l ++ l') j = get l j.
Proof.
  unfold get, len. intros Hj Hi.
  destruct (Z.ltb_spec j 0); [lia|].
  rewrite nth_error_app1 by (rewrite length_firstn; lia).
  rewrite nth_error_firstn.
  destruct (Nat.ltb_spec (Z.to_nat j) (Z.to_nat i)); [reflexivity | lia].
Qed.

(** Removing the elements at distinct positions, the highest first, takes
    out exactly those elements. *)
Lemma remove_descending (idxs : list Z) :
  forall l, Desc idxs -> (forall i, In i idxs -> 0 <= i < len l) ->
    Permutation
      (compact (map (get l) idxs)
         ++ fold_left (fun acc index => splice acc index 1 []) idxs l)
      l.
Proof.
  induction idxs as [|i js IH]; intros l D R; simpl; [reflexivity|].
  inversion D as [|? ? D' F]; subst.
  assert (Ri : 0 <= i < len l) by (apply R; now left).
  destruct (get l i) as [x|] eqn:E.
  2:{ unfold get, len in *. destruct (Z.ltb_spec i 0); [lia|].
      apply nth_error_None in E. lia. }
  rewrite JsArrayFacts.splice_remove by exact Ri.
  set (l' := firstn (Z.to_nat i) l ++ skipn (S (Z.to_nat i)) l).
  assert (M : map (get l) js = map (get l') js).
  { apply map_ext_in. intros j Hj. symmetry. apply get_firstn_app.
    - rewrite Forall_forall in F. specialize (F j Hj).
      specialize (R j (or_intror Hj)). lia.
    - lia. }
  rewrite M. simpl.
  transitivity (x :: l').
  2:{ unfold l'. etransitivity; [apply Permutation_middle|].
      now rewrite <- (get_split l i x E). }
  apply perm_skip.
  apply IH; [exact D'|].
  intros j Hj. rewrite Forall_forall in F. specialize (F j Hj).
  specialize (R j (or_intror Hj)).
  unfold l'. rewrite JsArrayFacts.len_app. unfold len in *.
  rewrite length_firstn, length_skipn. lia.
Qed.

End Indices.

(** ** Grouping and ungrouping *)

(** Inserting the members one after the other behind the group puts them
    there in their order. *)
Lemma insert_members {A B} (f : A -> B) (k : Z) (G : B) (ls : list A) :
  forall (pre done post : list B) (i : Z),
    JsArray.len pre = k -> i = JsArray.len done ->
    forEachIndexed
      (fun acc layer index => JsArray.splice acc (k + 1 + index) 0 [f layer])
      (pre ++ G :: done ++ post) ls i
    = pre ++ G :: (done ++ map f ls) ++ post.
Proof.
  induction ls as [|x ls IH]; intros pre done post i Hk Hi; simpl.
  - now rewrite app_nil_r.
  - assert (L : k + 1 + i = JsArray.len (pre ++ G :: done)).
    { rewrite JsArrayFacts.len_app, JsArrayFacts.len_cons. lia. }
    replace (pre ++ G :: done ++ post) with ((pre ++ G :: done) ++ post)
      by now rewrite <- app_assoc.
    rewrite JsArrayFacts.splice_insert.
    2:{ rewrite (JsArrayFacts.len_app (pre ++ G :: done) post).
        pose proof (JsArrayFacts.len_nonneg (pre ++ G :: done)).
        pose proof (JsArrayFacts.len_nonneg post). lia. }
    rewrite L. unfold JsArray.len. rewrite Nat2Z.id.
    rewrite firstn_app, firstn_all, Nat.sub_diag, app_nil_r.
    rewrite skipn_app, skipn_all, Nat.sub_diag. simpl.
    replace ((pre ++ G :: done) ++ f x :: post)
      with (pre ++ G :: (done ++ [f x]) ++ post)
      by (rewrite <- !app_assoc; reflexivity).
    rewrite IH; [|exact Hk|].
    + now rewrite <- !app_assoc.
    + rewrite JsArrayFacts.len_app. change (JsArray.len [f x]) with 1. lia.
Qed.

Section Selection.
Variable layers : list Layer.
Hypothesis distinct : NoDup (map id layers).

Lemma find_by_id k :
  In k (map id layers) ->
  exists x, find (idIs k) layers = Some x /\ In x layers /\ id x = k.
Proof.
  intros H. apply in_map_iff in H as (y & E & Hin).
  destruct (find (idIs k) layers) as [x|] eqn:F.
  - exists x. apply find_some in F as [? F]. apply idIs_true in F. auto.
  - eapply find_none in F; [|exact Hin].
    apply idIs_false in F. contradiction.
Qed.

(** With distinct ids, the layer with a given id is the one [find] returns. *)
Lemma find_unique x :
  In x layers -> find (idIs (id x)) layers = Some x.
Proof.
  intros Hin. revert distinct.
  induction layers as [|y l IH] in Hin |- *; [destruct Hin|].
  simpl. intros ND. inversion ND as [|? ? N ND']; subst.
  destruct Hin as [->|Hin].
  - unfold idIs. now rewrite String.eqb_refl.
  - destruct (idIs (id x) y) eqn:E; [|now apply IH].
    apply idIs_true in E. exfalso. apply N. rewrite E. now apply in_map.
Qed.

Variable sel : list string.
Hypothesis sel_found : forall k, In k sel -> In k (map id layers).

Local Abbreviation selected := (selectedLayers sel layers).
Local Abbreviation indices :=
  (map (fun k => JsArray.findIndex (idIs k) layers) sel).

Lemma selected_ids : map id selected = sel.
Proof.
  unfold selectedLayers. revert sel_found.
  induction sel as [|k ks IH]; intros F; simpl; [reflexivity|].
  destruct (find_by_id k) as (x & -> & _ & <-); [apply F; now left|].
  simpl. f_equal. apply IH. intros; apply F; now right.
Qed.

Lemma selected_In x : In x selected -> In x layers /\ In (id x) sel.
Proof.
  unfold selectedLayers. revert sel_found.
  induction sel as [|k ks IH]; intros F; simpl; [tauto|].
  destruct (find_by_id k) as (y & -> & Hy & <-); [apply F; now left|].
  simpl. intros [->|H]; [auto|].
  destruct IH as [? ?]; auto. intros; apply F; now right.
Qed.

Lemma indices_range i : In i indices -> 0 <= i < JsArray.len layers.
Proof.
  intros H. apply in_map_iff in H as (k & <- & Hk).
  destruct (find_by_id k (sel_found k Hk)) as (x & F & _).
  rewrite <- get_findIndex in F.
  now apply JsArrayFacts.get_Some_range in F.
Qed.

Lemma indices_found : filter (fun i => negb (i =? -1)) indices = indices.
Proof.
  apply forallb_filter_id, forallb_forall. intros i Hi.
  apply indices_range in Hi. apply negb_true_iff, Z.eqb_neq. lia.
Qed.

Lemma indices_elements : compact (map (JsArray.get layers) indices) = selected.
Proof.
  unfold selectedLayers. rewrite map_map. f_equal.
  apply map_ext. intros k. apply get_findIndex.
Qed.

Hypothesis sel_distinct : NoDup sel.

Lemma indices_distinct : NoDup indices.
Proof.
  apply NoDup_map_NoDup_ForallPairs; [|exact sel_distinct].
  intros a b Ha Hb E.
  destruct (find_by_id a (sel_found a Ha)) as (x & Fx & _ & <-).
  destruct (find_by_id b (sel_found b Hb)) as (y & Fy & _ & <-).
  rewrite <- get_findIndex in Fx, Fy. rewrite E in Fx. congruence.
Qed.

(** The layers that stay outside the group. *)
Local Abbreviation rest := (withoutIndices (selectedIndices sel layers) layers).

Lemma selected_rest : Permutation (selected ++ rest) layers.
Proof.
  unfold withoutIndices, selectedIndices. rewrite indices_found.
  rewrite <- indices_elements.
  transitivity
    (compact (map (JsArray.get layers) (JsArray.sortDesc indices))
       ++ fold_left (fun acc index => JsArray.splice acc index 1 [])
                    (JsArray.sortDesc indices) layers).
  - apply Permutation_app_tail, compact_perm, Permutation_map.
    symmetry. apply sortDesc_perm.
  - apply remove_descending.
    + apply sortDesc_Desc, indices_distinct.
    + intros i Hi. apply indices_range.
      eapply Permutation_in; [apply sortDesc_perm | exact Hi].
Qed.

Hypothesis sel_nonempty : sel <> [].

(** The layers after [handleGroupSelection]: the group, then the selected
    layers in the order of the selection, somewhere among the others. *)
Lemma groupLayers_shape (g : string) :
  exists pre post,
    groupLayers g sel layers
    = pre ++ newGroup g :: map (intoGroup g) selected ++ post
    /\ Permutation (selected ++ pre ++ post) layers.
Proof.
  unfold groupLayers.
  set (top := JsArray.findIndex _ layers).
  set (k := if JsArray.len rest <? top then JsArray.len rest else top).
  assert (Hk : 0 <= k <= JsArray.len rest).
  { assert (0 <= top).
    { unfold top. destruct sel as [|k0 ks]; [contradiction|].
      destruct (find_by_id k0) as (x & F & _); [apply sel_found; now left|].
      cbn. rewrite <- get_findIndex in F.
      apply JsArrayFacts.get_Some_range in F. exact (proj1 F). }
    unfold k. pose proof (JsArrayFacts.len_nonneg rest).
    destruct (Z.ltb_spec (JsArray.len rest) top); lia. }
  exists (firstn (Z.to_nat k) rest), (skipn (Z.to_nat k) rest).
  split.
  - rewrite JsArrayFacts.splice_insert by exact Hk.
    apply (insert_members
             (fun layer => withParentId layer (Some (id (newGroup g))))
             k (newGroup g) selected (firstn (Z.to_nat k) rest) []
             (skipn (Z.to_nat k) rest) 0).
    + unfold JsArray.len in *. rewrite length_firstn. lia.
    + reflexivity.
  - rewrite firstn_skipn. apply selected_rest.
Qed.

End Selection.

Section ListFacts.
Context {A : Type}.

Lemma map_fixed (f : A -> A) (l : list A) :
  (forall x, In x l -> f x = x) -> map f l = l.
Proof.
  intros H. rewrite <- (map_id l) at 2. now apply map_ext_in.
Qed.

Lemma filter_nothing (f : A -> bool) (l : list A) :
  (forall x, In x l -> f x = false) -> filter f l = [].
Proof.
  induction l as [|x l IH]; intros H; simpl; [reflexivity|].
  rewrite (H x) by now left. apply IH. intros; apply H; now right.
Qed.

Lemma filter_everything (f : A -> bool) (l : list A) :
  (forall x, In x l -> f x = true) -> filter f l = l.
Proof.
  intros H. now apply forallb_filter_id, forallb_forall.
Qed.

Lemma find_after (f : A -> bool) (pre : list A) (y : A) (post : list A) :
  (forall x, In x pre -> f x = false) -> f y = true ->
  find f (pre ++ y :: post) = Some y.
Proof.
  induction pre as [|x pre IH]; intros H Hy; simpl.
  - now rewrite Hy.
  - rewrite (H x) by now left. apply IH; [|exact Hy].
    intros; apply H; now right.
Qed.

End ListFacts.

(** Ungrouping the group just made gives back the layers it took in. *)
Lemma ungroupLayers_shape (g : string) (pre post selected : list Layer) :
  (forall l, In l (pre ++ post) -> id l <> g /\ parentId l <> Some g) ->
  (forall l, In l selected -> id l <> g /\ parentId l = None) ->
  ungroupLayers [g] (pre ++ newGroup g :: map (intoGroup g) selected ++ post)
  = (pre ++ selected ++ post, map id selected).
Proof.
  intros Ho Hs.
  assert (Hpre : forall l, In l pre -> id l <> g /\ parentId l <> Some g)
    by (intros; apply Ho, in_or_app; now left).
  assert (Hpost : forall l, In l post -> id l <> g /\ parentId l <> Some g)
    by (intros; apply Ho, in_or_app; now right).
  assert (Np : forall l, id l <> g /\ parentId l <> Some g -> parentIs g l = false).
  { intros l [_ N]. destruct (parentIs g l) eqn:E; [|reflexivity].
    now apply parentIs_true in E. }
  assert (Ni : forall l, id l <> g -> negb (idIs g l) = true).
  { intros l N. now apply negb_true_iff, idIs_false. }
  unfold ungroupLayers. simpl. f_equal.
  - rewrite !map_app. simpl. rewrite map_app, map_map.
    rewrite (map_fixed _ pre), (map_fixed _ post), (map_fixed _ selected).
    + rewrite !filter_app. simpl. unfold idIs at 2. simpl.
      rewrite String.eqb_refl. simpl. rewrite filter_app.
      rewrite !filter_everything; auto.
      * intros l Hl. apply Ni, Hpost, Hl.
      * intros l Hl. apply Ni, Hs, Hl.
      * intros l Hl. apply Ni, Hpre, Hl.
    + intros l Hl. unfold intoGroup, parentIs.
      rewrite parentId_withParentId, String.eqb_refl, withParentId_twice.
      destruct (Hs l Hl) as [_ <-]. apply withParentId_same.
    + intros l Hl. now rewrite (Np l (Hpost l Hl)).
    + intros l Hl. now rewrite (Np l (Hpre l Hl)).
  - rewrite !filter_app. simpl. rewrite filter_app.
    rewrite (filter_nothing _ pre), (filter_nothing _ post).
    + rewrite filter_everything.
      * simpl. rewrite app_nil_r, map_map. apply map_ext.
        intros l. apply id_withParentId.
      * intros l Hl. apply in_map_iff in Hl as (l0 & <- & _).
        unfold intoGroup, parentIs.
        now rewrite parentId_withParentId, String.eqb_refl.
    + intros l Hl. apply Np, Hpost, Hl.
    + intros l Hl. apply Np, Hpre, Hl.
Qed.

Section GroupUngroup.
Variable stringify : list Layer -> string.
Hypothesis stringify_inj : forall a b, stringify a = stringify b -> a = b.

(** With one selected id, which names a group, [handleUngroupSelection]
    ungroups that group. *)
Lemma handleUngroupSelection_one (app : App) (L : list Layer) (g : string)
  (G : Layer) :
  layersOf app = Some L -> selectedIds app = [g] ->
  find (idIs g) L = Some G -> isGroup G = true ->
  handleUngroupSelection stringify app
  = (app' <- setLayers stringify app
               (Updater (fun prev =>
                  prevLayers <- defined prev ;;
                  Ok (fst (ungroupLayers [g] prevLayers)))) ;;
     Ok (setSelectedIds app' (snd (ungroupLayers [g] L)))).
Proof.
  intros Hl Hs F HG. unfold handleUngroupSelection.
  rewrite Hl, Hs. cbn [defined bind filter]. rewrite F, HG. reflexivity.
Qed.

(** C6. Take a non-empty selection, without repetition, of ids of top-level
    layers of the store, and a group id that no layer has or refers to.
    [handleGroupSelection] selects the new group; [handleUngroupSelection]
    then leaves the layers of the original store, each with the fields it had
    (so top-level again), in a possibly different order, without the group;
    and it selects the released layers, which are the ones selected at first. *)
Theorem group_then_ungroup (app : App) (layers : list Layer) (newGroupId : string) :
  layersOf app = Some layers ->
  selectedIds app <> [] ->
  NoDup (selectedIds app) ->
  (forall k, In k (selectedIds app) -> In k (map id layers)) ->
  (forall l, In l layers -> In (id l) (selectedIds app) -> parentId l = None) ->
  (forall l, In l layers -> id l <> newGroupId /\ parentId l <> Some newGroupId) ->
  exists app1 app2 layers2,
    handleGroupSelection stringify newGroupId app = Ok app1
    /\ selectedIds app1 = [newGroupId]
    /\ handleUngroupSelection stringify app1 = Ok app2
    /\ layersOf app2 = Some layers2
    /\ Permutation layers2 layers
    /\ (forall l, In l layers2 -> id l <> newGroupId)
    /\ (forall k, In k (selectedIds app) ->
          exists l, In l layers2 /\ id l = k /\ parentId l = None)
    /\ selectedIds app2 = selectedIds app.
Proof.
  intros Hl Hne NDs Hfound Htop Hfresh.
  set (sel := selectedIds app) in *.
  set (selected := selectedLayers sel layers).
  destruct (groupLayers_shape layers sel Hfound NDs Hne newGroupId)
    as (pre & post & Eg & P).
  fold selected in Eg, P.
  assert (Hin : forall l, In l (selected ++ pre ++ post) -> In l layers)
    by (intros l; apply Permutation_in, P).
  assert (Hsel : forall l, In l selected ->
                   id l <> newGroupId /\ parentId l = None).
  { intros l H. destruct (selected_In layers sel Hfound l H) as [I S].
    split; [apply Hfresh, I | apply Htop; assumption]. }
  assert (Hout : forall l, In l (pre ++ post) ->
                   id l <> newGroupId /\ parentId l <> Some newGroupId).
  { intros l H. apply Hfresh, Hin, in_or_app. now right. }
  (* grouping *)
  unfold handleGroupSelection. fold sel.
  assert (L : (JsArray.len sel <? 1) = false).
  { destruct sel; [contradiction|]. rewrite JsArrayFacts.len_cons.
    pose proof (JsArrayFacts.len_nonneg sel). apply Z.ltb_ge. lia. }
  rewrite L.
  destruct (setLayers_updater stringify stringify_inj app
              (fun prev => prevLayers <- defined prev ;;
                           Ok (groupLayers newGroupId sel prevLayers))
              layers _ Hl eq_refl) as (h1 & -> & Hh1).
  simpl. rewrite Eg in Hh1.
  set (L1 := pre ++ newGroup newGroupId
                 :: map (intoGroup newGroupId) selected ++ post) in *.
  set (app1 := setSelectedIds (setLayersHistory app h1) [newGroupId]).
  assert (Hl1 : layersOf app1 = Some L1) by exact Hh1.
  (* ungrouping *)
  assert (F : find (idIs newGroupId) L1 = Some (newGroup newGroupId)).
  { apply find_after.
    - intros x Hx. apply idIs_false, Hout, in_or_app. now left.
    - apply String.eqb_refl. }
  assert (U : ungroupLayers [newGroupId] L1
              = (pre ++ selected ++ post, map id selected))
    by (apply ungroupLayers_shape; assumption).
  assert (Hu : exists h2,
             handleUngroupSelection stringify app1
             = Ok (setSelectedIds (setLayersHistory app1 h2) (map id selected))
             /\ state h2 = Some (pre ++ selected ++ post)).
  { rewrite (handleUngroupSelection_one app1 L1 newGroupId
               (newGroup newGroupId) Hl1 eq_refl F eq_refl).
    destruct (setLayers_updater stringify stringify_inj app1
                (fun prev => prevLayers <- defined prev ;;
                             Ok (fst (ungroupLayers [newGroupId] prevLayers)))
                L1 (pre ++ selected ++ post) Hl1) as (h2 & -> & Hh2).
    { cbn [defined bind]. now rewrite U. }
    cbn [bind]. rewrite U. cbn [snd]. eauto. }
  destruct Hu as (h2 & Eu & Hh2).
  assert (P2 : Permutation (pre ++ selected ++ post) layers).
  { rewrite <- P. apply Permutation_app_swap_app. }
  exists app1, (setSelectedIds (setLayersHistory app1 h2) (map id selected)),
    (pre ++ selected ++ post).
  split; [reflexivity|]. split; [reflexivity|]. split; [exact Eu|].
  split; [exact Hh2|]. split; [exact P2|]. split; [|split].
  - intros l H. apply Hfresh. eapply Permutation_in; [exact P2 | exact H].
  - intros k Hk. destruct (find_by_id layers k (Hfound k Hk)) as (x & _ & I & E).
    exists x. split; [|split; [exact E|]].
    + eapply Permutation_in; [symmetry; exact P2 | exact I].
    + apply Htop; [exact I|]. now rewrite E.
  - simpl. apply selected_ids, Hfound.
Qed.

End GroupUngroup.

Lemma group_then_ungroup_witness :
  exists app1 app2 layers2,
    handleGroupSelection Wire.stringify "group-1" Trio.app = Ok app1
    /\ selectedIds app1 = ["group-1"]
    /\ handleUngroupSelection Wire.stringify app1 = Ok app2
    /\ layersOf app2 = Some layers2
    /\ Permutation layers2 Trio.layers
    /\ (forall l, In l layers2 -> id l <> "group-1")
    /\ (forall k, In k (selectedIds Trio.app) ->
          exists l, In l layers2 /\ id l = k /\ parentId l = None)
    /\ selectedIds app2 = selectedIds Trio.app.
Proof.
  apply (group_then_ungroup Wire.stringify WireFacts.stringify_injective
           Trio.app Trio.layers "group-1").
  - reflexivity.
  - discriminate.
  - repeat constructor; simpl; intuition discriminate.
  - simpl. intros k [<-|[<-|[]]]; auto.
  - intros l [<-|[<-|[<-|[]]]] _; reflexivity.
  - intros l [<-|[<-|[<-|[]]]]; split; discriminate.
Defined.

Example group_then_ungroup_trio :
  (app1 <- handleGroupSelection Wire.stringify "group-1" Trio.app ;;
   app2 <- handleUngroupSelection Wire.stringify app1 ;;
   Ok (option_map (map (fun l => (id l, parentId l))) (layersOf app1),
       option_map (map (fun l => (id l, parentId l))) (layersOf app2),
       selectedIds app2,
       currentIndex (layersHistory app2)))
  = Ok (Some [("initial-element-1", None); ("group-1", None);
              ("b", Some "group-1"); ("a", Some "group-1")],
        Some [("initial-element-1", None); ("b", None); ("a", None)],
        ["b"; "a"],
        2).
Proof. vm_compute. reflexivity. Qed.

(** ** The history of the sample application *)

(** The history on which C1 fails is the one the application has after the
    first text layer is added. *)
Example edited_is_committed :
  committed Wire.stringify (layersHistory Keys.edited)
  /\ canUndo (layersHistory Keys.edited) = true
  /\ state (redo (undo (layersHistory Keys.edited))) = None.
Proof.
  split; [|split; reflexivity].
  apply committed_step
    with (h := useHistory Sample.initialLayers)
         (a := Updater (fun prev =>
                  prev <- defined prev ;;
                  Ok (LText (Sample.newText "1" 10%float 20%float) :: prev))).
  - apply committed_init.
  - reflexivity.
Qed.

(** * Further properties of the code *)

(** ** The history: commits, undo and the pointer *)

Section HistoryMore.
Context {T : Type}.
Variable stringify : T -> string.
Implicit Types (h : History T).

Lemma wf_undo h : wf h -> wf (undo h).
Proof.
  unfold wf, undo. intros W. destruct (Z.ltb_spec 0 (currentIndex h)); simpl; lia.
Qed.

Lemma state_undo_pushed h s cur :
  state h = Some cur -> state (undo (pushed h s)) = Some cur.
Proof.
  intros Hs. pose proof (state_wf _ _ Hs) as W. unfold wf, JsArray.len in W.
  unfold undo, pushed. simpl.
  destruct (Z.ltb_spec 0 (currentIndex h + 1)); [|lia].
  unfold state in *. simpl.
  replace (currentIndex h + 1 - 1) with (currentIndex h) by lia.
  unfold JsArray.get in *. destruct (Z.ltb_spec (currentIndex h) 0); [lia|].
  rewrite nth_error_app1 by (rewrite length_firstn; lia).
  rewrite nth_error_firstn.
  destruct (Nat.ltb_spec (Z.to_nat (currentIndex h))
              (Z.to_nat (currentIndex h) + 1)); [exact Hs | lia].
Qed.

(** Every history reached from the initial one by commits and [undo] has its
    pointer on an entry of the stack, so that the current state is defined. *)
Theorem withoutRedo_state_defined h :
  withoutRedo stringify h -> wf h /\ exists s, state h = Some s.
Proof.
  intros R. assert (W : wf h).
  { induction R; eauto using wf_useHistory, setState_wf, wf_undo. }
  split; [exact W | now apply wf_state].
Qed.

(** From a history whose pointer is on an entry and can move back, [undo]
    followed by [redo] never gives the history back: the stack is the same
    and the pointer is two entries lower. *)
Theorem undo_redo_two_back h :
  wf h -> canUndo h = true ->
  history (redo (undo h)) = history h
  /\ currentIndex (redo (undo h)) = currentIndex h - 2
  /\ redo (undo h) <> h.
Proof.
  unfold wf, canUndo, redo, undo. intros W C. rewrite C. simpl.
  destruct (Z.ltb_spec (currentIndex h - 1) (JsArray.len (history h) - 1));
    [|lia].
  simpl. repeat split; [lia|].
  intros E. apply (f_equal currentIndex) in E. simpl in E. lia.
Qed.

(** A commit of a state whose JSON text differs from the text of the current
    one can be undone: [undo] brings the earlier state back; after the commit
    there is nothing to redo, whatever had been undone before it. *)
Theorem commit_then_undo h (action : SetStateAction T) (cur newState : T) :
  state h = Some cur ->
  match action with Value v => Ok v | Updater f => f (Some cur) end
    = Ok newState ->
  stringify newState <> stringify cur ->
  exists h',
    setState stringify h action = Ok h'
    /\ state h' = Some newState
    /\ canUndo h' = true /\ canRedo h' = false
    /\ state (undo h') = Some cur
    /\ canRedo (undo h') = true.
Proof.
  intros Hs Ha N. pose proof (state_wf _ _ Hs) as W.
  exists (pushed h newState).
  assert (E : setState stringify h action = Ok (pushed h newState)).
  { assert (E : setState stringify h action
                = setState stringify h (Value newState)).
    { destruct action as [v|f].
      - now injection Ha as ->.
      - now apply setState_updater with (cur := cur). }
    rewrite E, (setState_value _ _ _ _ Hs).
    apply String.eqb_neq in N. now rewrite N. }
  assert (L : JsArray.len (history (pushed h newState)) = currentIndex h + 2).
  { unfold pushed; simpl. rewrite JsArrayFacts.len_app. unfold JsArray.len.
    rewrite length_firstn. simpl. unfold wf, JsArray.len in W. lia. }
  unfold wf in W.
  split; [exact E|]. split; [now apply state_pushed|].
  split; [unfold canUndo; simpl; apply Z.ltb_lt; lia|].
  split; [unfold canRedo; rewrite L; simpl; apply Z.ltb_ge; lia|].
  split; [now apply state_undo_pushed|].
  unfold canRedo, undo. simpl.
  destruct (Z.ltb_spec 0 (currentIndex h + 1)); [|lia].
  cbn [history currentIndex]. fold (pushed h newState) in L.
  change (history (pushed h newState))
    with (firstn (Z.to_nat (currentIndex h) + 1) (history h) ++ [newState]) in L.
  rewrite L. apply Z.ltb_lt. lia.
Qed.

End HistoryMore.

Lemma withoutRedo_state_defined_witness :
  wf (undo (layersHistory Keys.edited))
  /\ exists s, state (undo (layersHistory Keys.edited)) = Some s.
Proof.
  apply (withoutRedo_state_defined Wire.stringify).
  apply withoutRedo_undo.
  apply withoutRedo_setState
    with (h := useHistory Sample.initialLayers)
         (a := Updater (fun prev =>
                  prev <- defined prev ;;
                  Ok (LText (Sample.newText "1" 10%float 20%float) :: prev))).
  - apply withoutRedo_init.
  - reflexivity.
Defined.

Lemma undo_redo_two_back_witness :
  history (redo (undo (layersHistory Keys.edited)))
  = history (layersHistory Keys.edited)
  /\ currentIndex (redo (undo (layersHistory Keys.edited))) = 1 - 2
  /\ redo (undo (layersHistory Keys.edited)) <> layersHistory Keys.edited.
Proof.
  apply (undo_redo_two_back (layersHistory Keys.edited)).
  - unfold wf. simpl. unfold JsArray.len. simpl. lia.
  - reflexivity.
Defined.

Lemma commit_then_undo_witness :
  exists h',
    setState Json.stringify (useHistory Sample.initialLayers)
      (Value (LText (Sample.newText "1" 10%float 20%float) :: Sample.initialLayers))
    = Ok h'
    /\ state h'
       = Some (LText (Sample.newText "1" 10%float 20%float) :: Sample.initialLayers)
    /\ canUndo h' = true /\ canRedo h' = false
    /\ state (undo h') = Some Sample.initialLayers
    /\ canRedo (undo h') = true.
Proof.
  apply (commit_then_undo Json.stringify
           (useHistory Sample.initialLayers)
           (Value (LText (Sample.newText "1" 10%float 20%float)
                     :: Sample.initialLayers))
           Sample.initialLayers
           (LText (Sample.newText "1" 10%float 20%float) :: Sample.initialLayers));
    [reflexivity | reflexivity | vm_compute; discriminate].
Defined.

(** ** What the traversal lists *)

Section CollectFacts.
Context {A B : Type}.
Variable f : A -> result (list B).

Lemma collect_parts (l : list A) (zs : list B) :
  collect f l = Ok zs ->
  forall x, In x l -> exists ys, f x = Ok ys /\ incl ys zs.
Proof.
  revert zs. induction l as [|a l IH]; intros zs H x Hx; [destruct Hx|].
  simpl in H. destruct (f a) as [ys|e] eqn:Ea; [|discriminate]. simpl in H.
  destruct (collect f l) as [ws|e] eqn:El; [|discriminate]. simpl in H.
  injection H as <-. destruct Hx as [->|Hx].
  - exists ys. split; [exact Ea | now apply incl_appl].
  - destruct (IH ws eq_refl x Hx) as (vs & Ev & Hv).
    exists vs. split; [exact Ev | now apply incl_appr].
Qed.

Lemma collect_origin (l : list A) (zs : list B) :
  collect f l = Ok zs ->
  forall z, In z zs -> exists x ys, In x l /\ f x = Ok ys /\ In z ys.
Proof.
  revert zs. induction l as [|a l IH]; intros zs H z Hz.
  - injection H as <-. destruct Hz.
  - simpl in H. destruct (f a) as [ys|e] eqn:Ea; [|discriminate]. simpl in H.
    destruct (collect f l) as [ws|e] eqn:El; [|discriminate]. simpl in H.
    injection H as <-. apply in_app_or in Hz as [Hz|Hz].
    + exists a, ys. split; [now left | auto].
    + destruct (IH ws eq_refl z Hz) as (x & vs & Hx & Ev & Hv).
      exists x, vs. split; [now right | auto].
Qed.

End CollectFacts.

Section Listed.
Variable layers : list Layer.

Lemma getDescendantIds_complete k l :
  Descendant layers k l ->
  forall depth ds, getDescendantIds depth layers k = Ok ds -> In (id l) ds.
Proof.
  induction 1 as [k l Hin Hp | k c l Hin Hp Hg _ IH]; intros depth ds H;
    (destruct depth as [|d]; [discriminate|]); simpl in H.
  - destruct (collect_parts _ _ _ H l) as (ys & Ey & Hy).
    { apply filter_In. split; [exact Hin | now apply parentIs_true]. }
    destruct (if isGroup l then _ else _) as [sub|e]; [|discriminate].
    injection Ey as <-. apply Hy. now left.
  - destruct (collect_parts _ _ _ H c) as (ys & Ey & Hy).
    { apply filter_In. split; [exact Hin | now apply parentIs_true]. }
    rewrite Hg in Ey.
    destruct (getDescendantIds d layers (id c)) as [sub|e] eqn:Es;
      [|discriminate].
    injection Ey as <-. apply Hy. right. now apply (IH d).
Qed.

Lemma getDescendantIds_sound depth :
  forall k ds, getDescendantIds depth layers k = Ok ds ->
    forall x, In x ds -> exists l, Descendant layers k l /\ id l = x.
Proof.
  induction depth as [|d IH]; intros k ds H x Hx; [discriminate|].
  simpl in H. destruct (collect_origin _ _ _ H x Hx) as (c & ys & Hc & Ey & Hy).
  apply filter_In in Hc as [Hin Hp]. apply parentIs_true in Hp.
  destruct (isGroup c) eqn:Hg.
  - destruct (getDescendantIds d layers (id c)) as [sub|e] eqn:Es;
      [|discriminate].
    injection Ey as <-. destruct Hy as [<-|Hy].
    + exists c. split; [now apply Descendant_child | reflexivity].
    + destruct (IH _ _ Es x Hy) as (l & Hl & El).
      exists l. split; [|exact El].
      now apply Descendant_deeper with (c := c).
  - injection Ey as <-. destruct Hy as [<-|[]].
    exists c. split; [now apply Descendant_child | reflexivity].
Qed.

End Listed.

(** When [getDescendantIds] returns, it lists exactly the ids of the layers
    below [layerId]: the children of [layerId], and the layers below those of
    its children that are groups. *)
Theorem getDescendantIds_exact (depth : nat) (layers : list Layer)
  (layerId : string) (ds : list string) :
  getDescendantIds depth layers layerId = Ok ds ->
  (forall x, In x ds -> exists l, Descendant layers layerId l /\ id l = x)
  /\ (forall l, Descendant layers layerId l -> In (id l) ds).
Proof.
  intros H. split.
  - now apply getDescendantIds_sound with (depth := depth).
  - intros l D. exact (getDescendantIds_complete layers layerId l D depth ds H).
Qed.

Lemma getDescendantIds_exact_witness :
  (forall x, In x ["a"; "g2"; "b"] ->
     exists l, Descendant Tree.layers "g1" l /\ id l = x)
  /\ (forall l, Descendant Tree.layers "g1" l -> In (id l) ["a"; "g2"; "b"]).
Proof.
  apply (getDescendantIds_exact 3 Tree.layers "g1" ["a"; "g2"; "b"]).
  reflexivity.
Defined.

(** The traversal of the layers panel and the one of [App] are the same
    function: at every depth of stack both throw, or both return the same
    list. *)
Theorem descendants_copies_agree (depth : nat) (layers : list Layer)
  (layerId : string) :
  panelGetDescendantIds depth layers layerId
  = getDescendantIds depth layers layerId.
Proof.
  unfold panelGetDescendantIds. rewrite findChildren_getDescendantIds.
  now destruct (getDescendantIds depth layers layerId).
Qed.

(** ** Deleting the selection *)

Section Deleting.
Variable stringify : list Layer -> string.
Hypothesis stringify_inj : forall a b, stringify a = stringify b -> a = b.

(** [handleDeleteSelected] does nothing on an empty selection. Otherwise,
    when the traversals return, it commits the layers whose id is neither
    selected nor listed by a traversal, in their order, and empties the
    selection: no layer that stays has a selected id or hangs below one, and a
    layer stays when no selected layer and no layer below one has its id. *)
Theorem deleteSelected_cascade (depth : nat) (app : App) (layers : list Layer)
  (descs : list string) :
  layersOf app = Some layers ->
  collect (getDescendantIds depth layers) (selectedIds app) = Ok descs ->
  (selectedIds app = [] -> handleDeleteSelected stringify depth app = Ok app)
  /\ (selectedIds app <> [] ->
      exists app' layers',
        handleDeleteSelected stringify depth app = Ok app'
        /\ layersOf app' = Some layers'
        /\ selectedIds app' = []
        /\ layers'
           = filter (fun l => negb (JsArray.includes (selectedIds app ++ descs)
                                                     (id l)))
                    layers
        /\ (forall l, In l layers' ->
              ~ In (id l) (selectedIds app)
              /\ forall k, In k (selectedIds app) -> ~ Descendant layers k l)
        /\ (forall l, In l layers -> ~ In (id l) (selectedIds app) ->
              (forall k l', In k (selectedIds app) -> Descendant layers k l' ->
                            id l' <> id l) ->
              In l layers')).
Proof.
  intros Hl Hc. split.
  - intros E. unfold handleDeleteSelected. now rewrite E.
  - intros Hne. unfold handleDeleteSelected.
    assert (L : (0 <? JsArray.len (selectedIds app)) = true).
    { destruct (selectedIds app); [contradiction|].
      rewrite JsArrayFacts.len_cons.
      pose proof (JsArrayFacts.len_nonneg l). apply Z.ltb_lt. lia. }
    rewrite L, Hl. cbn [defined bind]. rewrite Hc. cbn [bind].
    set (keep := fun l => negb (JsArray.includes (selectedIds app ++ descs) (id l))).
    destruct (setLayers_updater stringify stringify_inj app
                (fun prev => prev <- defined prev ;; Ok (filter keep prev))
                layers _ Hl eq_refl) as (h' & -> & Hh).
    cbn [bind]. do 2 eexists. split; [reflexivity|].
    split; [exact Hh|]. split; [reflexivity|]. split; [reflexivity|].
    assert (K : forall l, keep l = true <-> ~ In (id l) (selectedIds app ++ descs)).
    { intros l. unfold keep. rewrite negb_true_iff.
      rewrite <- includes_In. now destruct (JsArray.includes _ _). }
    split.
    + intros l Hin. apply filter_In in Hin as [Hin Hk]. apply K in Hk.
      split; [intros H; apply Hk, in_or_app; now left|].
      intros k Hsel D. apply Hk, in_or_app. right.
      destruct (collect_parts _ _ _ Hc k Hsel) as (ys & Ey & Hy).
      apply Hy.
      exact (getDescendantIds_complete layers k l D depth ys Ey).
    + intros l Hin Hns Hnd. apply filter_In. split; [exact Hin|].
      apply K. intros H. apply in_app_or in H as [H|H]; [contradiction|].
      destruct (collect_origin _ _ _ Hc _ H) as (k & ys & Hk & Ey & Hy).
      destruct (getDescendantIds_sound layers depth k ys Ey _ Hy)
        as (l' & D & E).
      exact (Hnd k l' Hk D E).
Qed.

End Deleting.

Lemma deleteSelected_cascade_witness :
  exists app' layers',
    handleDeleteSelected Wire.stringify 3
      (Sample.appWith (Tree.layers ++ Sample.initialLayers) ["g1"]) = Ok app'
    /\ layersOf app' = Some layers'
    /\ selectedIds app' = []
    /\ layers'
       = filter (fun l => negb (JsArray.includes
                                  (["g1"] ++ ["a"; "g2"; "b"]) (id l)))
                (Tree.layers ++ Sample.initialLayers)
    /\ (forall l, In l layers' ->
          ~ In (id l) ["g1"]
          /\ forall k, In k ["g1"] ->
               ~ Descendant (Tree.layers ++ Sample.initialLayers) k l)
    /\ (forall l, In l (Tree.layers ++ Sample.initialLayers) ->
          ~ In (id l) ["g1"] ->
          (forall k l', In k ["g1"] ->
             Descendant (Tree.layers ++ Sample.initialLayers) k l' ->
             id l' <> id l) ->
          In l layers').
Proof.
  apply (deleteSelected_cascade Wire.stringify WireFacts.stringify_injective 3
           (Sample.appWith (Tree.layers ++ Sample.initialLayers) ["g1"])
           (Tree.layers ++ Sample.initialLayers) ["a"; "g2"; "b"]);
    [reflexivity | reflexivity | discriminate].
Defined.

Example deleteSelected_group :
  (app <- handleDeleteSelected Wire.stringify 3
            (Sample.appWith (Tree.layers ++ Sample.initialLayers) ["g1"]) ;;
   Ok (layersOf app, selectedIds app))
  = Ok (Some Sample.initialLayers, []).
Proof. vm_compute. reflexivity. Qed.

(** ** Edits of single fields *)







Section Visibility.
Variable stringify : list Layer -> string.
Hypothesis stringify_inj : forall a b, stringify a = stringify b -> a = b.


End Visibility.


Lemma toggleExpanded_shape k l :
  id (toggleExpanded k l) = id l /\ parentId (toggleExpanded k l) = parentId l
  /\ type (toggleExpanded k l) = type l.
Proof.
  destruct l as [e|e|g]; simpl; auto. now destruct (String.eqb (Group.id g) k).
Qed.

Lemma toggleExpanded_twice k l : toggleExpanded k (toggleExpanded k l) = l.
Proof.
  destruct l as [e|e|[i n v x p]]; simpl; auto.
  destruct (String.eqb i k) eqn:E; simpl; rewrite E; [|reflexivity].
  now rewrite negb_involutive.
Qed.

Lemma updateText_shape k patch l :
  id (updateText k patch l) = id l
  /\ parentId (updateText k patch l) = parentId l
  /\ type (updateText k patch l) = type l.
Proof.
  destruct l as [e|e|g]; simpl; auto. now destruct (String.eqb (Text.id e) k).
Qed.

Lemma spreadProps_shape l props :
  id (spreadProps l props) = id l
  /\ parentId (spreadProps l props) = parentId l
  /\ type (spreadProps l props) = type l.
Proof. now destruct l. Qed.

Lemma withName_shape l n :
  id (withName l n) = id l /\ parentId (withName l n) = parentId l
  /\ type (withName l n) = type l.
Proof. now destruct l. Qed.

Lemma skeleton_map (f : Layer -> Layer) (layers : list Layer) :
  (forall l, id (f l) = id l /\ parentId (f l) = parentId l
             /\ type (f l) = type l) ->
  skeleton (map f layers) = skeleton layers.
Proof.
  intros H. unfold skeleton. rewrite map_map. apply map_ext.
  intros l. now destruct (H l) as (-> & -> & ->).
Qed.

Section FieldEdits.
Variable stringify : list Layer -> string.
Hypothesis stringify_inj : forall a b, stringify a = stringify b -> a = b.

(** Renaming a layer, expanding or collapsing a group, a move, resize or
    rotation of an element and an edit of text properties all commit a list
    with the same layers in the same order as far as id, kind and parent go:
    none of them adds, removes, reorders or re-parents a layer. *)
Theorem field_edits_keep_skeleton (app : App) (layers : list Layer) (k : string)
  (newName : string) (props : Props) (patch : TextPatch) :
  layersOf app = Some layers ->
  (exists app' layers',
     handleRenameLayer stringify app k newName = Ok app'
     /\ layersOf app' = Some layers' /\ skeleton layers' = skeleton layers)
  /\ (exists app' layers',
        handleToggleGroupExpanded stringify app k = Ok app'
        /\ layersOf app' = Some layers' /\ skeleton layers' = skeleton layers)
  /\ (exists app' layers',
        handleElementUpdate stringify app k props = Ok app'
        /\ layersOf app' = Some layers' /\ skeleton layers' = skeleton layers)
  /\ (exists app' layers',
        handleUpdateTextProps stringify app k patch = Ok app'
        /\ layersOf app' = Some layers' /\ skeleton layers' = skeleton layers).
Proof.
  intros Hl.
  assert (Step : forall f : Layer -> Layer,
            (forall l, id (f l) = id l /\ parentId (f l) = parentId l
                       /\ type (f l) = type l) ->
            exists app' layers',
              setLayers stringify app
                (Updater (fun prev => prev <- defined prev ;; Ok (map f prev)))
              = Ok app'
              /\ layersOf app' = Some layers'
              /\ skeleton layers' = skeleton layers).
  { intros f Hf.
    destruct (setLayers_updater stringify stringify_inj app
                (fun prev => prev <- defined prev ;; Ok (map f prev))
                layers _ Hl eq_refl) as (h' & -> & Hh).
    do 2 eexists. split; [reflexivity|]. split; [exact Hh|].
    now apply skeleton_map. }
  split; [|split; [|split]].
  - apply Step. intros l. destruct (idIs k l); [apply withName_shape | auto].
  - apply Step. apply toggleExpanded_shape.
  - apply Step. intros l.
    destruct (idIs k l && isElement l); [apply spreadProps_shape | auto].
  - apply Step. apply updateText_shape.
Qed.

(** Expanding or collapsing a group twice brings the layers back, and a
    call with the id of a layer that is not a group changes no layer. *)
Theorem toggleGroupExpanded_twice (app : App) (layers : list Layer) (k : string) :
  layersOf app = Some layers ->
  exists app1 app2,
    handleToggleGroupExpanded stringify app k = Ok app1
    /\ handleToggleGroupExpanded stringify app1 k = Ok app2
    /\ layersOf app2 = Some layers
    /\ ((forall l, In l layers -> id l = k -> isGroup l = false) ->
        layersOf app1 = Some layers).
Proof.
  intros Hl. unfold handleToggleGroupExpanded.
  destruct (setLayers_updater stringify stringify_inj app
              (fun prev => prev <- defined prev ;; Ok (map (toggleExpanded k) prev))
              layers _ Hl eq_refl) as (h1 & E1 & Hh1).
  destruct (setLayers_updater stringify stringify_inj (setLayersHistory app h1)
              (fun prev => prev <- defined prev ;; Ok (map (toggleExpanded k) prev))
              (map (toggleExpanded k) layers) _ Hh1 eq_refl) as (h2 & E2 & Hh2).
  exists (setLayersHistory app h1),
    (setLayersHistory (setLayersHistory app h1) h2).
  split; [exact E1|]. split; [exact E2|]. split.
  - unfold layersOf; simpl. rewrite Hh2. f_equal.
    rewrite map_map. apply map_fixed. intros; apply toggleExpanded_twice.
  - intros Hng. unfold layersOf; simpl. rewrite Hh1. f_equal.
    apply map_fixed. intros l Hin. destruct l as [e|e|g]; auto. simpl.
    destruct (String.eqb_spec (Group.id g) k) as [E|E]; [|reflexivity].
    now specialize (Hng _ Hin E).
Qed.

End FieldEdits.

Lemma field_edits_keep_skeleton_witness :
  (exists app' layers',
     handleRenameLayer Wire.stringify (Sample.appWith Resize.layers []) "el-1"
                       "Title" = Ok app'
     /\ layersOf app' = Some layers' /\ skeleton layers' = skeleton Resize.layers)
  /\ (exists app' layers',
        handleToggleGroupExpanded Wire.stringify
          (Sample.appWith Resize.layers []) "el-1" = Ok app'
        /\ layersOf app' = Some layers'
        /\ skeleton layers' = skeleton Resize.layers)
  /\ (exists app' layers',
        handleElementUpdate Wire.stringify (Sample.appWith Resize.layers [])
          "el-1" (textResizeProps 250%float 60%float 10%float 20%float) = Ok app'
        /\ layersOf app' = Some layers'
        /\ skeleton layers' = skeleton Resize.layers)
  /\ (exists app' layers',
        handleUpdateTextProps Wire.stringify (Sample.appWith Resize.layers [])
          "el-1" noPatch = Ok app'
        /\ layersOf app' = Some layers'
        /\ skeleton layers' = skeleton Resize.layers).
Proof.
  apply (field_edits_keep_skeleton Wire.stringify WireFacts.stringify_injective
           (Sample.appWith Resize.layers []) Resize.layers "el-1" "Title"
           (textResizeProps 250%float 60%float 10%float 20%float) noPatch).
  reflexivity.
Defined.

Lemma toggleGroupExpanded_twice_witness :
  exists app1 app2,
    handleToggleGroupExpanded Wire.stringify (Sample.appWith Tree.layers []) "g2"
    = Ok app1
    /\ handleToggleGroupExpanded Wire.stringify app1 "g2" = Ok app2
    /\ layersOf app2 = Some Tree.layers
    /\ ((forall l, In l Tree.layers -> id l = "g2" -> isGroup l = false) ->
        layersOf app1 = Some Tree.layers).
Proof.
  apply (toggleGroupExpanded_twice Wire.stringify WireFacts.stringify_injective
           (Sample.appWith Tree.layers []) Tree.layers "g2").
  reflexivity.
Defined.

(** ** Selecting layers in the panel *)

(** [handleSelectLayer] keeps a selection free of repetitions: a plain click
    selects the clicked layer alone; a shift-click removes the layer when it
    is selected and appends it otherwise, so that two shift-clicks on a layer
    that was not selected give the selection back. *)
Theorem selectLayer_NoDup (app : App) (k : string) (isShift : bool) :
  NoDup (selectedIds app) ->
  NoDup (selectedIds (handleSelectLayer app k isShift))
  /\ (isShift = false -> selectedIds (handleSelectLayer app k isShift) = [k])
  /\ (isShift = true ->
      (In k (selectedIds (handleSelectLayer app k isShift))
       <-> ~ In k (selectedIds app))
      /\ forall j, j <> k ->
           (In j (selectedIds (handleSelectLayer app k isShift))
            <-> In j (selectedIds app)))
  /\ (~ In k (selectedIds app) ->
      selectedIds (handleSelectLayer (handleSelectLayer app k true) k true)
      = selectedIds app).
Proof.
  intros ND.
  assert (Hf : forall l j, In j (filter (fun pid => negb (String.eqb pid k)) l)
                           <-> In j l /\ j <> k).
  { intros l j. rewrite filter_In, negb_true_iff, String.eqb_neq. tauto. }
  split; [|split; [|split]].
  - unfold handleSelectLayer. destruct isShift; simpl.
    + destruct (JsArray.includes (selectedIds app) k) eqn:E.
      * now apply NoDup_filter.
      * apply NoDup_app; [exact ND | repeat constructor; intros [] |].
        intros x Hx [<-|[]]. apply includes_In in Hx. congruence.
    + repeat constructor. intros [].
  - intros ->. reflexivity.
  - intros ->. unfold handleSelectLayer. simpl.
    destruct (JsArray.includes (selectedIds app) k) eqn:E.
    + apply includes_In in E. split.
      * rewrite Hf. tauto.
      * intros j Hj. rewrite Hf. tauto.
    + assert (N : ~ In k (selectedIds app))
        by (intros H; apply includes_In in H; congruence).
      split.
      * rewrite in_app_iff. simpl. tauto.
      * intros j Hj. rewrite in_app_iff. simpl. intuition congruence.
  - intros N. unfold handleSelectLayer. simpl.
    assert (E : JsArray.includes (selectedIds app) k = false).
    { destruct (JsArray.includes (selectedIds app) k) eqn:E; [|reflexivity].
      now apply includes_In in E. }
    rewrite E.
    assert (E2 : JsArray.includes (selectedIds app ++ [k]) k = true).
    { apply includes_In, in_or_app. right. now left. }
    rewrite E2, filter_app. simpl. rewrite String.eqb_refl. simpl.
    rewrite app_nil_r. apply filter_everything.
    intros j Hj. apply negb_true_iff, String.eqb_neq. congruence.
Qed.

Lemma selectLayer_NoDup_witness :
  NoDup (selectedIds (handleSelectLayer Trio.app "a" true))
  /\ selectedIds (handleSelectLayer Trio.app "a" false) = ["a"]
  /\ ~ In "a" (selectedIds (handleSelectLayer Trio.app "a" true))
  /\ selectedIds (handleSelectLayer
                    (handleSelectLayer (Sample.appWith Trio.layers ["b"]) "a" true)
                    "a" true)
     = ["b"].
Proof.
  assert (ND : NoDup (selectedIds Trio.app))
    by (repeat constructor; simpl; intuition discriminate).
  assert (ND' : NoDup (selectedIds (Sample.appWith Trio.layers ["b"])))
    by (repeat constructor; simpl; intuition discriminate).
  split; [|split; [|split]].
  - apply (selectLayer_NoDup Trio.app "a" true ND).
  - apply (selectLayer_NoDup Trio.app "a" false ND). reflexivity.
  - intros H.
    apply (proj1 (proj1 (proj1 (proj2 (proj2
             (selectLayer_NoDup Trio.app "a" true ND))) eq_refl))) in H.
    apply H. simpl. auto.
  - apply (selectLayer_NoDup (Sample.appWith Trio.layers ["b"]) "a" true ND').
    simpl. intuition discriminate.
Defined.

(** ** Adding a text layer *)

Section StoreMore.
Variable stringify : list Layer -> string.
Hypothesis stringify_inj : forall a b, stringify a = stringify b -> a = b.

(** A function whose result differs from the current layers adds one entry
    to the history. *)
Lemma setLayers_changed (app : App) f (cur new : list Layer) :
  layersOf app = Some cur -> f (Some cur) = Ok new -> new <> cur ->
  setLayers stringify app (Updater f)
  = Ok (setLayersHistory app (pushed (layersHistory app) new)).
Proof.
  intros Hs Hf N. unfold setLayers, layersOf in *.
  rewrite (setState_updater stringify _ _ _ _ Hs Hf).
  rewrite (setState_value stringify _ _ _ Hs). simpl.
  destruct (String.eqb_spec (stringify new) (stringify cur)) as [J|J];
    [now apply stringify_inj in J | reflexivity].
Qed.

Lemma cons_neq {A} (x : A) (l : list A) : x :: l <> l.
Proof.
  intros E. apply (f_equal (@List.length A)) in E. simpl in E. lia.
Qed.

(** [handleAddText] puts the new text layer in front of the others, selects
    it and switches to the selection tool; [undo] then brings the earlier
    layers back. *)
Theorem addText_then_undo (now : string) (app : App) (layers : list Layer)
  (x y : number) :
  layersOf app = Some layers ->
  exists app',
    handleAddText stringify now app x y = Ok app'
    /\ layersOf app' = Some (LText (Sample.newText now x y) :: layers)
    /\ selectedIds app' = [("el-" ++ now)%string]
    /\ activeTool app' = Select
    /\ layersOf (undoLayers app') = Some layers
    /\ canRedo (layersHistory app') = false.
Proof.
  intros Hl. unfold handleAddText.
  rewrite (setLayers_changed app _ layers
             (LText (Sample.newText now x y) :: layers) Hl eq_refl (cons_neq _ _)).
  cbn [bind]. eexists. split; [reflexivity|].
  pose proof (state_wf _ _ Hl) as W.
  split; [apply state_pushed, W|]. split; [reflexivity|]. split; [reflexivity|].
  split; [apply state_undo_pushed, Hl|].
  unfold canRedo, pushed. simpl. rewrite JsArrayFacts.len_app.
  unfold wf, JsArray.len in *. rewrite length_firstn. simpl.
  apply Z.ltb_ge. lia.
Qed.

End StoreMore.

Lemma addText_then_undo_witness :
  exists app',
    handleAddText Wire.stringify "1" (Sample.appWith Sample.initialLayers [])
                  10%float 20%float = Ok app'
    /\ layersOf app'
       = Some (LText (Sample.newText "1" 10%float 20%float)
                 :: Sample.initialLayers)
    /\ selectedIds app' = [("el-" ++ "1")%string]
    /\ activeTool app' = Select
    /\ layersOf (undoLayers app') = Some Sample.initialLayers
    /\ canRedo (layersHistory app') = false.
Proof.
  apply (addText_then_undo Wire.stringify WireFacts.stringify_injective "1"
           (Sample.appWith Sample.initialLayers []) Sample.initialLayers
           10%float 20%float).
  reflexivity.
Defined.

(** ** Generating an image *)

(** What the closure of [setState] installs for a function whose result
    differs from the current state. *)
Lemma setStateCalls_changed {T} (stringify : T -> string)
  (stringify_inj : forall a b, stringify a = stringify b -> a = b)
  (h : History T) f (cur new : T) :
  state h = Some cur -> f (Some cur) = Ok new -> new <> cur ->
  setStateCalls stringify h (Updater f) = Ok (Some (pushed h new)).
Proof.
  intros Hs Hf N.
  pose proof (setState_value stringify h new cur Hs) as V.
  unfold setState, setStateCalls in *. rewrite Hs in *. rewrite Hf.
  cbn [bind sameJson] in *.
  destruct (String.eqb_spec (stringify new) (stringify cur)) as [J|J];
    [now apply stringify_inj in J|].
  cbn [bind] in V. congruence.
Qed.



Lemma generateImage_outcome (refs : list Image.t) (api : ApiOutcome) :
  refs <> [] ->
  generateImage refs api
  = match api with
    | ApiResolves parts =>
        match firstInline parts with
        | Some (data, mimeType) =>
            Fulfilled ("data:" ++ mimeType ++ ";base64," ++ data)
        | None =>
            Rejected (ErrorObject
              "Failed to generate image. Please check the console for details.")
        end
    | ApiRejects =>
        Rejected (ErrorObject
          "Failed to generate image. Please check the console for details.")
    end.
Proof.
  intros N. unfold generateImage. destruct refs as [|r refs]; [contradiction|].
  rewrite JsArrayFacts.len_cons. pose proof (JsArrayFacts.len_nonneg refs).
  destruct (Z.eqb_spec (JsArray.len refs + 1) 0); [lia | reflexivity].
Qed.

Section Sending.
Variable stringify : list Layer -> string.
Variable engineMessage : Exn -> string.
Hypothesis stringify_inj : forall a b, stringify a = stringify b -> a = b.

(** [handleSendMessage] does nothing at all while a generation is pending or
    when no selected id names a visible image. Otherwise, when the model gives
    no image, whether the call fails or the answer holds none, layers and
    selection stay, the transcript gains the user's message and one system
    message with the text "Failed to generate image. Please check the console
    for details.", and the loading flag is off. *)
Theorem sendMessage_without_image (now nowElement nowMessage : string)
  (app : App) (layers : list Layer) (prompt : string) (api : ApiOutcome) :
  layersOf app = Some layers ->
  (isLoading app = true \/ selectedElements (selectedIds app) layers = [] ->
   handleSendMessage stringify engineMessage now nowElement nowMessage app
                     prompt api = Ok app)
  /\ (isLoading app = false ->
      selectedElements (selectedIds app) layers <> [] ->
      answered api = None ->
      exists app',
        handleSendMessage stringify engineMessage now nowElement nowMessage app
                          prompt api = Ok app'
        /\ layersHistory app' = layersHistory app
        /\ selectedIds app' = selectedIds app
        /\ messages app'
           = messages app
               ++ [mkChatMessage ("msg-" ++ now) user prompt None;
                   mkChatMessage ("msg-" ++ nowMessage ++ "-err") system
                     "Failed to generate image. Please check the console for details."
                     None]
        /\ isLoading app' = false).
Proof.
  intros Hl.
  assert (B : sendMessageBegin now app prompt
              = if isLoading app
                   || (JsArray.len (selectedElements (selectedIds app) layers) =? 0)
                then Ok None
                else Ok (Some (selectedElements (selectedIds app) layers,
                               setMessages (setIsLoading app true)
                                 (fun prev =>
                                    prev ++ [mkChatMessage ("msg-" ++ now) user
                                                           prompt None])))).
  { unfold sendMessageBegin. rewrite Hl.
    destruct (selectedIds app); reflexivity. }
  split.
  - intros H. unfold handleSendMessage. rewrite B.
    destruct H as [-> | ->]; [reflexivity|].
    now rewrite orb_true_r.
  - intros Hload Hsel Hapi. unfold handleSendMessage. rewrite B, Hload.
    destruct (selectedElements (selectedIds app) layers) as [|r refs] eqn:Er;
      [contradiction|].
    rewrite JsArrayFacts.len_cons. pose proof (JsArrayFacts.len_nonneg refs).
    destruct (Z.eqb_spec (JsArray.len refs + 1) 0); [lia|].
    cbn [orb bind]. rewrite generateImage_outcome by discriminate.
    unfold answered in Hapi.
    assert (E : match api with
                | ApiResolves parts =>
                    match firstInline parts with
                    | Some (data, mimeType) =>
                        Fulfilled ("data:" ++ mimeType ++ ";base64," ++ data)
                    | None =>
                        Rejected (ErrorObject
                          "Failed to generate image. Please check the console for details.")
                    end
                | ApiRejects =>
                    Rejected (ErrorObject
                      "Failed to generate image. Please check the console for details.")
                end
                = Rejected (ErrorObject
                    "Failed to generate image. Please check the console for details.")).
    { destruct api as [|parts]; [reflexivity|]. now rewrite Hapi. }
    rewrite E. eexists. split; [reflexivity|].
    simpl. rewrite <- app_assoc. simpl. auto.
Qed.

(** On a prompt of ASCII characters the UTF-16 units are the bytes. *)
Lemma substringUnits_ascii (s : string) : forall n,
  isAscii s = true -> substringUnits n s = String.substring 0 n s.
Proof.
  induction s as [|c r IH]; intros [|m] A; try reflexivity.
  simpl in A. apply andb_prop in A. destruct A as [Ac Ar].
  cbn [substringUnits String.substring].
  apply N.ltb_lt in Ac.
  assert (B : (N_of_ascii c <? 192)%N = true) by (apply N.ltb_lt; lia).
  rewrite B. f_equal. now apply IH.
Qed.

(** When the answer of the model holds an image, [handleSendMessage] puts a
    new image layer in front of the others and selects it: its id is [el-]
    and the clock, its name [prompt.substring(0, 20)], which on a prompt of
    ASCII characters is its first 20 characters, its src the data URL of the
    first image of the answer, at (100, 100) with size 350 x 350, not
    rotated, visible and without parent. The transcript gains the user's
    message and one assistant message carrying the URL; the loading flag is
    off. *)
Theorem sendMessage_with_image (now nowElement nowMessage : string)
  (app : App) (layers : list Layer) (prompt : string) (api : ApiOutcome)
  (data mimeType : string) :
  layersOf app = Some layers ->
  isLoading app = false ->
  selectedElements (selectedIds app) layers <> [] ->
  answered api = Some (data, mimeType) ->
  exists app' name,
    handleSendMessage stringify engineMessage now nowElement nowMessage app
                      prompt api = Ok app'
    /\ layersOf app'
       = Some (LImage (Image.mk ("el-" ++ nowElement) name
                         ("data:" ++ mimeType ++ ";base64," ++ data)
                         100%float 100%float 350%float 350%float 0%float
                         "image/png" true None)
                 :: layers)
    /\ name = substringUnits 20 prompt
    /\ (isAscii prompt = true -> name = String.substring 0 20 prompt)
    /\ selectedIds app' = [("el-" ++ nowElement)%string]
    /\ messages app'
       = messages app
           ++ [mkChatMessage ("msg-" ++ now) user prompt None;
               mkChatMessage ("msg-" ++ nowMessage ++ "-ai") assistant
                 ("Generated an image for: " ++ quote ++ prompt ++ quote)
                 (Some [("data:" ++ mimeType ++ ";base64," ++ data)%string])]
    /\ isLoading app' = false.
Proof.
  intros Hl Hload Hsel Hapi.
  unfold handleSendMessage, sendMessageBegin.
  rewrite Hl, Hload.
  assert (F : match selectedIds app with
              | [] => Ok []
              | _ :: _ => layers0 <- defined (Some layers) ;;
                          Ok (selectedElements (selectedIds app) layers0)
              end = Ok (selectedElements (selectedIds app) layers)).
  { destruct (selectedIds app); reflexivity. }
  rewrite F. cbn [bind orb].
  destruct (selectedElements (selectedIds app) layers) as [|r refs] eqn:Er;
    [contradiction|].
  rewrite JsArrayFacts.len_cons. pose proof (JsArrayFacts.len_nonneg refs).
  destruct (Z.eqb_spec (JsArray.len refs + 1) 0); [lia|].
  cbn [orb bind]. rewrite generateImage_outcome by discriminate.
  unfold answered in Hapi. destruct api as [|parts]; [discriminate|].
  rewrite Hapi. unfold sendMessageSettle.
  set (url := ("data:" ++ mimeType ++ ";base64," ++ data)%string).
  set (new := LImage (generatedImage nowElement prompt url) :: layers).
  assert (C : setStateCalls stringify (layersHistory app)
                (Updater (fun prev => prev <- defined prev ;;
                            Ok (LImage (generatedImage nowElement prompt url)
                                  :: prev)))
              = Ok (Some (pushed (layersHistory app) new))).
  { apply setStateCalls_changed with (cur := layers);
      [exact stringify_inj | exact Hl | reflexivity | apply cons_neq]. }
  rewrite C. eexists. exists (substringUnits 20 prompt).
  split; [reflexivity|].
  split; [unfold layersOf; simpl; apply state_pushed; eapply state_wf; eauto|].
  split; [reflexivity|].
  split; [intro A; now apply substringUnits_ascii|].
  split; [reflexivity|]. split; [|reflexivity].
  simpl. rewrite <- app_assoc. reflexivity.
Qed.


End Sending.

Lemma sendMessage_without_image_witness :
  handleSendMessage Wire.stringify (fun _ => "") "1" "2" "3"
    (Sample.appWith Sample.initialLayers []) "add a hat" ApiRejects
  = Ok (Sample.appWith Sample.initialLayers [])
  /\ exists app',
       handleSendMessage Wire.stringify (fun _ => "") "1" "2" "3"
         (Sample.appWith Sample.initialLayers ["initial-element-1"])
         "add a hat" (ApiResolves [mkPart None]) = Ok app'
       /\ layersHistory app' = useHistory Sample.initialLayers
       /\ selectedIds app' = ["initial-element-1"]
       /\ messages app'
          = [Sample.welcome]
              ++ [mkChatMessage ("msg-" ++ "1") user "add a hat" None;
                  mkChatMessage ("msg-" ++ "3" ++ "-err") system
                    "Failed to generate image. Please check the console for details."
                    None]
       /\ isLoading app' = false.
Proof.
  split.
  - apply (sendMessage_without_image Wire.stringify (fun _ => "") "1" "2" "3"
             (Sample.appWith Sample.initialLayers []) Sample.initialLayers
             "add a hat" ApiRejects eq_refl).
    right. reflexivity.
  - apply (sendMessage_without_image Wire.stringify (fun _ => "") "1" "2" "3"
             (Sample.appWith Sample.initialLayers ["initial-element-1"])
             Sample.initialLayers "add a hat" (ApiResolves [mkPart None])
             eq_refl);
      [reflexivity | discriminate | reflexivity].
Defined.

Lemma sendMessage_with_image_witness :
  exists app' name,
    handleSendMessage Wire.stringify (fun _ => "") "1" "2" "3"
      (Sample.appWith Sample.initialLayers ["initial-element-1"]) "add a hat"
      (ApiResolves [mkPart None; mkPart (Some ("QUJD", "image/webp"))])
    = Ok app'
    /\ layersOf app'
       = Some (LImage (Image.mk "el-2" name
                         "data:image/webp;base64,QUJD"
                         100%float 100%float 350%float 350%float 0%float
                         "image/png" true None)
                 :: Sample.initialLayers)
    /\ name = "add a hat"
    /\ selectedIds app' = [("el-" ++ "2")%string]
    /\ messages app'
       = [Sample.welcome]
           ++ [mkChatMessage ("msg-" ++ "1") user "add a hat" None;
               mkChatMessage ("msg-" ++ "3" ++ "-ai") assistant
                 ("Generated an image for: " ++ quote ++ "add a hat" ++ quote)
                 (Some [("data:" ++ "image/webp" ++ ";base64," ++ "QUJD")%string])]
    /\ isLoading app' = false.
Proof.
  destruct (sendMessage_with_image Wire.stringify (fun _ => "")
              WireFacts.stringify_injective "1" "2" "3"
              (Sample.appWith Sample.initialLayers ["initial-element-1"])
              Sample.initialLayers "add a hat"
              (ApiResolves [mkPart None; mkPart (Some ("QUJD", "image/webp"))])
              "QUJD" "image/webp")
    as (app' & name & R & L & _ & A & S & M & B);
    [reflexivity | reflexivity | discriminate | reflexivity |].
  exists app', name.
  split; [exact R|]. split; [exact L|]. split; [exact (A eq_refl)|].
  split; [exact S|]. split; [exact M | exact B].
Defined.


(** ** Where a moved layer lands *)

Section Positions.
Context {A : Type}.
Implicit Types (l : list A) (p : A -> bool).

(** [findIndex] points at the first element that satisfies the test. *)
Lemma findIndex_first p l1 c l2 :
  (forall x, In x l1 -> p x = false) -> p c = true ->
  JsArray.findIndex p (l1 ++ c :: l2) = JsArray.len l1.
Proof.
  intros H Hc. induction l1 as [|x l1 IH]; simpl.
  - now rewrite Hc.
  - rewrite (H x) by now left. rewrite IH by (intros; apply H; now right).
    rewrite JsArrayFacts.len_cons. pose proof (JsArrayFacts.len_nonneg l1).
    destruct (Z.ltb_spec (JsArray.len l1) 0); [lia | reflexivity].
Qed.

Lemma find_split p l x :
  find p l = Some x ->
  exists l1 l2, l = l1 ++ x :: l2 /\ (forall y, In y l1 -> p y = false)
                /\ p x = true.
Proof.
  induction l as [|a l IH]; simpl; [discriminate|].
  destruct (p a) eqn:E.
  - intros H; injection H as <-. exists [], l. simpl. tauto.
  - intros H. destruct (IH H) as (l1 & l2 & -> & H1 & H2).
    exists (a :: l1), l2. split; [reflexivity|]. split; [|exact H2].
    intros y [<-|Hy]; auto.
Qed.

(** The last element that passes a filter, and what comes after it. *)
Lemma filter_last p l ys c :
  filter p l = ys ++ [c] ->
  exists l1 l2, l = l1 ++ c :: l2 /\ p c = true
                /\ forall x, In x l2 -> p x = false.
Proof.
  revert ys. induction l as [|a l IH]; intros ys H; simpl in H.
  - now destruct ys.
  - destruct (p a) eqn:E.
    + destruct (filter p l) as [|b r] eqn:F.
      * destruct ys as [|y ys]; [|destruct ys; discriminate].
        injection H as <-. exists [], l. split; [reflexivity|].
        split; [exact E|]. intros x Hx.
        destruct (p x) eqn:Px; [|reflexivity].
        assert (In x (filter p l)) by (apply filter_In; auto).
        rewrite F in *. contradiction.
      * destruct ys as [|y ys]; [discriminate|].
        injection H as <- H. destruct (IH ys H) as (l1 & l2 & -> & Hc & H2).
        exists (a :: l1), l2. auto.
    + destruct (IH ys H) as (l1 & l2 & -> & Hc & H2).
      exists (a :: l1), l2. auto.
Qed.

Lemma get_last l : forall c,
  JsArray.get l (JsArray.len l - 1) = Some c -> exists ys, l = ys ++ [c].
Proof.
  intros c H. pose proof (JsArrayFacts.get_Some_range _ _ _ H) as R.
  apply get_split in H. unfold JsArray.len in *.
  replace (S (Z.to_nat (Z.of_nat (List.length l) - 1))) with (List.length l)
    in H by lia.
  rewrite skipn_all in H. eauto.
Qed.

Lemma get_last_None l :
  JsArray.get l (JsArray.len l - 1) = None -> l = [].
Proof.
  destruct l as [|a l]; [reflexivity|]. intros H. exfalso.
  unfold JsArray.get, JsArray.len in H.
  change (List.length (a :: l)) with (S (List.length l)) in H.
  destruct (Z.ltb_spec (Z.of_nat (S (List.length l)) - 1) 0) as [L|L]; [lia|].
  apply nth_error_None in H.
  change (List.length (a :: l)) with (S (List.length l)) in H. lia.
Qed.

(** Insertion right before and right after the element at a known place. *)
Lemma splice_before l1 c l2 (x : A) :
  JsArray.splice (l1 ++ c :: l2) (JsArray.len l1) 0 [x] = l1 ++ x :: c :: l2.
Proof.
  rewrite JsArrayFacts.splice_insert.
  - unfold JsArray.len. rewrite Nat2Z.id.
    rewrite firstn_app, firstn_all, Nat.sub_diag, app_nil_r.
    rewrite skipn_app, skipn_all, Nat.sub_diag. reflexivity.
  - rewrite JsArrayFacts.len_app, JsArrayFacts.len_cons.
    pose proof (JsArrayFacts.len_nonneg l1).
    pose proof (JsArrayFacts.len_nonneg l2). lia.
Qed.

Lemma splice_after l1 c l2 (x : A) :
  JsArray.splice (l1 ++ c :: l2) (JsArray.len l1 + 1) 0 [x]
  = l1 ++ c :: x :: l2.
Proof.
  replace (l1 ++ c :: l2) with ((l1 ++ [c]) ++ l2)
    by (rewrite <- app_assoc; reflexivity).
  replace (JsArray.len l1 + 1) with (JsArray.len (l1 ++ [c]))
    by (rewrite JsArrayFacts.len_app; reflexivity).
  destruct l2 as [|d l2].
  - rewrite JsArrayFacts.splice_insert.
    + unfold JsArray.len. rewrite Nat2Z.id, app_nil_r, firstn_all, skipn_all.
      now rewrite <- app_assoc.
    + rewrite app_nil_r. pose proof (JsArrayFacts.len_nonneg (l1 ++ [c])). lia.
  - rewrite splice_before. now rewrite <- app_assoc.
Qed.

End Positions.

Lemma unique_by_id (layers : list Layer) (a b : Layer) :
  NoDup (map id layers) -> In a layers -> In b layers -> id a = id b -> a = b.
Proof.
  intros ND Ha Hb E.
  pose proof (find_unique layers ND a Ha) as Fa.
  pose proof (find_unique layers ND b Hb) as Fb.
  rewrite E in Fa. congruence.
Qed.

Lemma NoDup_ids_filter (p : Layer -> bool) (layers : list Layer) :
  NoDup (map id layers) -> NoDup (map id (filter p layers)).
Proof.
  induction layers as [|x l IH]; simpl; intros ND; [constructor|].
  inversion ND as [|? ? N ND']; subst.
  destruct (p x); simpl; [|auto].
  constructor; [|auto]. intros H. apply N.
  apply in_map_iff in H as (y & E & Hy). apply filter_In in Hy as [Hy _].
  rewrite <- E. now apply in_map.
Qed.

Section Placement.
Variables (depth : nat) (layers : list Layer) (dragId dropId : string).

Hypothesis distinct : NoDup (map id layers).
Variables dragged dropLayer : Layer.
Hypothesis dragged_in : In dragged layers.
Hypothesis dragged_id : id dragged = dragId.
Hypothesis drop_in : In dropLayer layers.
Hypothesis drop_id : id dropLayer = dropId.
Hypothesis different : dragId <> dropId.

Variable ds : list string.
Hypothesis not_child : parentId dropLayer <> Some dragId.
Hypothesis descendants : getDescendantIds depth layers dragId = Ok ds.
Hypothesis not_descendant : ~ In dropId ds.

Local Abbreviation others := (filter (fun l => negb (idIs dragId l)) layers).

Lemma mapGet_unique x : In x layers -> JsArray.mapGet id layers (id x) = Some x.
Proof.
  intros Hx. destruct (mapGet_In layers (id x)) as (y & Ey);
    [now apply in_map|].
  destruct (mapGet_Some _ _ _ Ey) as [Hy E].
  now rewrite (unique_by_id layers y x distinct Hy Hx E) in Ey.
Qed.

(** The drop target among the layers that stay in place. *)
Lemma drop_among_others :
  exists l1 l2, others = l1 ++ dropLayer :: l2
                /\ JsArray.findIndex (idIs dropId) others = JsArray.len l1.
Proof.
  assert (Hin : In dropLayer others).
  { apply filter_In. split; [exact drop_in|].
    apply negb_true_iff, idIs_false. congruence. }
  assert (ND : NoDup (map id others)) by now apply NoDup_ids_filter.
  pose proof (find_unique others ND dropLayer Hin) as F.
  rewrite drop_id in F.
  destruct (find_split _ _ _ F) as (l1 & l2 & E & H1 & H2).
  exists l1, l2. split; [exact E|]. rewrite E. now apply findIndex_first.
Qed.

(** After the tests of [reorderLayers]. *)
Lemma reorderLayers_accepted position :
  reorderLayers depth layers dragId dropId position layers
  = match position with
    | inside =>
        let draggedLayer := withParentId dragged (Some (id dropLayer)) in
        let children := filter (parentIs (id dropLayer)) others in
        match JsArray.get children (JsArray.len children - 1) with
        | Some lastChild =>
            Ok (JsArray.splice others
                  (JsArray.findIndex (idIs (id lastChild)) others + 1) 0
                  [draggedLayer])
        | None =>
            Ok (JsArray.splice others
                  (JsArray.findIndex (idIs dropId) others + 1) 0 [draggedLayer])
        end
    | before =>
        Ok (JsArray.splice others (JsArray.findIndex (idIs dropId) others) 0
              [withParentId dragged (parentId dropLayer)])
    | after =>
        Ok (JsArray.splice others (JsArray.findIndex (idIs dropId) others + 1) 0
              [withParentId dragged (parentId dropLayer)])
    end.
Proof.
  unfold reorderLayers.
  rewrite <- dragged_id at 1. rewrite (mapGet_unique dragged dragged_in).
  rewrite <- drop_id at 1. rewrite (mapGet_unique dropLayer drop_in).
  assert (Ep : parentIs dragId dropLayer = false).
  { destruct (parentIs dragId dropLayer) eqn:E; [|reflexivity].
    now apply parentIs_true in E. }
  rewrite Ep, descendants. cbn [bind].
  assert (Ei : JsArray.includes ds dropId = false).
  { destruct (JsArray.includes ds dropId) eqn:E; [|reflexivity].
    now apply includes_In in E. }
  rewrite Ei.
  destruct drop_among_others as (l1 & l2 & E & F). rewrite F.
  pose proof (JsArrayFacts.len_nonneg l1).
  destruct (Z.eqb_spec (JsArray.len l1) (-1)); [lia|].
  now destruct position.
Qed.

(** Dropped before or after the target, the layer takes the target's parent
    and stands right before or right after it. *)
Lemma reorderLayers_sibling :
  exists l1 l2,
    others = l1 ++ dropLayer :: l2
    /\ reorderLayers depth layers dragId dropId before layers
       = Ok (l1 ++ withParentId dragged (parentId dropLayer) :: dropLayer :: l2)
    /\ reorderLayers depth layers dragId dropId after layers
       = Ok (l1 ++ dropLayer :: withParentId dragged (parentId dropLayer) :: l2).
Proof.
  destruct drop_among_others as (l1 & l2 & E & F).
  exists l1, l2. split; [exact E|].
  rewrite !reorderLayers_accepted, F, E.
  now rewrite splice_before, splice_after.
Qed.

(** Dropped inside the target, the layer becomes its child and stands right
    after the last layer that is already one, or right after the target when
    it has no child. *)
Lemma reorderLayers_inside :
  exists l1 anchor l2,
    others = l1 ++ anchor :: l2
    /\ reorderLayers depth layers dragId dropId inside layers
       = Ok (l1 ++ anchor :: withParentId dragged (Some dropId) :: l2)
    /\ (anchor = dropLayer \/ parentId anchor = Some dropId)
    /\ forall l, In l l2 -> parentId l <> Some dropId.
Proof.
  rewrite reorderLayers_accepted. cbn zeta. rewrite drop_id.
  assert (ND : NoDup (map id others)) by now apply NoDup_ids_filter.
  destruct (JsArray.get (filter (parentIs dropId) others) _) as [c|] eqn:G.
  - apply get_last in G as (ys & G).
    destruct (filter_last _ _ _ _ G) as (l1 & l2 & E & Hc & H2).
    assert (F : JsArray.findIndex (idIs (id c)) others = JsArray.len l1).
    { rewrite E. apply findIndex_first; [|apply String.eqb_refl].
      intros x Hx. apply idIs_false. intros Ex.
      rewrite E, map_app in ND. simpl in ND.
      apply NoDup_remove_2 in ND. apply ND, in_or_app. left.
      rewrite <- Ex. now apply in_map. }
    exists l1, c, l2. split; [exact E|]. rewrite F, E, splice_after.
    split; [reflexivity|]. split; [right; now apply parentIs_true|].
    intros l Hl P. apply parentIs_true in P. rewrite (H2 l Hl) in P.
    discriminate.
  - apply get_last_None in G.
    destruct drop_among_others as (l1 & l2 & E & F).
    exists l1, dropLayer, l2. split; [exact E|]. rewrite F, E, splice_after.
    split; [reflexivity|]. split; [now left|].
    intros l Hl P.
    assert (In l (filter (parentIs dropId) others)).
    { apply filter_In. split; [|now apply parentIs_true].
      rewrite E. apply in_or_app. right. now right. }
    rewrite G in *. contradiction.
Qed.

End Placement.

Section PlacementCommitted.
Variable stringify : list Layer -> string.
Hypothesis stringify_inj : forall a b, stringify a = stringify b -> a = b.

(** On a store with distinct ids, a move of a layer next to another one that
    is not rejected takes the dragged layer out and puts a layer [moved] right
    before the target (position before) or right after it (position after):
    [moved] has the [parentId] of the drop target and every other field of the
    dragged layer; the other layers keep their places. *)
Theorem reorder_beside (depth : nat) (app : App) (layers : list Layer)
  (dragged dropLayer : Layer) (ds : list string) :
  layersOf app = Some layers ->
  NoDup (map id layers) ->
  In dragged layers -> In dropLayer layers -> id dragged <> id dropLayer ->
  parentId dropLayer <> Some (id dragged) ->
  getDescendantIds depth layers (id dragged) = Ok ds ->
  ~ In (id dropLayer) ds ->
  exists l1 l2 moved appB appA,
    filter (fun l => negb (idIs (id dragged) l)) layers = l1 ++ dropLayer :: l2
    /\ parentId moved = parentId dropLayer
    /\ sameButParent moved dragged
    /\ handleReorderAndReparentLayers stringify depth app (id dragged)
         (id dropLayer) before = Ok appB
    /\ layersOf appB = Some (l1 ++ moved :: dropLayer :: l2)
    /\ handleReorderAndReparentLayers stringify depth app (id dragged)
         (id dropLayer) after = Ok appA
    /\ layersOf appA = Some (l1 ++ dropLayer :: moved :: l2).
Proof.
  intros Hl ND Hg Hd Hne Hc Hds Hnd.
  destruct (reorderLayers_sibling depth layers (id dragged) (id dropLayer) ND
              dragged dropLayer Hg eq_refl Hd eq_refl Hne ds Hc Hds Hnd)
    as (l1 & l2 & E & Eb & Ea).
  unfold handleReorderAndReparentLayers.
  destruct (setLayers_updater stringify stringify_inj app
              (fun prev => prev <- defined prev ;;
                 reorderLayers depth prev (id dragged) (id dropLayer) before prev)
              layers _ Hl Eb) as (hb & Sb & Hb).
  destruct (setLayers_updater stringify stringify_inj app
              (fun prev => prev <- defined prev ;;
                 reorderLayers depth prev (id dragged) (id dropLayer) after prev)
              layers _ Hl Ea) as (ha & Sa & Ha).
  exists l1, l2, (withParentId dragged (parentId dropLayer)),
         (setLayersHistory app hb), (setLayersHistory app ha).
  split; [exact E|]. split; [now destruct dragged|].
  split; [destruct dragged; simpl; repeat split; reflexivity|]. auto.
Qed.


End PlacementCommitted.

Lemma reorder_beside_witness :
  exists l1 l2 moved appB appA,
    filter (fun l => negb (idIs "b" l)) Tree.layers
    = l1 ++ nth 1 Tree.layers (newGroup "") :: l2
    /\ parentId moved = Some "g1"
    /\ sameButParent moved (nth 3 Tree.layers (newGroup ""))
    /\ handleReorderAndReparentLayers Wire.stringify 3
         (Sample.appWith Tree.layers []) "b" "a" before = Ok appB
    /\ layersOf appB
       = Some (l1 ++ moved :: nth 1 Tree.layers (newGroup "") :: l2)
    /\ handleReorderAndReparentLayers Wire.stringify 3
         (Sample.appWith Tree.layers []) "b" "a" after = Ok appA
    /\ layersOf appA
       = Some (l1 ++ nth 1 Tree.layers (newGroup "") :: moved :: l2).
Proof.
  apply (reorder_beside Wire.stringify WireFacts.stringify_injective 3
           (Sample.appWith Tree.layers []) Tree.layers
           (nth 3 Tree.layers (newGroup "")) (nth 1 Tree.layers (newGroup "")) []).
  - reflexivity.
  - repeat constructor; simpl; intuition discriminate.
  - simpl; auto.
  - simpl; auto.
  - discriminate.
  - discriminate.
  - reflexivity.
  - simpl; tauto.
Defined.


(** ** The rows of the layers panel *)

Section Loops.
Context {A B : Type}.

(** A loop whose body keeps [P] and does not throw ends in a state with [P]. *)
Lemma forEachM_invariant (P : B -> Prop) (f : B -> A -> result B) (l : list A) :
  (forall acc x, In x l -> P acc -> exists acc', f acc x = Ok acc' /\ P acc') ->
  forall acc, P acc -> exists r, forEachM f acc l = Ok r /\ P r.
Proof.
  induction l as [|x l IH]; intros H acc Hacc; simpl.
  - eauto.
  - destruct (H acc x (or_introl eq_refl) Hacc) as (acc' & E & H').
    rewrite E. simpl. apply IH; auto. intros; apply H; simpl; auto.
Qed.

Lemma last_split (l pre post : list A) (x r : A) :
  l ++ [x] = pre ++ r :: post ->
  (post = [] /\ pre = l /\ r = x)
  \/ exists post', post = post' ++ [x] /\ l = pre ++ r :: post'.
Proof.
  intros E. destruct (exists_last (l := r :: post)) as (q & y & Eq);
    [discriminate|].
  rewrite Eq, app_assoc in E. apply app_inj_tail in E as [E ->].
  destruct post as [|p post].
  - left. destruct q as [|? [|? ?]]; try discriminate.
    injection Eq as ->. rewrite app_nil_r in E. auto.
  - right. destruct q as [|r' q]; [discriminate|].
    injection Eq as <- Eq. exists q. split; [exact Eq | exact E].
Qed.
End Loops.

Lemma mapGet_distinct (layers : list Layer) (x : Layer) :
  NoDup (map id layers) -> In x layers ->
  JsArray.mapGet id layers (id x) = Some x.
Proof.
  intros ND Hx. destruct (mapGet_In layers (id x)) as (y & Ey);
    [now apply in_map|].
  destruct (mapGet_Some _ _ _ Ey) as [Hy E].
  now rewrite (unique_by_id layers y x ND Hy Hx E) in Ey.
Qed.

Lemma inPlace_more (pre more : list Hierarchical.t) (r : Hierarchical.t) :
  inPlace pre r -> inPlace (pre ++ more) r.
Proof.
  intros [H|(g & Hg & H)]; [now left|].
  right. exists g. split; [apply in_or_app; now left | exact H].
Qed.

Lemma listed_length layers st :
  listed layers st -> (List.length (snd st) <= List.length layers)%nat.
Proof.
  intros (ND & E & Hin & _).
  rewrite <- (length_map id layers). apply NoDup_incl_length; [exact ND|].
  intros k Hk. rewrite <- E in Hk. apply in_map_iff in Hk as (r & <- & Hr).
  apply (in_map id). now apply Hin.
Qed.

Lemma listed_push layers st l depth :
  listed layers st -> In l layers -> JsArray.includes (snd st) (id l) = false ->
  (NoDup (map id layers) -> inPlace (fst st) (Hierarchical.mk l depth)) ->
  listed layers (JsArray.push (fst st) (Hierarchical.mk l depth),
                 setAdd (snd st) (id l)).
Proof.
  intros (ND & E & Hin & Hp) Hl Hn Hnew.
  assert (N : ~ In (id l) (snd st)).
  { intros H. apply includes_In in H. congruence. }
  unfold listed, setAdd, JsArray.push. rewrite Hn. cbn [fst snd].
  split; [|split; [|split]].
  - apply NoDup_rev in ND. rewrite <- (rev_involutive (snd st ++ [id l])).
    apply NoDup_rev. rewrite rev_app_distr. simpl. constructor; [|exact ND].
    now rewrite <- in_rev.
  - rewrite map_app, E. reflexivity.
  - intros r Hr. apply in_app_or in Hr as [Hr|[<-|[]]]; auto.
  - intros D pre r post Es. apply last_split in Es
      as [(-> & -> & ->)|(post' & -> & Es)]; [auto|].
    now apply (Hp D pre r post').
Qed.

Lemma addLayerAndChildren_listed layers (n : nat) :
  forall st layerId depth,
    listed layers st ->
    (List.length layers < List.length (snd st) + n)%nat ->
    (NoDup (map id layers) ->
     forall l, JsArray.mapGet id layers layerId = Some l ->
               inPlace (fst st) (Hierarchical.mk l depth)) ->
    exists st', addLayerAndChildren n layers st layerId depth = Ok st'
                /\ listed layers st'
                /\ exists more, fst st' = fst st ++ more.
Proof.
  induction n as [|d IH]; intros st layerId depth L Hn J.
  - apply listed_length in L. lia.
  - simpl.
    destruct (JsArray.includes (snd st) layerId) eqn:Hp.
    { exists st. split; [reflexivity|]. split; [exact L|].
      exists []. now rewrite app_nil_r. }
    destruct (JsArray.mapGet id layers layerId) as [layer|] eqn:G.
    2:{ exists st. split; [reflexivity|]. split; [exact L|].
        exists []. now rewrite app_nil_r. }
    destruct (mapGet_Some _ _ _ G) as [Hl Eid].
    assert (L1 : listed layers
                   (JsArray.push (fst st) (Hierarchical.mk layer depth),
                    setAdd (snd st) (id layer))).
    { apply listed_push; auto. now rewrite Eid. }
    destruct (isGroup layer && expanded layer) eqn:Hg.
    2:{ eexists. split; [reflexivity|]. split; [exact L1|].
        eexists. reflexivity. }
    apply andb_true_iff in Hg as [Hg He].
    set (st1 := (JsArray.push (fst st) (Hierarchical.mk layer depth),
                 setAdd (snd st) (id layer))) in *.
    destruct (forEachM_invariant
                (fun acc => listed layers acc
                            /\ exists more, fst acc = fst st1 ++ more)
                (fun st child =>
                   if parentIs (id layer) child
                   then addLayerAndChildren d layers st (id child) (depth + 1)
                   else Ok st)
                layers) with (acc := st1) as (r & Er & Lr & more & Em).
    + intros acc child Hc (La & more & Ea).
      destruct (parentIs (id layer) child) eqn:Hpar; [|eauto].
      apply parentIs_true in Hpar.
      destruct (IH acc (id child) (depth + 1) La) as (st' & E' & L' & more' & Em').
      * destruct La as (_ & Emap & _). rewrite <- Emap, Ea.
        rewrite length_map, length_app. unfold st1, JsArray.push. cbn [fst].
        rewrite length_app. simpl.
        destruct L as (_ & Emap0 & _). rewrite <- Emap0, length_map in Hn. lia.
      * intros D l Gl. rewrite (mapGet_distinct layers child D Hc) in Gl.
        injection Gl as <-. right. exists (Hierarchical.mk layer depth).
        split; [|cbn; auto].
        rewrite Ea. unfold st1, JsArray.push. cbn [fst].
        apply in_or_app. left. apply in_or_app. right. now left.
      * exists st'. split; [exact E'|]. split; [exact L'|].
        exists (more ++ more'). now rewrite Em', Ea, app_assoc.
    + split; [exact L1|]. exists []. now rewrite app_nil_r.
    + exists r. split; [exact Er|]. split; [exact Lr|].
      exists ([Hierarchical.mk layer depth] ++ more).
      rewrite Em. unfold st1, JsArray.push. cbn [fst]. now rewrite app_assoc.
Qed.

Lemma hierarchical_listed (stack : nat) (layers : list Layer) :
  (List.length layers < stack)%nat ->
  exists st,
    forEachM (fun st layer =>
                if noParent layer
                then addLayerAndChildren stack layers st (id layer) 0
                else Ok st)
             ([], []) (rev layers) = Ok st
    /\ listed layers st.
Proof.
  intros Hs. apply forEachM_invariant.
  - intros acc x Hx La. destruct (noParent x) eqn:Hr; [|eauto].
    apply in_rev in Hx.
    destruct (addLayerAndChildren_listed layers stack acc (id x) 0 La)
      as (st' & E & L' & _); [lia| |eauto].
    intros D l G. rewrite (mapGet_distinct layers x D Hx) in G.
    injection G as <-. now left.
  - split; [constructor|]. split; [reflexivity|]. split; [intros ? []|].
    intros _ [|? ?] ? ? E; discriminate.
Qed.

(** With a stack deeper than the number of layers, [hierarchicalLayers]
    returns on every layer list, whatever its parent links and ids are (a
    group that is its own ancestor included, where [getDescendantIds] does
    not return): the set of processed ids stops every second visit. No id is
    listed twice, and every row is a layer of the list. *)
Theorem hierarchicalLayers_returns (stack : nat) (layers : list Layer) :
  (List.length layers < stack)%nat ->
  exists rows,
    hierarchicalLayers stack layers = Ok rows
    /\ NoDup (map rowId rows)
    /\ forall r, In r rows -> In (Hierarchical.layer r) layers.
Proof.
  intros Hs. destruct (hierarchical_listed stack layers Hs)
    as (st & E & ND & Emap & Hin & _).
  unfold hierarchicalLayers. rewrite E. simpl. eexists. split; [reflexivity|].
  split.
  - rewrite map_rev, Emap. now apply NoDup_rev.
  - intros r Hr. apply in_rev in Hr. now apply Hin.
Qed.

Lemma hierarchicalLayers_returns_witness :
  exists rows,
    hierarchicalLayers 4 Looped.layers = Ok rows
    /\ NoDup (map rowId rows)
    /\ forall r, In r rows -> In (Hierarchical.layer r) Looped.layers.
Proof.
  apply (hierarchicalLayers_returns 4 Looped.layers). simpl. lia.
Defined.

(** On a layer list with distinct ids and a stack deeper than the number of
    layers, every row the panel renders is either a layer without parent at
    depth 0, or a child of an expanded group whose row is rendered above it,
    one level deeper than that group: the children of a collapsed group, and
    layers whose parent is not listed, get no row. *)
Theorem panelRows_nested (stack : nat) (layers : list Layer) :
  NoDup (map id layers) -> (List.length layers < stack)%nat ->
  exists rows,
    panelRows stack layers = Ok rows
    /\ forall above r below, rows = above ++ r :: below -> inPlace above r.
Proof.
  intros D Hs. destruct (hierarchical_listed stack layers Hs)
    as (st & E & _ & _ & _ & Hp).
  unfold panelRows, hierarchicalLayers. rewrite E. simpl.
  rewrite rev_involutive. eexists. split; [reflexivity|]. exact (Hp D).
Qed.

Lemma panelRows_nested_witness :
  exists rows,
    panelRows 5 Collapsed.layers = Ok rows
    /\ forall above r below, rows = above ++ r :: below -> inPlace above r.
Proof.
  apply (panelRows_nested 5 Collapsed.layers).
  - repeat constructor; simpl; intuition discriminate.
  - simpl. lia.
Defined.

Section Visits.
Context {A B : Type}.

(** A loop that returns has kept [P]; what it established for an entry when
    visiting it, and what held before, still holds at the end when no later
    step undoes it. *)
Lemma forEachM_visits (P : B -> Prop) (Q : A -> B -> Prop)
  (f : B -> A -> result B) (l : list A) :
  (forall acc x acc', In x l -> P acc -> f acc x = Ok acc' ->
     P acc' /\ Q x acc' /\ forall y, Q y acc -> Q y acc') ->
  forall acc r, P acc -> forEachM f acc l = Ok r ->
    P r /\ (forall x, In x l -> Q x r) /\ forall y, Q y acc -> Q y r.
Proof.
  induction l as [|x l IH]; intros H acc r Hacc E; simpl in E.
  - injection E as <-. split; [exact Hacc|]. split; [intros ? []|auto].
  - destruct (f acc x) as [acc'|] eqn:F; [|discriminate]. simpl in E.
    destruct (H acc x acc' (or_introl eq_refl) Hacc F) as (P' & Qx & St).
    destruct (IH (fun a y b Hy => H a y b (or_intror Hy)) acc' r P' E)
      as (Pr & Ql & St').
    split; [exact Pr|]. split; [|auto].
    intros y [<-|Hy]; auto.
Qed.
End Visits.

Lemma setAdd_incl (s : list string) (k : string) :
  incl s (setAdd s k) /\ In k (setAdd s k).
Proof.
  unfold setAdd, JsArray.push.
  destruct (JsArray.includes s k) eqn:E.
  - split; [apply incl_refl | now apply includes_In].
  - split; [apply incl_appl, incl_refl | apply in_or_app; right; now left].
Qed.

Lemma addLayerAndChildren_closed layers (n : nat) :
  forall st layerId depth pending st',
    addLayerAndChildren n layers st layerId depth = Ok st' ->
    closed layers pending st ->
    closed layers pending st'
    /\ incl (snd st) (snd st')
    /\ (In layerId (map id layers) -> In layerId (snd st')).
Proof.
  induction n as [|d IH]; intros st layerId depth pending st' E C;
    [discriminate|].
  simpl in E.
  destruct (JsArray.includes (snd st) layerId) eqn:Hp.
  { injection E as <-. split; [exact C|]. split; [apply incl_refl|].
    intros _. now apply includes_In. }
  destruct (JsArray.mapGet id layers layerId) as [layer|] eqn:G.
  2:{ injection E as <-. split; [exact C|]. split; [apply incl_refl|].
      intros H. apply mapGet_In in H as (x & Hx). congruence. }
  destruct (mapGet_Some _ _ _ G) as [Hl Eid].
  destruct (setAdd_incl (snd st) (id layer)) as [I1 I2].
  set (st1 := (JsArray.push (fst st) (Hierarchical.mk layer depth),
               setAdd (snd st) (id layer))) in *.
  assert (C1 : closed layers (layerId :: pending) st1).
  { intros g Hg Gg Ge Np c Hc Pc. cbn [st1 fst snd] in *.
    apply in_app_or in Hg as [Hg|[<-|[]]].
    - apply I1. apply (C g Hg Gg Ge); auto. intros H. apply Np. now right.
    - exfalso. apply Np. left. symmetry. exact Eid. }
  destruct (isGroup layer && expanded layer) eqn:Hge.
  - destruct (forEachM_visits
                (fun acc => closed layers (layerId :: pending) acc
                            /\ incl (snd st1) (snd acc))
                (fun c acc => parentId c = Some layerId -> In (id c) (snd acc))
                (fun st child =>
                   if parentIs (id layer) child
                   then addLayerAndChildren d layers st (id child) (depth + 1)
                   else Ok st)
                layers) with (acc := st1) (r := st')
      as ((Cr & Ir) & Qr & _); auto.
    + intros acc x acc' Hx (Ca & Ia) F.
      destruct (parentIs (id layer) x) eqn:Hpar.
      * destruct (IH _ _ _ _ _ F Ca) as (C' & I' & K').
        split; [split; [exact C' | eapply incl_tran; eauto]|].
        split; [intros _; apply K'; now apply in_map|].
        intros y Qy Py. apply I'. auto.
      * injection F as <-. split; [auto|]. split; [|auto].
        intros Px. rewrite <- Eid in Px. apply parentIs_true in Px. congruence.
    + split; [exact C1 | apply incl_refl].
    + split; [|split].
      * intros g Hg Gg Ge Np c Hc Pc.
        destruct (string_dec (rowId g) layerId) as [Ek|Nk].
        -- apply (Qr c Hc). now rewrite <- Ek.
        -- apply (Cr g Hg Gg Ge); auto. intros [H|H]; [now symmetry in H|auto].
      * eapply incl_tran; [exact I1 | exact Ir].
      * intros _. apply Ir. cbn [st1 snd]. now rewrite <- Eid.
  - injection E as <-. split; [|split].
    + intros g Hg Gg Ge Np c Hc Pc. cbn [st1 fst snd] in *.
      apply in_app_or in Hg as [Hg|[<-|[]]].
      * apply I1. now apply (C g Hg Gg Ge).
      * cbn in Gg, Ge. rewrite Gg, Ge in Hge. discriminate.
    + exact I1.
    + intros _. cbn [st1 snd]. now rewrite <- Eid.
Qed.

Lemma hierarchical_closed (stack : nat) (layers : list Layer) st :
  forEachM (fun st layer =>
              if noParent layer
              then addLayerAndChildren stack layers st (id layer) 0
              else Ok st)
           ([], []) (rev layers) = Ok st ->
  closed layers [] st
  /\ forall l, In l layers -> noParent l = true -> In (id l) (snd st).
Proof.
  intros E.
  destruct (forEachM_visits
              (closed layers [])
              (fun l acc => noParent l = true -> In (id l) (snd acc))
              (fun st layer =>
                 if noParent layer
                 then addLayerAndChildren stack layers st (id layer) 0
                 else Ok st)
              (rev layers)) with (acc := ([] : list Hierarchical.t, [] : list string))
                                      (r := st) as (C & Q & _).
  - intros acc x acc' Hx Ca F. apply in_rev in Hx.
    destruct (noParent x) eqn:Hr.
    + destruct (addLayerAndChildren_closed _ _ _ _ _ _ _ F Ca) as (C' & I' & K').
      split; [exact C'|]. split; [intros _; apply K'; now apply in_map|].
      intros y Qy Py. apply I'. auto.
    + injection F as <-. split; [exact Ca|]. split; [discriminate|auto].
  - intros g [].
  - exact E.
  - split; [exact C|]. intros l Hl. apply Q. now apply in_rev in Hl.
Qed.

Lemma listed_shown layers st :
  NoDup (map id layers) -> listed layers st ->
  forall r, In r (fst st) -> Shown layers (Hierarchical.layer r).
Proof.
  intros D (_ & _ & Hin & Hp).
  assert (H : forall n above r below,
             List.length above = n -> fst st = above ++ r :: below ->
             Shown layers (Hierarchical.layer r)).
  { induction n as [n IH] using lt_wf_ind. intros above r below Hn E.
    assert (Hr : In (Hierarchical.layer r) layers).
    { apply Hin. rewrite E. apply in_or_app. right. now left. }
    destruct (Hp D above r below E) as [[Hroot _]|(g & Hg & Gg & Ge & Pg & _)].
    - now apply Shown_root.
    - apply in_split in Hg as (a1 & a2 & ->).
      apply Shown_child with (g := Hierarchical.layer g); auto.
      apply (IH (List.length a1)) with (above := a1) (below := a2 ++ r :: below);
        [rewrite <- Hn, length_app; simpl; lia | reflexivity|].
      rewrite E, <- app_assoc. reflexivity. }
  intros r Hr. apply in_split in Hr as (above & below & E).
  now apply (H _ above r below eq_refl).
Qed.

(** On a layer list with distinct ids and a stack deeper than the number of
    layers, the panel has a row for a layer exactly when the layer is reached
    from a layer without parent through expanded groups only: collapsing a
    group hides its descendants and nothing else, and a layer whose chain of
    parents does not end at a layer without parent is never listed. *)
Theorem panelRows_exact (stack : nat) (layers : list Layer) :
  NoDup (map id layers) -> (List.length layers < stack)%nat ->
  exists rows,
    panelRows stack layers = Ok rows
    /\ forall l, (exists r, In r rows /\ Hierarchical.layer r = l)
                 <-> Shown layers l.
Proof.
  intros D Hs. destruct (hierarchical_listed stack layers Hs) as (st & E & L).
  destruct (hierarchical_closed stack layers st E) as (C & R).
  unfold panelRows, hierarchicalLayers. rewrite E. simpl.
  rewrite rev_involutive. eexists. split; [reflexivity|].
  intros l. split.
  - intros (r & Hr & <-). now apply (listed_shown layers st).
  - destruct L as (_ & Emap & Hin & _).
    assert (Row : forall x, In x layers -> In (id x) (snd st) ->
                  exists r, In r (fst st) /\ Hierarchical.layer r = x).
    { intros x Hx Hp. rewrite <- Emap in Hp.
      apply in_map_iff in Hp as (r & Er & Hr). exists r. split; [exact Hr|].
      apply (unique_by_id layers); auto. }
    induction 1 as [x Hx Hroot|g c Sg (r & Hr & Er) Gg Ge Hc Pc].
    + apply Row; auto.
    + apply Row; [exact Hc|]. subst g.
      apply (C r Hr Gg Ge); auto.
Qed.

Lemma panelRows_exact_witness :
  exists rows,
    panelRows 5 Collapsed.layers = Ok rows
    /\ forall l, (exists r, In r rows /\ Hierarchical.layer r = l)
                 <-> Shown Collapsed.layers l.
Proof.
  apply (panelRows_exact 5 Collapsed.layers).
  - repeat constructor; simpl; intuition discriminate.
  - simpl. lia.
Defined.

(** ** The elements of a selection *)

Lemma setAdd_In (s : list string) (k x : string) :
  In x (setAdd s k) -> In x s \/ x = k.
Proof.
  unfold setAdd, JsArray.push. destruct (JsArray.includes s k); [auto|].
  intros H. apply in_app_or in H as [H|[<-|[]]]; auto.
Qed.

Lemma setAdd_NoDup (s : list string) (k : string) :
  NoDup s -> NoDup (setAdd s k).
Proof.
  unfold setAdd, JsArray.push. intros ND.
  destruct (JsArray.includes s k) eqn:E; [exact ND|].
  apply NoDup_rev in ND. rewrite <- (rev_involutive (s ++ [k])).
  apply NoDup_rev. rewrite rev_app_distr. simpl. constructor; [|exact ND].
  rewrite <- in_rev. intros H. apply includes_In in H. congruence.
Qed.

Lemma isElement_isGroup (l : Layer) : isElement l = negb (isGroup l).
Proof. now destruct l. Qed.

Lemma addElementsFrom_S d layers elementIds layerId :
  addElementsFrom (S d) layers elementIds layerId
  = match JsArray.mapGet id layers layerId with
    | None => Ok elementIds
    | Some layer =>
        if isElement layer then Ok (setAdd elementIds (id layer))
        else
          forEachM (fun elementIds l =>
                      if parentIs (id layer) l
                      then addElementsFrom d layers elementIds (id l)
                      else Ok elementIds)
                   elementIds layers
    end.
Proof. reflexivity. Qed.

Section Elements.
Variable layers : list Layer.
Hypothesis distinct : NoDup (map id layers).

Lemma Descendant_In k l : Descendant layers k l -> In l layers.
Proof. induction 1; auto. Qed.

Lemma Descendant_below k g c :
  Descendant layers k g -> isGroup g = true -> In c layers ->
  parentId c = Some (id g) -> Descendant layers k c.
Proof.
  induction 1 as [k g Hin Hp | k c0 g Hin Hp Hg _ IH]; intros Gg Hc Pc.
  - apply Descendant_deeper with (c := g); auto.
    now apply Descendant_child.
  - apply Descendant_deeper with (c := c0); auto.
Qed.

Lemma selects_child s g c :
  In g layers -> selects layers s g -> isGroup g = true -> In c layers ->
  parentId c = Some (id g) -> selects layers s c.
Proof.
  intros Hg [E|(g0 & H0 & E0 & G0 & D0)] Gg Hc Pc; right.
  - exists g. repeat split; auto. apply Descendant_child; congruence.
  - exists g0. repeat split; auto. now apply Descendant_below with (g := g).
Qed.

(** Every id [addElementsFrom] adds names an element reached from the
    starting layer, and the set stays free of repetitions. *)
Lemma addElementsFrom_sound s (n : nat) :
  forall acc k acc',
    addElementsFrom n layers acc k = Ok acc' ->
    (forall l, JsArray.mapGet id layers k = Some l -> selects layers s l) ->
    (NoDup acc -> NoDup acc')
    /\ forall x, In x acc' ->
         In x acc \/ exists l, In l layers /\ id l = x /\ isElement l = true
                               /\ selects layers s l.
Proof.
  induction n as [|d IH]; intros acc k acc' E J; [discriminate|].
  rewrite addElementsFrom_S in E.
  destruct (JsArray.mapGet id layers k) as [layer|] eqn:G.
  2:{ injection E as <-. auto. }
  destruct (mapGet_Some _ _ _ G) as [Hl Eid].
  destruct (isElement layer) eqn:He.
  { injection E as <-. split; [apply setAdd_NoDup|].
    intros x Hx. apply setAdd_In in Hx as [Hx| ->]; [auto|].
    right. exists layer. auto. }
  assert (Gl : isGroup layer = true).
  { rewrite isElement_isGroup in He. now destruct (isGroup layer). }
  destruct (forEachM_visits
              (fun a => (NoDup acc -> NoDup a)
                        /\ forall x, In x a ->
                             In x acc \/ exists l, In l layers /\ id l = x
                                          /\ isElement l = true
                                          /\ selects layers s l)
              (fun _ _ => True)
              (fun elementIds l =>
                 if parentIs (id layer) l
                 then addElementsFrom d layers elementIds (id l)
                 else Ok elementIds)
              layers) with (acc := acc) (r := acc') as (P & _); auto.
  intros a c a' Hc (Na & Pa) F.
  destruct (parentIs (id layer) c) eqn:Hp.
  - apply parentIs_true in Hp.
    destruct (IH a (id c) a' F) as (N' & P').
    { intros l Gc. rewrite (mapGet_distinct layers c distinct Hc) in Gc.
      injection Gc as <-. apply selects_child with (g := layer); auto. }
    split; [|auto]. split; [auto|].
    intros x Hx. destruct (P' x Hx) as [H|H]; auto.
  - injection F as <-. auto.
Qed.

(** [addElementsFrom] adds the starting layer when it is an element, and
    every element below it when it is a group. *)
Lemma addElementsFrom_complete (n : nat) :
  forall acc k acc',
    addElementsFrom n layers acc k = Ok acc' ->
    incl acc acc'
    /\ forall l, In l layers -> id l = k ->
         (isElement l = true -> In k acc')
         /\ (isGroup l = true ->
             forall e, Descendant layers k e -> isElement e = true ->
                       In (id e) acc').
Proof.
  induction n as [|d IH]; intros acc k acc' E; [discriminate|].
  rewrite addElementsFrom_S in E.
  destruct (JsArray.mapGet id layers k) as [layer|] eqn:G.
  2:{ injection E as <-. split; [apply incl_refl|].
      intros l Hl El. subst k.
      pose proof (mapGet_distinct layers l distinct Hl). congruence. }
  destruct (mapGet_Some _ _ _ G) as [Hl Eid].
  destruct (isElement layer) eqn:He.
  { injection E as <-. destruct (setAdd_incl acc (id layer)) as [I1 I2].
    split; [exact I1|]. intros l Hin El. subst k.
    assert (layer = l)
      by (pose proof (mapGet_distinct layers l distinct Hin); congruence).
    subst layer. split; [auto|].
    rewrite isElement_isGroup in He. intros Gg. rewrite Gg in He. discriminate. }
  destruct (forEachM_visits
              (fun a => incl acc a)
              (fun c a =>
                 parentId c = Some k ->
                 (isElement c = true -> In (id c) a)
                 /\ (isGroup c = true ->
                     forall e, Descendant layers (id c) e ->
                               isElement e = true -> In (id e) a))
              (fun elementIds l =>
                 if parentIs (id layer) l
                 then addElementsFrom d layers elementIds (id l)
                 else Ok elementIds)
              layers) with (acc := acc) (r := acc') as (I & Q & _);
    [|apply incl_refl|exact E|].
  - intros a c a' Hc Ia F.
    destruct (parentIs (id layer) c) eqn:Hp.
    + destruct (IH a (id c) a' F) as (I' & K').
      split; [eapply incl_tran; eauto|]. split.
      * intros _. now apply K'.
      * intros y Qy Py. destruct (Qy Py) as [Q1 Q2].
        split; [auto|]. intros Gy e De Ee. apply I'. auto.
    + injection F as <-. split; [exact Ia|]. split; [|auto].
      intros Pc. rewrite <- Eid in Pc. apply parentIs_true in Pc. congruence.
  - split; [exact I|]. intros l Hin El. subst k.
    assert (layer = l)
      by (pose proof (mapGet_distinct layers l distinct Hin); congruence).
    subst layer. split; [intros Ee; congruence|].
    intros _ e De Ee. inversion De as [? ? Hin' Hp'|? c ? Hc Pc Gc Dc]; subst.
    + exact (proj1 (Q e Hin' Hp') Ee).
    + exact (proj2 (Q c Hc Pc) Gc e Dc Ee).
Qed.

(** Where [getDescendantIds] returns, [addElementsFrom] returns with one
    more stack frame. *)
Lemma addElementsFrom_returns (n : nat) :
  forall k ds acc,
    getDescendantIds n layers k = Ok ds ->
    exists acc', addElementsFrom (S n) layers acc k = Ok acc'.
Proof.
  induction n as [|d IH]; intros k ds acc H; [discriminate|].
  rewrite addElementsFrom_S.
  destruct (JsArray.mapGet id layers k) as [layer|] eqn:G; [|eauto].
  destruct (mapGet_Some _ _ _ G) as [Hl Eid].
  destruct (isElement layer); [eauto|].
  destruct (forEachM_invariant (fun _ => True)
              (fun elementIds l =>
                 if parentIs (id layer) l
                 then addElementsFrom (S d) layers elementIds (id l)
                 else Ok elementIds)
              layers) with (acc := acc) as (r & Er & _); [|exact I|eauto].
  intros a c Hc _. destruct (parentIs (id layer) c) eqn:Hp; [|eauto].
  simpl in H. destruct (collect_parts _ _ _ H c) as (ys & Ey & _).
  { apply filter_In. split; [exact Hc | now rewrite <- Eid]. }
  destruct (isGroup c) eqn:Gc.
  - destruct (getDescendantIds d layers (id c)) as [sub|] eqn:Es;
      [|discriminate].
    destruct (IH (id c) sub a Es) as (a' & Ea). eauto.
  - rewrite addElementsFrom_S, (mapGet_distinct layers c distinct Hc).
    rewrite isElement_isGroup, Gc. simpl. eauto.
Qed.

(** What the memo holds when its traversal returns. *)
Lemma selectedElementIds_selects (stack : nat) (selection ids : list string) :
  selectedElementIds stack layers selection = Ok ids ->
  NoDup ids
  /\ forall k, In k ids <->
       exists s l, In s selection /\ In l layers /\ id l = k
                   /\ isElement l = true /\ selects layers s l.
Proof.
  intros E. unfold selectedElementIds in E.
  destruct (forEachM_visits
              (fun a => NoDup a
                        /\ forall x, In x a ->
                             exists s l, In s selection /\ In l layers
                                         /\ id l = x /\ isElement l = true
                                         /\ selects layers s l)
              (fun s a =>
                 forall l, In l layers -> id l = s ->
                   (isElement l = true -> In s a)
                   /\ (isGroup l = true ->
                       forall e, Descendant layers s e -> isElement e = true ->
                                 In (id e) a))
              (addElementsFrom stack layers) selection)
    with (acc := @nil string) (r := ids) as ((ND & Snd) & Q & _);
    [|split; [constructor | intros ? []]|exact E|].
  - intros a s a' Hs (Na & Pa) F.
    destruct (addElementsFrom_sound s stack a s a' F) as (N' & P').
    { intros l G. left. now apply mapGet_Some in G. }
    destruct (addElementsFrom_complete stack a s a' F) as (I' & K').
    split; [split; [auto|]|].
    + intros x Hx. destruct (P' x Hx) as [H|(l & Hl & El & Ee & Sl)]; [auto|].
      exists s, l. auto.
    + split; [exact K'|]. intros y Qy l Hl El.
      destruct (Qy l Hl El) as [Q1 Q2]. split; [auto|].
      intros Gl e De Ee. apply I'. auto.
  - split; [exact ND|]. intros k. split; [apply Snd|].
    intros (s & l & Hs & Hl & El & Ee & [Es|(g & Hg & Eg & Gg & Dg)]).
    + subst k. rewrite Es. apply (Q s Hs l Hl Es). exact Ee.
    + subst k. apply (Q s Hs g Hg Eg); auto.
Qed.

End Elements.

(** On a layer list with distinct ids, when [getDescendantIds] returns for
    the selected ids, the memo [selectedElementIds] returns with one more
    stack frame. It holds no id twice, and it holds exactly the ids of the
    image and text layers that are selected themselves or are listed by
    [getDescendantIds] for a selected group. *)
Theorem selectedElementIds_exact (depth : nat) (layers : list Layer)
  (selection : list string) :
  NoDup (map id layers) ->
  (forall s, In s selection ->
     exists ds, getDescendantIds depth layers s = Ok ds) ->
  exists ids,
    selectedElementIds (S depth) layers selection = Ok ids
    /\ NoDup ids
    /\ forall k, In k ids <->
         exists l, In l layers /\ id l = k /\ isElement l = true
           /\ (In k selection
               \/ exists g ds, In (id g) selection /\ In g layers
                    /\ isGroup g = true
                    /\ getDescendantIds depth layers (id g) = Ok ds
                    /\ In k ds).
Proof.
  intros D R.
  destruct (forEachM_invariant (fun _ => True)
              (addElementsFrom (S depth) layers) selection)
    with (acc := @nil string) as (ids & E & _); [|exact I|].
  { intros a s Hs _. destruct (R s Hs) as (ds & Hds).
    destruct (addElementsFrom_returns layers D depth s ds a Hds) as (a' & Ea).
    eauto. }
  exists ids. split; [exact E|].
  destruct (selectedElementIds_selects layers D (S depth) selection ids E)
    as (ND & Sp).
  split; [exact ND|]. intros k. rewrite Sp. split.
  - intros (s & l & Hs & Hl & El & Ee & [Es|(g & Hg & Eg & Gg & Dg)]).
    + exists l. repeat split; auto. left. congruence.
    + exists l. repeat split; auto. right.
      destruct (R s Hs) as (ds & Hds). exists g, ds. subst s k.
      repeat split; auto.
      exact (getDescendantIds_complete layers (id g) l Dg depth ds Hds).
  - intros (l & Hl & El & Ee & [Hk|(g & ds & Hs & Hg & Gg & Hds & Hk)]).
    + exists k, l. repeat split; auto. now left.
    + destruct (getDescendantIds_sound layers depth (id g) ds Hds k Hk)
        as (l' & Dl & El').
      assert (l' = l).
      { apply (unique_by_id layers); auto; [|congruence].
        now apply Descendant_In with (k := id g). }
      subst l'. exists (id g), l. repeat split; auto.
      right. exists g. auto.
Qed.

Lemma selectedElementIds_exact_witness :
  exists ids,
    selectedElementIds 4 Tree.layers ["g2"; "a"] = Ok ids
    /\ NoDup ids
    /\ forall k, In k ids <->
         exists l, In l Tree.layers /\ id l = k /\ isElement l = true
           /\ (In k ["g2"; "a"]
               \/ exists g ds, In (id g) ["g2"; "a"] /\ In g Tree.layers
                    /\ isGroup g = true
                    /\ getDescendantIds 3 Tree.layers (id g) = Ok ds
                    /\ In k ds).
Proof.
  apply (selectedElementIds_exact 3 Tree.layers ["g2"; "a"]).
  - repeat constructor; simpl; intuition discriminate.
  - intros s [<-|[<-|[]]]; eexists; reflexivity.
Defined.

(** ** Clicking an element on the canvas *)

Lemma find_element (layers : list Layer) (el : Layer) :
  NoDup (map id layers) -> In el layers -> isElement el = true ->
  find (idIs (id el)) (filter isElement layers) = Some el.
Proof.
  intros D Hin He. apply find_unique.
  - now apply NoDup_ids_filter.
  - apply filter_In. auto.
Qed.

(** With the Select tool and distinct layer ids, a click without shift on a
    visible element leaves the selection as it is when the element is
    selected itself or hangs below a selected group (a click on a member of
    a selected group does not break the group selection), and selects the
    element alone otherwise. *)
Theorem click_keeps_group_selection (stringify : list Layer -> string)
  (now : string) (stack : nat) (app : App) (layers : list Layer)
  (ids : list string) (rect : option (number * number)) (e : Mouse.t)
  (el : Layer) :
  layersOf app = Some layers -> NoDup (map id layers) ->
  activeTool app = Select ->
  selectedElementIds stack layers (selectedIds app) = Ok ids ->
  In el layers -> isElement el = true -> visible el = true -> id el <> "" ->
  Mouse.target e = Node (Some (id el)) -> Mouse.shiftKey e = false ->
  ((exists s, In s (selectedIds app) /\ selects layers s el) ->
   handleCanvasMouseDown stringify now app ids rect e = Ok app)
  /\ (~ (exists s, In s (selectedIds app) /\ selects layers s el) ->
      handleCanvasMouseDown stringify now app ids rect e
      = Ok (setSelectedIds app [id el])).
Proof.
  intros Hl D Ht Hm Hin He Hv Hne Htg Hs.
  destruct (selectedElementIds_selects layers D stack _ ids Hm) as (_ & Sp).
  assert (M : In (id el) ids
              <-> exists s, In s (selectedIds app) /\ selects layers s el).
  { rewrite Sp. split.
    - intros (s & l & Hsel & Hl' & El & _ & Sl). exists s. split; [exact Hsel|].
      now rewrite <- (unique_by_id layers l el D Hl' Hin El).
    - intros (s & Hsel & Sl). exists s, el. auto. }
  unfold handleCanvasMouseDown. rewrite Hl, Ht, Htg, Hs. cbn [defined bind].
  apply String.eqb_neq in Hne. rewrite Hne.
  rewrite (find_element layers el D Hin He), Hv.
  split; intros H.
  - apply M, includes_In in H. now rewrite H.
  - destruct (JsArray.includes ids (id el)) eqn:I; [|reflexivity].
    apply includes_In, M in I. contradiction.
Qed.

Lemma click_keeps_group_selection_witness :
  handleCanvasMouseDown Wire.stringify "1"
    (Sample.appWith Tree.layers ["g1"]) ["a"; "b"] None
    (Mouse.mk (Node (Some "b")) false 0%float 0%float)
  = Ok (Sample.appWith Tree.layers ["g1"]).
Proof.
  apply (proj1 (click_keeps_group_selection Wire.stringify "1" 4
                  (Sample.appWith Tree.layers ["g1"]) Tree.layers ["a"; "b"]
                  None (Mouse.mk (Node (Some "b")) false 0%float 0%float)
                  (nth 3 Tree.layers (newGroup ""))
                  eq_refl
                  ltac:(repeat constructor; simpl; intuition discriminate)
                  eq_refl eq_refl
                  ltac:(simpl; auto) eq_refl eq_refl
                  ltac:(discriminate) eq_refl eq_refl)).
  exists "g1". split; [now left|]. right.
  exists (nth 0 Tree.layers (newGroup "")).
  split; [simpl; auto|]. split; [reflexivity|]. split; [reflexivity|].
  apply Descendant_deeper with (c := nth 2 Tree.layers (newGroup ""));
    [simpl; auto | reflexivity | reflexivity |].
  apply Descendant_child; [simpl; auto | reflexivity].
Defined.

(** ** Gestures on several elements *)

Lemma findIndex_snoc {A} (p : A -> bool) (l : list A) (x : A) :
  JsArray.findIndex p (l ++ [x])
  = if JsArray.findIndex p l =? -1
    then if p x then JsArray.len l else -1
    else JsArray.findIndex p l.
Proof.
  induction l as [|a l IH]; simpl.
  - destruct (p x); reflexivity.
  - destruct (p a); [reflexivity|]. rewrite IH.
    rewrite JsArrayFacts.len_cons. pose proof (JsArrayFacts.len_nonneg l).
    destruct (JsArrayFacts.findIndex_range p l) as [E|R].
    + rewrite E. simpl. destruct (p x); [|reflexivity].
      destruct (Z.ltb_spec (JsArray.len l) 0); [lia | reflexivity].
    + destruct (Z.eqb_spec (JsArray.findIndex p l) (-1)); [lia|].
      destruct (Z.ltb_spec (JsArray.findIndex p l) 0); [lia|].
      destruct (Z.eqb_spec (JsArray.findIndex p l + 1) (-1)); [lia|reflexivity].
Qed.

Lemma findIndex_In (l : list string) (k : string) :
  JsArray.findIndex (String.eqb k) l = -1 <-> ~ In k l.
Proof.
  rewrite JsArrayFacts.findIndex_none, forallb_forall. split.
  - intros H Hin. specialize (H k Hin). now rewrite String.eqb_refl in H.
  - intros H x Hx. destruct (String.eqb_spec k x); [now subst|reflexivity].
Qed.

Lemma updateElement_id k props l : id (updateElement k props l) = id l.
Proof.
  unfold updateElement. destruct (idIs k l && isElement l); [|reflexivity].
  apply spreadProps_shape.
Qed.

Lemma updatedBy_id targets updateFn l : id (updatedBy targets updateFn l) = id l.
Proof.
  unfold updatedBy. destruct (_ =? -1); [reflexivity|].
  destruct (isElement l); [apply spreadProps_shape | reflexivity].
Qed.

Lemma assign_middle {A} (l1 l2 : list A) (x v : A) :
  assign (l1 ++ x :: l2) (JsArray.len l1) v = l1 ++ v :: l2.
Proof.
  unfold assign, JsArray.len. rewrite Nat2Z.id.
  induction l1 as [|a l1 IH]; simpl; [reflexivity|].
  simpl in IH. now rewrite IH.
Qed.

(** Writing at the position [findIndex] gives is [handleElementUpdate]'s map
    when no two layers share an id. *)
Lemma assign_updateElement (newLayers : list Layer) (t : string)
  (props : Props) (layer : Layer) :
  NoDup (map id newLayers) ->
  JsArray.get newLayers (JsArray.findIndex (idIs t) newLayers) = Some layer ->
  (if isElement layer
   then assign newLayers (JsArray.findIndex (idIs t) newLayers)
          (spreadProps layer props)
   else newLayers)
  = map (updateElement t props) newLayers.
Proof.
  intros D G. rewrite get_findIndex in G.
  destruct (find_split _ _ _ G) as (l1 & l2 & E & H1 & Ht).
  assert (H2 : forall y, In y l2 -> idIs t y = false).
  { intros y Hy. rewrite E, map_app in D. simpl in D.
    apply NoDup_remove_2 in D. apply idIs_false. intros Ey. apply D.
    apply in_or_app. right. apply idIs_true in Ht.
    rewrite Ht, <- Ey. now apply in_map. }
  assert (M : map (updateElement t props) newLayers
              = l1 ++ updateElement t props layer :: l2).
  { rewrite E, map_app. simpl. f_equal; [|f_equal].
    - apply map_fixed. intros y Hy. unfold updateElement. now rewrite H1.
    - apply map_fixed. intros y Hy. unfold updateElement. now rewrite H2. }
  rewrite M. unfold updateElement. rewrite Ht. simpl.
  destruct (isElement layer); [|exact E].
  rewrite E at 1 2.
  rewrite (findIndex_first _ l1 layer l2 H1 Ht). apply assign_middle.
Qed.

Section GroupUpdate.
Variable layers : list Layer.
Hypothesis distinct : NoDup (map id layers).
Variable updateFn : string -> Z -> Props.

Local Abbreviation body :=
  (fun (st : list Layer * list string) (t : string) (i : Z) =>
     let newLayers := fst st in
     let updatedIds := snd st in
     let index := JsArray.findIndex (idIs t) newLayers in
     if (-1 <? index) && negb (JsArray.includes updatedIds t) then
       layer <- defined (JsArray.get newLayers index) ;;
       Ok (if isElement layer
           then assign newLayers index (spreadProps layer (updateFn t i))
           else newLayers,
           setAdd updatedIds t)
     else Ok st).

Lemma updatedBy_snoc_same (pre : list string) (t : string) (l : Layer) :
  In t pre \/ id l <> t ->
  updatedBy (pre ++ [t]) updateFn l = updatedBy pre updateFn l.
Proof.
  intros H. unfold updatedBy. rewrite findIndex_snoc.
  destruct (JsArray.findIndex (String.eqb (id l)) pre =? -1) eqn:E;
    [|now rewrite E].
  apply Z.eqb_eq in E. apply findIndex_In in E.
  destruct (String.eqb_spec (id l) t) as [Et|Et]; [|reflexivity].
  exfalso. destruct H as [H|H]; [|auto]. apply E. now rewrite Et.
Qed.

Lemma updatedBy_snoc_new (pre : list string) (t : string) (l : Layer) :
  ~ In t pre ->
  updatedBy (pre ++ [t]) updateFn l
  = updateElement t (updateFn t (JsArray.len pre)) (updatedBy pre updateFn l).
Proof.
  intros N. destruct (String.eqb_spec (id l) t) as [Et|Et].
  - unfold updatedBy at 2. subst t.
    rewrite (proj2 (findIndex_In pre (id l)) N). simpl.
    unfold updatedBy, updateElement, idIs. rewrite findIndex_snoc.
    rewrite (proj2 (findIndex_In pre (id l)) N). simpl.
    rewrite String.eqb_refl. simpl.
    pose proof (JsArrayFacts.len_nonneg pre).
    destruct (Z.eqb_spec (JsArray.len pre) (-1)); [lia | reflexivity].
  - rewrite updatedBy_snoc_same by now right.
    unfold updateElement.
    assert (F : idIs t (updatedBy pre updateFn l) = false).
    { apply idIs_false. now rewrite updatedBy_id. }
    now rewrite F.
Qed.

Lemma groupUpdate_loop (post : list string) :
  forall pre st,
    fst st = map (updatedBy pre updateFn) layers ->
    (forall k, In k (snd st) <-> In k pre /\ In k (map id layers)) ->
    exists st',
      forEachIndexedM body st post (JsArray.len pre) = Ok st'
      /\ fst st' = map (updatedBy (pre ++ post) updateFn) layers.
Proof.
  induction post as [|t post IH]; intros pre st Hf Hs; simpl.
  - exists st. now rewrite app_nil_r.
  - assert (Ids : map id (fst st) = map id layers).
    { rewrite Hf, map_map. apply map_ext. intros; apply updatedBy_id. }
    assert (Next : forall st1,
               fst st1 = map (updatedBy (pre ++ [t]) updateFn) layers ->
               (forall k, In k (snd st1)
                          <-> In k (pre ++ [t]) /\ In k (map id layers)) ->
               exists st',
                 forEachIndexedM body st1 post (JsArray.len pre + 1) = Ok st'
                 /\ fst st' = map (updatedBy (pre ++ t :: post) updateFn) layers).
    { intros st1 H1 H2. destruct (IH (pre ++ [t]) st1 H1 H2) as (st' & E & F).
      rewrite JsArrayFacts.len_app in E. rewrite <- app_assoc in F.
      exists st'. split; [exact E | exact F]. }
    destruct (JsArrayFacts.findIndex_range (idIs t) (fst st)) as [E|R].
    + (* no layer has the id of the target *)
      rewrite E. simpl. apply Next.
      * rewrite Hf. apply map_ext_in. intros l Hl. symmetry.
        apply updatedBy_snoc_same. right. intros El.
        apply JsArrayFacts.findIndex_none in E.
        rewrite forallb_forall in E.
        assert (Hin : In (id l) (map id (fst st)))
          by (rewrite Ids; now apply in_map).
        apply in_map_iff in Hin as (y & Ey & Hy). specialize (E y Hy).
        apply negb_true_iff, idIs_false in E. congruence.
      * intros k. rewrite Hs, in_app_iff. split; [tauto|].
        intros [[H|[<-|[]]] Hk]; [tauto|]. exfalso.
        apply JsArrayFacts.findIndex_none in E. rewrite forallb_forall in E.
        rewrite <- Ids in Hk. apply in_map_iff in Hk as (y & Ey & Hy).
        specialize (E y Hy). apply negb_true_iff, idIs_false in E. congruence.
    + assert (Ht : In t (map id layers)).
      { rewrite <- Ids.
        destruct (find (idIs t) (fst st)) as [y|] eqn:F.
        - apply find_some in F as [Hy Ey]. apply idIs_true in Ey.
          rewrite <- Ey. now apply in_map.
        - rewrite <- get_findIndex in F.
          destruct (JsArray.get (fst st) (JsArray.findIndex (idIs t) (fst st)))
            eqn:G; [discriminate|].
          unfold JsArray.get in G.
          destruct (Z.ltb_spec (JsArray.findIndex (idIs t) (fst st)) 0);
            [lia|].
          apply nth_error_None in G. unfold JsArray.len in R. lia. }
      destruct (Z.ltb_spec (-1) (JsArray.findIndex (idIs t) (fst st)));
        [|lia].
      destruct (JsArray.includes (snd st) t) eqn:Hu; simpl.
      * (* the target was updated before *)
        apply includes_In, Hs in Hu as [Hp _].
        apply Next.
        -- rewrite Hf. apply map_ext. intros l. symmetry.
           apply updatedBy_snoc_same. now left.
        -- intros k. rewrite Hs, in_app_iff. split; [tauto|].
           intros [[Hk|[<-|[]]] Hk']; tauto.
      * assert (Np : ~ In t pre).
        { intros Hp. assert (In t (snd st)) by (apply Hs; auto).
          apply includes_In in H0. congruence. }
        destruct (JsArray.get (fst st) (JsArray.findIndex (idIs t) (fst st)))
          as [layer|] eqn:G.
        2:{ exfalso. unfold JsArray.get in G.
            destruct (Z.ltb_spec (JsArray.findIndex (idIs t) (fst st)) 0);
              [lia|].
            apply nth_error_None in G. unfold JsArray.len in R. lia. }
        simpl. apply Next; cbn [fst snd].
        -- rewrite (assign_updateElement (fst st) t _ layer);
             [|now rewrite Ids|exact G].
           rewrite Hf, map_map. apply map_ext. intros l. symmetry.
           now apply updatedBy_snoc_new.
        -- intros k. destruct (setAdd_incl (snd st) t) as [I1 I2].
           rewrite in_app_iff. split.
           ++ intros Hk. apply setAdd_In in Hk as [Hk| ->].
              ** apply Hs in Hk. tauto.
              ** split; [right; now left | exact Ht].
           ++ intros [[Hk|[<-|[]]] Hk']; [apply I1, Hs; tauto | exact I2].
Qed.

Lemma groupUpdate_layers (targets : list string) :
  groupUpdate targets updateFn layers
  = Ok (map (updatedBy targets updateFn) layers).
Proof.
  unfold groupUpdate.
  destruct (groupUpdate_loop targets [] (layers, [])) as (st' & E & F).
  - cbn [fst]. symmetry. apply map_fixed. intros l _. reflexivity.
  - intros k. simpl. tauto.
  - change (JsArray.len []) with 0 in E. cbv zeta in E. rewrite E. simpl.
    now rewrite F.
Qed.

End GroupUpdate.

Lemma Forall2_map_left {A} (S : A -> A -> Prop) (g : A -> A) (l : list A) :
  Forall2 S (map g l) l -> forall x, In x l -> S (g x) x.
Proof.
  induction l as [|a l IH]; intros H x Hx; [destruct Hx|].
  simpl in H. inversion H; subst. destruct Hx as [<-|Hx]; auto.
Qed.

Section GesturesCommitted.
Variable stringify : list Layer -> string.

Lemma setLayers_ext (app : App) (f g : option (list Layer) -> result (list Layer)) :
  f (layersOf app) = g (layersOf app) ->
  setLayers stringify app (Updater f) = setLayers stringify app (Updater g).
Proof.
  intros E. unfold setLayers, setState, setStateCalls, layersOf in *.
  now rewrite E.
Qed.

(** On a layer list with distinct ids [handleGroupUpdate] passes on the
    layers [new] in which every image or text layer that is among the
    targets has the properties [updateFn] gives for its first position among
    them written over its fields, and every other layer is untouched. [new]
    becomes the current list unless its JSON text is that of the current
    list, where nothing changes. With a single target the handler is
    [handleElementUpdate] for that target. *)
Theorem groupUpdate_each (app : App) (layers : list Layer)
  (targets : list string) (updateFn : string -> Z -> Props) :
  layersOf app = Some layers -> NoDup (map id layers) ->
  (exists app' new,
     handleGroupUpdate stringify app targets updateFn = Ok app'
     /\ Forall2 (fun l l' =>
                   if JsArray.findIndex (String.eqb (id l)) targets =? -1
                   then l' = l
                   else propsApplied
                          (updateFn (id l)
                             (JsArray.findIndex (String.eqb (id l)) targets))
                          l l')
                layers new
     /\ (stringify new <> stringify layers -> layersOf app' = Some new)
     /\ (stringify new = stringify layers -> app' = app))
  /\ forall t, handleGroupUpdate stringify app [t] updateFn
               = handleElementUpdate stringify app t (updateFn t 0).
Proof.
  intros Hl D. split.
  - unfold handleGroupUpdate.
    destruct (setLayers_cases stringify app
                (fun prev => prevLayers <- defined prev ;;
                             groupUpdate targets updateFn prevLayers)
                layers (map (updatedBy targets updateFn) layers) Hl)
      as (app' & E & Hnew & Hsame).
    { simpl. now apply groupUpdate_layers. }
    exists app', (map (updatedBy targets updateFn) layers).
    split; [exact E|]. split; [|auto].
    apply Forall2_map_self. intros l _. unfold updatedBy.
    destruct (JsArray.findIndex (String.eqb (id l)) targets =? -1);
      [reflexivity|].
    destruct (updateFn (id l) (JsArray.findIndex (String.eqb (id l)) targets))
      as [[?|] [?|] [?|] [?|] [?|] [?|]];
      destruct l as [e|e|g]; simpl; repeat split; reflexivity.
  - intros t. unfold handleGroupUpdate, handleElementUpdate.
    apply setLayers_ext. rewrite Hl. cbn [defined bind].
    rewrite (groupUpdate_layers layers D). f_equal.
    apply map_ext. intros l. unfold updatedBy, idIs. simpl.
    destruct (String.eqb_spec (id l) t) as [->|N]; [|reflexivity].
    simpl. reflexivity.
Qed.

(** Lists with the same JSON text are alike: what [JSON.stringify] gives. *)
Hypothesis stringify_reads :
  forall a b, stringify a = stringify b -> Forall2 jsonAlike a b.

(** The group path of C8. On a layer list with distinct ids, when a resize
    gesture on several targets ends and the event of a text target (at its
    first position among the targets) has height [height],
    [onResizeGroupEnd] passes on the layers [new] that hold that text with
    the event's geometry and the font size [height / 1.2], or 1 when that is
    below 1, and the layers that are no targets as before. [new] becomes the
    current list unless its JSON text is that of the current list, where
    nothing changes. Either way, when [height / 1.2] is a number that JSON
    prints, the text has that font size afterwards. *)
Theorem resize_group_text_fontSize (app : App) (layers : list Layer)
  (pre post : list string) (events : list LastEvent) (t : Text.t)
  (width height drag_left drag_top : number) :
  layersOf app = Some layers -> NoDup (map id layers) ->
  In (LText t) layers -> ~ In (Text.id t) pre ->
  JsArray.get events (JsArray.len pre)
  = Some (OnResize width height drag_left drag_top) ->
  exists app' new,
    onResizeGroupEnd stringify app (pre ++ Text.id t :: post) events = Ok app'
    /\ (exists t', In (LText t') new
          /\ propsApplied
               (mkProps (Some drag_left) (Some drag_top) (Some width)
                  (Some height) None (Some (fontSizeAt height)))
               (LText t) (LText t'))
    /\ (forall l, ~ In (id l) (pre ++ Text.id t :: post) ->
          In l new <-> In l layers)
    /\ (stringify new <> stringify layers -> layersOf app' = Some new)
    /\ (stringify new = stringify layers -> app' = app)
    /\ (printsNull (height / 0x1.3333333333333p+0)%float = false ->
        exists ls,
          layersOf app' = Some ls
          /\ forall t', In (LText t') ls -> Text.id t' = Text.id t ->
               Text.fontSize t'
               = (if (1 <? height / 0x1.3333333333333p+0)%float
                  then (height / 0x1.3333333333333p+0)%float else 1%float)).
Proof.
  intros Hl D Hin Np Hev. unfold onResizeGroupEnd. rewrite Hl.
  cbn [defined bind]. unfold handleGroupUpdate.
  set (targets := pre ++ Text.id t :: post).
  set (fn := resizeGroupProps (filter isElement layers) events).
  set (props := mkProps (Some drag_left) (Some drag_top) (Some width)
                  (Some height) None (Some (fontSizeAt height))).
  destruct (setLayers_cases stringify app
              (fun prev => prevLayers <- defined prev ;;
                           groupUpdate targets fn prevLayers)
              layers (map (updatedBy targets fn) layers) Hl)
    as (app' & E & Hnew & Hsame).
  { simpl. now apply groupUpdate_layers. }
  exists app', (map (updatedBy targets fn) layers). split; [exact E|].
  assert (U : updatedBy targets fn (LText t) = spreadProps (LText t) props).
  { unfold updatedBy, targets. cbn [id].
    rewrite (findIndex_first (String.eqb (Text.id t)) pre (Text.id t) post).
    - pose proof (JsArrayFacts.len_nonneg pre).
      destruct (Z.eqb_spec (JsArray.len pre) (-1)); [lia|]. cbn [isElement].
      f_equal. unfold fn, resizeGroupProps. rewrite Hev.
      change (Text.id t) with (id (LText t)).
      rewrite (find_element layers (LText t) D Hin eq_refl).
      unfold props. f_equal. f_equal.
      unfold calculateFontSizeFromHeight, fontSizeAt, Math_max.
      change (PrimFloat.is_nan 1) with false. simpl.
      destruct (PrimFloat.is_nan _); auto. destruct (1 <? _)%float; auto.
      destruct (_ <? 1)%float; reflexivity.
    - intros x Hx. apply String.eqb_neq. intros Ex. apply Np. now rewrite Ex.
    - apply String.eqb_refl. }
  assert (X : exists t2, spreadProps (LText t) props = LText t2)
    by (simpl; eauto).
  destruct X as (t2 & Es).
  split.
  { exists t2. split.
    - rewrite <- Es, <- U. now apply in_map.
    - rewrite <- Es. simpl. repeat split; reflexivity. }
  split.
  { intros l Nt.
    assert (Same : forall x, id x = id l -> updatedBy targets fn x = x).
    { intros x Ex. unfold updatedBy. rewrite Ex.
      now rewrite (proj2 (findIndex_In targets (id l)) Nt). }
    split.
    + intros H. apply in_map_iff in H as (x & Ex & Hx).
      rewrite Same in Ex; [now subst|].
      now rewrite <- Ex, updatedBy_id.
    + intros H. apply in_map_iff. exists l. split; [now apply Same | exact H]. }
  split; [exact Hnew|]. split; [exact Hsame|].
  intros P.
  assert (F : forall t', spreadProps (LText t) props = LText t' ->
                Text.fontSize t'
                = (if (1 <? height / 0x1.3333333333333p+0)%float
                   then (height / 0x1.3333333333333p+0)%float else 1%float)).
  { intros t' Et. injection Et as <-. cbn.
    now apply fontSizeAt_prints. }
  destruct (String.eqb_spec (stringify (map (updatedBy targets fn) layers))
              (stringify layers)) as [J|J].
  - rewrite (Hsame J). exists layers. split; [exact Hl|].
    intros t' Ht' Eid.
    assert (LText t' = LText t)
      by (apply (unique_by_id layers); auto).
    injection H as ->.
    pose proof (Forall2_map_left _ _ _ (stringify_reads _ _ J) _ Hin) as A.
    rewrite U, Es in A. simpl in A.
    assert (N : numberAlike (Text.fontSize t2) (Text.fontSize t)) by tauto.
    rewrite (F t2 Es) in N.
    destruct (larger_prints _ P) as [P1 Z1].
    exact (numberAlike_eq _ _ P1 Z1 N).
  - exists (map (updatedBy targets fn) layers). split; [now apply Hnew|].
    intros t' Ht' Eid. apply in_map_iff in Ht' as (l & El & Hl').
    assert (l = LText t).
    { apply (unique_by_id layers); auto.
      rewrite <- (updatedBy_id targets fn l), El. exact Eid. }
    subst l. rewrite U in El. now apply F.
Qed.

End GesturesCommitted.

Lemma groupUpdate_each_witness :
  (exists app' new,
     handleGroupUpdate Json.stringify (Sample.appWith Resize.layers [])
       ["initial-element-1"; "el-1"]
       (fun _ _ => mkProps (Some 5%float) (Some 7%float) None None None None)
     = Ok app'
     /\ Forall2 (fun l l' =>
                   if JsArray.findIndex (String.eqb (id l))
                        ["initial-element-1"; "el-1"] =? -1
                   then l' = l
                   else propsApplied
                          (mkProps (Some 5%float) (Some 7%float)
                             None None None None) l l')
                Resize.layers new
     /\ (Json.stringify new <> Json.stringify Resize.layers ->
         layersOf app' = Some new)
     /\ (Json.stringify new = Json.stringify Resize.layers ->
         app' = Sample.appWith Resize.layers []))
  /\ forall t,
       handleGroupUpdate Json.stringify (Sample.appWith Resize.layers []) [t]
         (fun _ _ => mkProps (Some 5%float) (Some 7%float) None None None None)
       = handleElementUpdate Json.stringify (Sample.appWith Resize.layers []) t
           (mkProps (Some 5%float) (Some 7%float) None None None None).
Proof.
  apply (groupUpdate_each Json.stringify
           (Sample.appWith Resize.layers []) Resize.layers
           ["initial-element-1"; "el-1"]
           (fun _ _ => mkProps (Some 5%float) (Some 7%float)
                         None None None None)).
  - reflexivity.
  - repeat constructor; simpl; intuition discriminate.
Defined.

Lemma resize_group_text_fontSize_witness :
  exists app' ls,
    onResizeGroupEnd Json.stringify (Sample.appWith Resize.layers [])
      (["initial-element-1"] ++ "el-1" :: [])
      [OnResize 100%float 100%float 0%float 0%float;
       OnResize 250%float 60%float 10%float 20%float] = Ok app'
    /\ layersOf app' = Some ls
    /\ forall t', In (LText t') ls -> Text.id t' = "el-1" ->
         Text.fontSize t' = 50%float.
Proof.
  destruct (resize_group_text_fontSize Json.stringify JsonFacts.stringify_reads
              (Sample.appWith Resize.layers [])
              Resize.layers ["initial-element-1"] []
              [OnResize 100%float 100%float 0%float 0%float;
               OnResize 250%float 60%float 10%float 20%float]
              Resize.label 250%float 60%float 10%float 20%float
              eq_refl
              ltac:(repeat constructor; simpl; intuition discriminate)
              ltac:(simpl; auto)
              ltac:(simpl; intuition discriminate)
              eq_refl)
    as (app' & new & E & _ & _ & _ & _ & F).
  destruct (F eq_refl) as (ls & Hls & S).
  exists app', ls. split; [exact E|]. split; [exact Hls | exact S].
Defined.

(** ** Dropping a row inside a group *)

Section PanelDropCommitted.
Variable stringify : list Layer -> string.
Hypothesis stringify_inj : forall a b, stringify a = stringify b -> a = b.

(** On a layer list with distinct ids, when [handleDragOver] leaves the
    indicator [inside] on the row of a layer, that layer is a group, it is
    not the dragged layer, and the drop that follows is never turned down by
    [handleReorderAndReparentLayers]: the committed list holds a layer with
    the id of the group as [parentId] and every other field of the dragged
    layer, the other layers are kept, and the panel is back to its idle
    state. *)
Theorem drop_inside_reparents (depth : nat) (app : App) (layers : list Layer)
  (p p' : Panel) (dragged dropLayer : Layer) (dropY height : number) :
  layersOf app = Some layers -> NoDup (map id layers) ->
  In dragged layers -> In dropLayer layers ->
  dragId p = Some (id dragged) ->
  handleDragOver depth layers p (id dropLayer) dropY height = Ok p' ->
  dropIndicator p' = Some (id dropLayer, inside) ->
  isGroup dropLayer = true
  /\ id dragged <> id dropLayer
  /\ exists app' layers' moved,
       dropOnPanel stringify depth app p' = Ok (app', mkPanel None None)
       /\ layersOf app' = Some layers'
       /\ In moved layers'
       /\ parentId moved = Some (id dropLayer)
       /\ sameButParent moved dragged
       /\ forall l, id l <> id dragged -> In l layers' <-> In l layers.
Proof.
  intros Hl D Hg Hd Hp Ho Hi.
  unfold handleDragOver in Ho. rewrite Hp in Ho.
  destruct (String.eqb_spec (id dragged) "") as [E0|N0];
    [injection Ho as <-; discriminate|].
  destruct (String.eqb_spec (id dragged) (id dropLayer)) as [E1|N1];
    [injection Ho as <-; discriminate|].
  cbn [orb] in Ho. rewrite (find_unique layers D dropLayer Hd) in Ho.
  cbv zeta in Ho.
  assert (Pos : dropPosition dropLayer dropY height = inside
                /\ exists ds, getDescendantIds depth layers (id dragged) = Ok ds
                              /\ ~ In (id dropLayer) ds).
  { destruct (dropPosition dropLayer dropY height) eqn:Epos.
    - simpl in Ho. injection Ho as <-. discriminate.
    - simpl in Ho. injection Ho as <-. discriminate.
    - split; [reflexivity|]. rewrite panelGetDescendantIds_eq in Ho.
      destruct (getDescendantIds depth layers (id dragged)) as [ds|] eqn:Eds;
        [|discriminate].
      simpl in Ho. exists ds. split; [reflexivity|].
      destruct (JsArray.includes ds (id dropLayer)) eqn:Inc.
      + injection Ho as <-. discriminate.
      + intros H. apply includes_In in H. congruence. }
  destruct Pos as (Epos & ds & Hds & Nd).
  split.
  { unfold dropPosition in Epos. destruct (isGroup dropLayer); [reflexivity|].
    destruct (_ <? _)%float; discriminate. }
  split; [exact N1|].
  assert (Nc : parentId dropLayer <> Some (id dragged)).
  { intros Pc. apply Nd.
    apply (getDescendantIds_complete layers (id dragged) dropLayer
             (Descendant_child layers _ _ Hd Pc) depth ds Hds). }
  destruct (reorderLayers_inside depth layers (id dragged) (id dropLayer) D
              dragged dropLayer Hg eq_refl Hd eq_refl N1 ds Nc Hds Nd)
    as (l1 & anchor & l2 & Eo & Ei & _).
  destruct (setLayers_updater stringify stringify_inj app
              (fun prev => prev <- defined prev ;;
                 reorderLayers depth prev (id dragged) (id dropLayer) inside prev)
              layers _ Hl Ei) as (h & S & Hh).
  assert (Hdrag : dragId p' = Some (id dragged)).
  { rewrite Epos in Ho. rewrite panelGetDescendantIds_eq, Hds in Ho.
    simpl in Ho. destruct (JsArray.includes ds (id dropLayer));
      injection Ho as <-; exact Hp. }
  exists (setLayersHistory app h),
         (l1 ++ anchor :: withParentId dragged (Some (id dropLayer)) :: l2),
         (withParentId dragged (Some (id dropLayer))).
  split.
  { unfold dropOnPanel, handleDrop. rewrite Hi, Hdrag.
    apply String.eqb_neq in N0. rewrite N0.
    unfold handleReorderAndReparentLayers. rewrite S. reflexivity. }
  split; [exact Hh|]. split.
  { apply in_or_app. right. right. now left. }
  split; [now destruct dragged|].
  split; [destruct dragged; simpl; repeat split; reflexivity|].
  intros l Nl.
  assert (Keep : In l layers
                 <-> In l (filter (fun l => negb (idIs (id dragged) l)) layers)).
  { rewrite filter_In. split; [|tauto]. intros H. split; [exact H|].
    apply negb_true_iff. now apply idIs_false. }
  rewrite Keep, Eo, !in_app_iff. simpl. split.
  - intros [H|[H|[H|H]]]; auto.
    exfalso. apply Nl. rewrite <- H. apply id_withParentId.
  - intros [H|[H|H]]; auto.
Qed.

End PanelDropCommitted.

Lemma drop_inside_reparents_witness :
  isGroup (nth 2 Tree.layers (newGroup "")) = true
  /\ id (nth 1 Tree.layers (newGroup "")) <> id (nth 2 Tree.layers (newGroup ""))
  /\ exists app' layers' moved,
       dropOnPanel Wire.stringify 3 (Sample.appWith Tree.layers [])
         (mkPanel (Some "a") (Some ("g2", inside)))
       = Ok (app', mkPanel None None)
       /\ layersOf app' = Some layers'
       /\ In moved layers'
       /\ parentId moved = Some "g2"
       /\ sameButParent moved (nth 1 Tree.layers (newGroup ""))
       /\ forall l, id l <> "a" -> In l layers' <-> In l Tree.layers.
Proof.
  apply (drop_inside_reparents Wire.stringify WireFacts.stringify_injective 3
           (Sample.appWith Tree.layers []) Tree.layers
           (mkPanel (Some "a") None) (mkPanel (Some "a") (Some ("g2", inside)))
           (nth 1 Tree.layers (newGroup "")) (nth 2 Tree.layers (newGroup ""))
           20%float 40%float).
  - reflexivity.
  - repeat constructor; simpl; intuition discriminate.
  - simpl; auto.
  - simpl; auto.
  - reflexivity.
  - reflexivity.
  - reflexivity.
Defined.

(** ** Freehand drawing *)

Lemma drawStep_paths (s : Drawing) (e : DrawEvent) :
  Forall (fun p => 2 <= JsArray.len p) (paths s) ->
  Forall (fun p => 2 <= JsArray.len p) (paths (drawStep s e)).
Proof.
  intros H. destruct e as [x y|c x y| | |]; simpl; auto.
  - unfold handleDrawMove.
    destruct (negb (isDrawing s)); [exact H|].
    destruct (negb c); [exact H|].
    destruct (_ =? 0); exact H.
  - unfold handleDrawEnd. destruct (isDrawing s); [|exact H]. simpl.
    destruct (Z.ltb_spec 1 (JsArray.len (currentPath s))); [|exact H].
    apply Forall_app. split; [exact H|]. constructor; [lia | constructor].
  - unfold handleDrawEnd. destruct (isDrawing s); [|exact H]. simpl.
    destruct (Z.ltb_spec 1 (JsArray.len (currentPath s))); [|exact H].
    apply Forall_app. split; [exact H|]. constructor; [lia | constructor].
Qed.

(** Whatever mouse and clear events reach the drawing canvas, every path
    kept in [drawingState.paths] has at least two points: a press and
    release without a recorded move leaves no path, so none of the
    [points.length < 2] guards of the painting code skips a stored path. *)
Theorem drawing_paths_two_points (events : list DrawEvent) :
  Forall (fun p => 2 <= JsArray.len p) (paths (draw noDrawing events)).
Proof.
  unfold draw.
  assert (H : Forall (fun p : list Point => 2 <= JsArray.len p)
                (paths noDrawing)) by constructor.
  revert H. generalize noDrawing as s.
  induction events as [|e events IH]; intros s H; simpl; [exact H|].
  apply IH. now apply drawStep_paths.
Qed.

Lemma draw_moves (moves : list Point) :
  forall pts stored,
    pts <> [] ->
    draw (mkDrawing true pts stored)
         (map (fun p => MouseMove true (fst p) (snd p)) moves)
    = mkDrawing true (pts ++ moves) stored.
Proof.
  induction moves as [|[x y] moves IH]; intros pts stored N; simpl.
  - now rewrite app_nil_r.
  - unfold handleDrawMove. simpl.
    destruct (Z.eqb_spec (JsArray.len pts) 0) as [E|_].
    + destruct pts; [congruence|]. rewrite JsArrayFacts.len_cons in E.
      pose proof (JsArrayFacts.len_nonneg pts). lia.
    + fold (draw (mkDrawing true (JsArray.push pts (x, y)) stored)
              (map (fun p => MouseMove true (fst p) (snd p)) moves)).
      unfold JsArray.push. rewrite IH by (now destruct pts).
      now rewrite <- app_assoc.
Qed.

(** One stroke, from any state of the canvas: a press at [p0], moves
    through [moves] while the canvas has its context, and a release append
    the path [p0 :: moves] to the stored paths when there was at least one
    move, and leave them unchanged otherwise; the canvas is idle afterwards. *)
Theorem draw_stroke (s : Drawing) (p0 : Point) (moves : list Point) :
  draw s (MouseDown (fst p0) (snd p0)
          :: map (fun p => MouseMove true (fst p) (snd p)) moves ++ [MouseUp])
  = mkDrawing false []
      (match moves with
       | [] => paths s
       | _ => paths s ++ [p0 :: moves]
       end).
Proof.
  unfold draw. simpl. rewrite fold_left_app.
  fold (draw (handleDrawStart s (fst p0) (snd p0))
          (map (fun p => MouseMove true (fst p) (snd p)) moves)).
  unfold handleDrawStart. rewrite draw_moves by discriminate.
  simpl. unfold handleDrawEnd. simpl. destruct p0 as [x y]. simpl.
  destruct moves as [|m moves]; [reflexivity|].
  rewrite !JsArrayFacts.len_cons. pose proof (JsArrayFacts.len_nonneg moves).
  destruct (Z.ltb_spec 1 (JsArray.len moves + 1 + 1)); [reflexivity | lia].
Qed.

(** ** Stacking on the canvas and in the export *)

Lemma indexed_app {A} (l1 l2 : list A) (i : Z) :
  indexed (l1 ++ l2) i = indexed l1 i ++ indexed l2 (i + JsArray.len l1).
Proof.
  revert i. induction l1 as [|x l1 IH]; intros i; simpl.
  - f_equal. unfold JsArray.len. simpl. lia.
  - rewrite IH. do 3 f_equal. rewrite JsArrayFacts.len_cons. lia.
Qed.

(** Of two visible elements, the one that comes later in the layer list gets
    the higher [zIndex] on the canvas and so lies on top there, while
    [handleSaveImage] paints it first, so that in the exported image the
    earlier one lies on top: the export stacks the elements the other way
    round. *)
Theorem export_reverses_stacking (l1 l2 l3 : list Layer) (a b : Layer) :
  isElement a = true -> visible a = true ->
  isElement b = true -> visible b = true ->
  (exists s1 s2 s3 za zb,
     rendered (filter isElement (l1 ++ a :: l2 ++ b :: l3))
     = s1 ++ (a, za) :: s2 ++ (b, zb) :: s3
     /\ za < zb)
  /\ exists r1 r2 r3,
       visibleElements (l1 ++ a :: l2 ++ b :: l3) = r1 ++ b :: r2 ++ a :: r3.
Proof.
  intros Ea Va Eb Vb. split.
  - unfold rendered.
    rewrite !filter_app. simpl. rewrite Ea. simpl. rewrite Va.
    rewrite !filter_app. simpl. rewrite Eb. simpl. rewrite Vb.
    rewrite indexed_app. simpl. rewrite indexed_app. simpl.
    rewrite !map_app. simpl. rewrite !map_app. simpl.
    do 5 eexists. split; [reflexivity|].
    pose proof (JsArrayFacts.len_nonneg
                  (filter visible (filter isElement l2))). lia.
  - unfold visibleElements.
    rewrite !filter_app. simpl. rewrite Ea, Va. simpl.
    rewrite !filter_app. simpl. rewrite Eb, Vb. simpl.
    rewrite rev_app_distr. simpl. rewrite rev_app_distr. simpl.
    rewrite <- !app_assoc. simpl.
    do 3 eexists. reflexivity.
Qed.

Lemma export_reverses_stacking_witness :
  (exists s1 s2 s3 za zb,
     rendered (filter isElement
                 ([] ++ LText Resize.label :: [] ++ LImage Sample.astronaut :: []))
     = s1 ++ (LText Resize.label, za) :: s2
          ++ (LImage Sample.astronaut, zb) :: s3
     /\ za < zb)
  /\ exists r1 r2 r3,
       visibleElements
         ([] ++ LText Resize.label :: [] ++ LImage Sample.astronaut :: [])
       = r1 ++ LImage Sample.astronaut :: r2 ++ LText Resize.label :: r3.
Proof.
  apply (export_reverses_stacking [] [] [] (LText Resize.label)
           (LImage Sample.astronaut)); reflexivity.
Defined.

(** ** What the side panels show *)

Lemma find_image (layers : list Layer) (k : string) :
  NoDup (map id layers) ->
  find (idIs k) (filter isImage layers)
  = match find (idIs k) layers with
    | Some l => if isImage l then Some l else None
    | None => None
    end.
Proof.
  intros D. destruct (find (idIs k) layers) as [l|] eqn:F.
  - apply find_some in F as [Hin Ek]. apply idIs_true in Ek. subst k.
    destruct (isImage l) eqn:Im.
    + apply find_unique; [now apply NoDup_ids_filter|].
      apply filter_In. auto.
    + destruct (find (idIs (id l)) (filter isImage layers)) as [x|] eqn:G;
        [|reflexivity].
      apply find_some in G as [Hx Ex]. apply filter_In in Hx as [Hx Ix].
      apply idIs_true in Ex.
      rewrite (unique_by_id layers x l D Hx Hin Ex) in Ix. congruence.
  - destruct (find (idIs k) (filter isImage layers)) as [x|] eqn:G;
      [|reflexivity].
    apply find_some in G as [Hx Ex]. apply filter_In in Hx as [Hx _].
    now rewrite (find_none _ _ F x Hx) in Ex.
Qed.

(** On a layer list with distinct ids, the references the assistant panel
    shows are, in the same order, the images [handleSendMessage] passes to
    [generateImage]. *)
Theorem references_shown_are_sent (layers : list Layer)
  (selection : list string) :
  NoDup (map id layers) ->
  referenceElements (imageElements layers) selection
  = selectedElements selection layers.
Proof.
  intros D. unfold referenceElements, selectedElements, imageElements.
  induction selection as [|k sel IH]; [reflexivity|].
  simpl. rewrite (find_image layers k D), IH.
  destruct (find (idIs k) layers) as [[e|e|g]|]; reflexivity.
Qed.

Lemma references_shown_are_sent_witness :
  referenceElements (imageElements Tree.layers) ["g1"; "b"; "a"]
  = selectedElements ["g1"; "b"; "a"] Tree.layers.
Proof.
  apply (references_shown_are_sent Tree.layers ["g1"; "b"; "a"]).
  repeat constructor; simpl; intuition discriminate.
Defined.

(** On a layer list with distinct ids, the toolbar enables the background
    button exactly when [handleRemoveBackground] goes on to call the
    service: one id is selected and it names an image. *)
Theorem background_button_enabled (app : App) (layers : list Layer) :
  layersOf app = Some layers -> NoDup (map id layers) ->
  isSingleImageSelected layers (selectedIds app) = true
  <-> exists selectedElement app',
        removeBackgroundBegin app = Ok (Some (selectedElement, app')).
Proof.
  intros Hl D. unfold isSingleImageSelected, removeBackgroundBegin.
  rewrite Hl. cbn [defined bind].
  destruct (JsArray.len (selectedIds app) =? 1); simpl;
    [|split; [discriminate | intros (? & ? & ?); discriminate]].
  destruct (JsArray.get (selectedIds app) 0) as [k|].
  2:{ replace (find (fun _ : Layer => false) layers) with (@None Layer).
      - split; [discriminate | intros (? & ? & ?); discriminate].
      - symmetry. clear. induction layers; auto. }
  destruct (find (idIs k) layers) as [l|] eqn:F.
  - apply find_some in F as [Hin Ek].
    destruct (find (fun l0 => idIs k l0 && isImage l0) layers) as [x|] eqn:G.
    + apply find_some in G as [Hx Ex]. apply andb_true_iff in Ex as [Ex Ix].
      apply idIs_true in Ek, Ex.
      assert (x = l) by (apply (unique_by_id layers); congruence). subst x.
      rewrite Ix. destruct l; try discriminate. split; eauto.
    + pose proof (find_none _ _ G l Hin) as N. cbv beta in N.
      rewrite Ek in N. simpl in N.
      rewrite N. split; [discriminate | intros (? & ? & ?); discriminate].
  - destruct (find (fun l0 => idIs k l0 && isImage l0) layers) as [x|] eqn:G.
    + apply find_some in G as [Hx Ex]. apply andb_true_iff in Ex as [Ex _].
      now rewrite (find_none _ _ F x Hx) in Ex.
    + split; [discriminate | intros (? & ? & ?); discriminate].
Qed.

Lemma background_button_enabled_witness :
  isSingleImageSelected Tree.layers ["a"] = true
  <-> exists selectedElement app',
        removeBackgroundBegin (Sample.appWith Tree.layers ["a"])
        = Ok (Some (selectedElement, app')).
Proof.
  apply (background_button_enabled (Sample.appWith Tree.layers ["a"])
           Tree.layers).
  - reflexivity.
  - repeat constructor; simpl; intuition discriminate.
Defined.

(** ** Data URLs on their way back to the service *)

Lemma contains_app c a b : contains c (a ++ b) = contains c a || contains c b.
Proof.
  induction a as [|d a IH]; simpl; [reflexivity|].
  now rewrite IH, orb_assoc.
Qed.

Lemma append_assoc (a b c : string) :
  (a ++ (b ++ c) = (a ++ b) ++ c)%string.
Proof. induction a as [|d a IH]; simpl; [reflexivity | now rewrite IH]. Qed.

Lemma split_none sep s : contains sep s = false -> split sep s = [s].
Proof.
  induction s as [|c s IH]; simpl; [reflexivity|].
  intros H. apply orb_false_iff in H as [Hc Hs].
  now rewrite Hc, IH.
Qed.

Lemma split_first sep a b :
  contains sep a = false ->
  split sep (a ++ String sep b) = a :: split sep b.
Proof.
  induction a as [|c a IH]; simpl.
  - intros _. now rewrite Ascii.eqb_refl.
  - intros H. apply orb_false_iff in H as [Hc Ha].
    now rewrite Hc, IH.
Qed.

Lemma dataUrl_payload (mime bytes m : string) :
  contains comma mime = false -> contains comma bytes = false ->
  InlineData.data (fileToGenerativePart ("data:" ++ mime ++ ";base64," ++ bytes) m)
  = Some bytes.
Proof.
  intros Hm Hb. unfold fileToGenerativePart. cbn [InlineData.data].
  change ("data:" ++ mime ++ ";base64," ++ bytes)%string
    with ("data:" ++ (mime ++ (";base64" ++ String comma bytes)))%string.
  rewrite !append_assoc.
  rewrite split_first.
  - now rewrite (split_none comma bytes Hb).
  - rewrite !contains_app, Hm. reflexivity.
Qed.

(** An image that [generateImage] or [removeBackground] returned and that is
    sent to the service again goes out with the base64 payload the model had
    answered with, as long as payload and mime type hold no comma: the data
    URL the service functions build is taken apart again by
    [fileToGenerativePart]. *)
Theorem service_payload_round_trip (referenceElements : list Image.t)
  (api : ApiOutcome) (bytes mime m : string) :
  answered api = Some (bytes, mime) ->
  contains comma mime = false -> contains comma bytes = false ->
  (JsArray.len referenceElements =? 0) = false ->
  (exists url, generateImage referenceElements api = Fulfilled url
               /\ InlineData.data (fileToGenerativePart url m) = Some bytes)
  /\ exists url, removeBackground api = Fulfilled url
                 /\ InlineData.data (fileToGenerativePart url m) = Some bytes.
Proof.
  intros Ha Hm Hb Hr. unfold generateImage, removeBackground. rewrite Hr.
  destruct api as [|parts]; [discriminate|]. simpl in Ha. rewrite Ha.
  split; eexists; (split; [reflexivity|]).
  - now apply dataUrl_payload.
  - now apply dataUrl_payload.
Qed.

Lemma service_payload_round_trip_witness :
  (exists url,
     generateImage [Sample.imageA]
       (ApiResolves [mkPart None; mkPart (Some ("QUJD", "image/jpeg"))])
     = Fulfilled url
     /\ InlineData.data (fileToGenerativePart url "image/jpeg") = Some "QUJD")
  /\ exists url,
       removeBackground
         (ApiResolves [mkPart None; mkPart (Some ("QUJD", "image/jpeg"))])
       = Fulfilled url
       /\ InlineData.data (fileToGenerativePart url "image/jpeg") = Some "QUJD".
Proof.
  apply (service_payload_round_trip [Sample.imageA]
           (ApiResolves [mkPart None; mkPart (Some ("QUJD", "image/jpeg"))])
           "QUJD" "image/jpeg" "image/jpeg"); reflexivity.
Defined.
